(** * Euler v2 oracle analysis: the incremental synchronisation core

    A shallow embedding of the checkpointed sync engine of the vault/vendor
    analyser (steps/1-fetch-routers, steps/2-fetch-vaults, lib/utils,
    lib/oracle-vendor-mapping) together with the properties the
    specification states about it.

    Conventions of the embedding.
    - JavaScript numbers that hold block heights, batch sizes and counters are
      integers of [Z]; [Math.floor (b / 2)] is [b / 2] of [Z].
    - Strings are [string]; [toLowerCase] acts on the ASCII letters, which is
      all an address or a provider label needs.
    - [Record<string, T>] objects are [gmap string T]; arrays are lists.
    - Effects (network calls, file writes, pauses, console.error,
      process.exit) are threaded through a state-and-exception monad [M] over
      a [World] that carries the mutable progress object and an append-only
      trace of the effects performed. console.log lines are not recorded. *)

From Stdlib Require Import ZArith Lia String Ascii List Bool.
From stdpp Require Import base option list gmap strings sorting.

Local Open Scope string_scope.
Local Open Scope list_scope.
Local Open Scope stdpp_scope.
Local Open Scope Z_scope.

(** ** JavaScript string primitives *)

Module JsString.

Definition lower_ascii (c : ascii) : ascii :=
  let n := nat_of_ascii c in
  if ((65 <=? n)%nat && (n <=? 90)%nat)%bool then ascii_of_nat (n + 32) else c.

Fixpoint toLowerCase (s : string) : string :=
  match s with
  | EmptyString => EmptyString
  | String c s' => String (lower_ascii c) (toLowerCase s')
  end.

Fixpoint startsWith (s p : string) : bool :=
  match p, s with
  | EmptyString, _ => true
  | String _ _, EmptyString => false
  | String a p', String b s' => if Ascii.eqb a b then startsWith s' p' else false
  end.

(** [s.includes(needle)] *)
Fixpoint includes (s needle : string) : bool :=
  if startsWith s needle then true
  else match s with
       | EmptyString => false
       | String _ s' => includes s' needle
       end.

Definition is_hex (c : ascii) : bool :=
  let n := nat_of_ascii c in
  (((48 <=? n)%nat && (n <=? 57)%nat)
   || ((97 <=? n)%nat && (n <=? 102)%nat)
   || ((65 <=? n)%nat && (n <=? 70)%nat))%bool.

(** The first [n] characters of [s] when all of them are hex digits. *)
Fixpoint take_hex (n : nat) (s : string) : option string :=
  match n with
  | O => Some EmptyString
  | S n' =>
      match s with
      | EmptyString => None
      | String c s' =>
          if is_hex c then
            match take_hex n' s' with
            | Some h => Some (String c h)
            | None => None
            end
          else None
      end
  end.

(** A match of [/0x[a-fA-F0-9]{40}/] that starts at the head of [s]. *)
Definition address_here (s : string) : option string :=
  match s with
  | String c (String d body) =>
      if (Ascii.eqb c "0" && Ascii.eqb d "x")%bool then
        match take_hex 40 body with
        | Some h => Some (String c (String d h))
        | None => None
        end
      else None
  | _ => None
  end.

(** [s.match(/0x[a-fA-F0-9]{40}/)?.[0]]: the leftmost occurrence of [0x]
    followed by forty hex digits. *)
Fixpoint match_address (s : string) : option string :=
  match address_here s with
  | Some a => Some a
  | None =>
      match s with
      | EmptyString => None
      | String _ rest => match_address rest
      end
  end.

(** JavaScript truthiness of an optional string: [undefined] and the empty
    string are falsy. *)
Definition truthy (o : option string) : bool :=
  match o with
  | Some s => negb (String.eqb s EmptyString)
  | None => false
  end.

End JsString.
Import JsString.

(** ** lib/types *)

Record Deployment := {
  address : string;
  deploymentBlock : Z
}.
Abbreviation RouterDeployment := Deployment.
Abbreviation VaultDeployment := Deployment.

Record OracleData := {
  provider : option string;
  providerInfo : option string;
  addressLink : option string
}.

Record CrossOracleDetail := {
  crossAddress : option string;
  baseCrossName : option string;
  crossQuoteName : option string;
  error : option string
}.

Record CrossOracleAnalysis := {
  details : option (list CrossOracleDetail)
}.

Record LoadedOracleData := {
  eulerOracles : list OracleData;
  crossAnalysis : CrossOracleAnalysis;
  vaultDeployments : list VaultDeployment
}.

(** [vendorType: "external" | "vault" | "no oracle (escrow)" | "error"] *)
Inductive VendorType := external | vault | no_oracle_escrow | error_type.

Record VendorInfo := {
  vendor : string;
  underlying : list string;
  vendorType : VendorType
}.

(** ** lib/oracle-vendor-mapping *)

Definition normalizeVendorName (providerInfo : option string) : string :=
  match providerInfo with
  | None => "no oracle (escrow)"
  | Some info =>
      if String.eqb info EmptyString then "no oracle (escrow)" else
      let providerLower := toLowerCase info in
      if includes providerLower "euler vault" then "Euler Vault"
      else if includes providerLower "chainlink" then "Chainlink"
      else if (includes providerLower "redstone"
               || includes providerLower "red stone")%bool then "RedStone"
      else if includes providerLower "pyth" then "Pyth"
      else if includes providerLower "pendle" then "Pendle"
      else if includes providerLower "chronicle" then "Chronicle"
      else if includes providerLower "midas" then "Midas"
      else if includes providerLower "resolv" then "Resolv"
      else if includes providerLower "idle" then "Idle"
      else if includes providerLower "mev capital" then "MEV Capital"
      else if includes providerLower "cross" then "Cross"
      else if includes providerLower "fixed rate" then "Fixed Rate"
      else if includes providerLower "rate provider" then "Rate Provider"
      else if includes providerLower "lido fundamental" then "Lido Fundamental"
      else "Other"
  end.

Definition zero_address : string :=
  "0x0000000000000000000000000000000000000000".

(** [el.addressLink?.match(/0x[a-fA-F0-9]{40}/)?.[0]] *)
Definition fullAddress_of (el : OracleData) : option string :=
  match addressLink el with
  | Some link => match_address link
  | None => None
  end.

(** The callback of [vaultDeployments.find]. *)
Definition is_matching_vault (adapterAddress : string) (v : VaultDeployment) : bool :=
  String.eqb (toLowerCase (address v)) (toLowerCase adapterAddress).

(** The callback of [eulerOracles.find]. *)
Definition is_matching_oracle (adapterAddress : string) (el : OracleData) : bool :=
  match fullAddress_of el with
  | None => false
  | Some fullAddress =>
      if String.eqb fullAddress zero_address then false
      else String.eqb (toLowerCase fullAddress) (toLowerCase adapterAddress)
  end.

(** The callback of [crossAnalysis.details?.find]. *)
Definition is_matching_cross (adapterAddress : string) (c : CrossOracleDetail) : bool :=
  match crossAddress c with
  | Some a => String.eqb (toLowerCase a) (toLowerCase adapterAddress)
  | None => false
  end.

Definition find_cross (adapterAddress : string) (ca : CrossOracleAnalysis)
  : option CrossOracleDetail :=
  match details ca with
  | Some ds => List.find (is_matching_cross adapterAddress) ds
  | None => None
  end.

Definition getVendorForOracle (adapterAddress : string)
    (oracleData : LoadedOracleData) : VendorInfo :=
  match List.find (is_matching_vault adapterAddress) (vaultDeployments oracleData) with
  | Some _ =>
      {| vendor := "Euler Vault"; underlying := []; vendorType := vault |}
  | None =>
      match List.find (is_matching_oracle adapterAddress) (eulerOracles oracleData) with
      | None =>
          {| vendor := "oracle not known"; underlying := [];
             vendorType := error_type |}
      | Some oracle =>
          match fullAddress_of oracle with
          | Some fullAddress =>
              if String.eqb fullAddress zero_address then
                {| vendor := "no oracle (escrow)"; underlying := [];
                   vendorType := no_oracle_escrow |}
              else if String.eqb fullAddress EmptyString then
                {| vendor := "no oracle address stored"; underlying := [];
                   vendorType := error_type |}
              else
                let vendor := normalizeVendorName (providerInfo oracle) in
                let plain :=
                  {| vendor := vendor; underlying := [];
                     vendorType := external |} in
                if String.eqb vendor "Cross" then
                  match find_cross adapterAddress (crossAnalysis oracleData) with
                  | Some crossOracle =>
                      if negb (truthy (error crossOracle)) then
                        {| vendor := "Cross";
                           underlying :=
                             [normalizeVendorName (baseCrossName crossOracle);
                              normalizeVendorName (crossQuoteName crossOracle)];
                           vendorType := external |}
                      else plain
                  | None => plain
                  end
                else plain
          | None =>
              {| vendor := "no oracle address stored"; underlying := [];
                 vendorType := error_type |}
          end
      end
  end.

(** ** Progress state (lib/types) *)

Record RouterInfo := {
  ri_deploymentBlock : Z;
  adapters : list string;
  assetPairs : gmap string (list string);
  vendorInfo : gmap string VendorInfo;
  configEventsCount : Z;
  vaultEventsCount : Z
}.

Record VaultInfo := {
  vi_oracle : string;
  vi_asset : string;
  vi_vendors : list string;
  vi_vendorType : string;
  vi_deploymentBlock : Z
}.

Record Progress := {
  routers : gmap string RouterInfo;
  vaults : gmap string VaultInfo;
  processedRouters : gmap string Z;
  processedVaults : gmap string Z;
  lastRouterFactoryBlock : option Z;
  lastVaultFactoryBlock : option Z
}.

(** What [loadProgress] returns when there is no progress file. *)
Definition fresh_progress : Progress :=
  {| routers := ∅; vaults := ∅; processedRouters := ∅; processedVaults := ∅;
     lastRouterFactoryBlock := None; lastVaultFactoryBlock := None |}.

(** ** Effects *)

(** An entry of the array [queryFilter] resolves to: a decoded [EventLog] or
    an undecoded [Log]. *)
Inductive log (A : Type) :=
| EventLog (blockNumber : Z) (args : A)
| Log (blockNumber : Z).
Arguments EventLog {A} blockNumber args.
Arguments Log {A} blockNumber.

Definition is_EventLog {A} (e : log A) : bool :=
  match e with EventLog _ _ => true | Log _ => false end.

(** [QueryFilter] carries, besides the range sent to the node, the batch size
    of the invocation of the fetcher that issued the call. *)
Inductive effect :=
| GetBlockNumber
| QueryFilter (target : string) (fromBlock toBlock batchSize : Z)
| Sleep (ms : Z)
| SaveProgress (p : Progress)
| SaveRouterDeployments (ds : list RouterDeployment)
| ConsoleError (msg : string)
| ProcessExit (code : Z).

Definition is_network_call (e : effect) : bool :=
  match e with
  | GetBlockNumber | QueryFilter _ _ _ _ => true
  | _ => false
  end.

Definition is_event_query (e : effect) : bool :=
  match e with
  | QueryFilter _ _ _ _ => true
  | _ => false
  end.

(** The batch sizes of the event queries of a trace, in the order issued. *)
Definition batch_sizes (tr : list effect) : list Z :=
  omap (fun e => match e with
                 | QueryFilter _ _ _ s => Some s
                 | _ => None
                 end) tr.

Record World := {
  progress : Progress;
  routerDeploymentsFile : list RouterDeployment;
  vaultDeploymentsFile : list VaultDeployment;
  trace : list effect
}.

Definition log_effect (e : effect) (w : World) : World :=
  {| progress := progress w;
     routerDeploymentsFile := routerDeploymentsFile w;
     vaultDeploymentsFile := vaultDeploymentsFile w;
     trace := trace w ++ [e] |}.

Definition set_progress (p : Progress) (w : World) : World :=
  {| progress := p;
     routerDeploymentsFile := routerDeploymentsFile w;
     vaultDeploymentsFile := vaultDeploymentsFile w;
     trace := trace w |}.

Inductive Result (A : Type) :=
| Ok (a : A)
| Throw (msg : string)
| Exit (code : Z)
| OutOfFuel.
Arguments Ok {A} a.
Arguments Throw {A} msg.
Arguments Exit {A} code.
Arguments OutOfFuel {A}.

Definition M (A : Type) : Type := World -> Result A * World.

Definition ret {A} (a : A) : M A := fun w => (Ok a, w).

Definition bind {A B} (m : M A) (k : A -> M B) : M B :=
  fun w =>
    match m w with
    | (Ok a, w') => k a w'
    | (Throw msg, w') => (Throw msg, w')
    | (Exit code, w') => (Exit code, w')
    | (OutOfFuel, w') => (OutOfFuel, w')
    end.

Notation "'let*' x := m 'in' k" := (bind m (fun x => k))
  (at level 10, x name, m at level 100, k at level 200).

Definition throw {A} (msg : string) : M A := fun w => (Throw msg, w).

(** [try { m } catch (error) { h error.message }]: only a thrown error is
    caught; the state reached when it was thrown is kept. *)
Definition try_catch {A} (m : M A) (h : string -> M A) : M A :=
  fun w =>
    match m w with
    | (Throw msg, w') => h msg w'
    | other => other
    end.

Definition out_of_fuel {A} : M A := fun w => (OutOfFuel, w).

Definition console_error (msg : string) : M unit :=
  fun w => (Ok tt, log_effect (ConsoleError msg) w).

Definition sleep (ms : Z) : M unit :=
  fun w => (Ok tt, log_effect (Sleep ms) w).

(** [process.exit(code)] *)
Definition process_exit {A} (code : Z) : M A :=
  fun w => (Exit code, log_effect (ProcessExit code) w).

(** ** The chain client and the storage backend

    Every answer of the outside world may depend on everything that happened
    before: it is a function of the number of effects performed so far. *)

Record Contract (A : Type) := {
  target : string;
  has_filter : bool;
  queryFilter_response : nat -> Z -> Z -> string + list (log A)
}.
Arguments target {A} c.
Arguments has_filter {A} c.
Arguments queryFilter_response {A} c.

Definition queryFilter {A} (contract : Contract A)
    (fromBlock toBlock batchSize : Z) : M (list (log A)) :=
  fun w =>
    let w' :=
      log_effect (QueryFilter (target contract) fromBlock toBlock batchSize) w in
    match
      queryFilter_response contract (length (trace w)) fromBlock toBlock
    with
    | inr events => (Ok events, w')
    | inl errorMsg => (Throw errorMsg, w')
    end.

(** ** lib/utils *)

Definition show_Z (n : Z) : string := pretty.pretty n.

(** The [while] loop of the source is the recursion on [currentBlock]; the
    recursive call of the source is the one in the handler. [fuel] bounds the
    number of loop iterations and nested calls. *)
Fixpoint queryEventsInBatches {A} (fuel : nat) (contract : Contract A)
    (currentBlock toBlock batchSize : Z) : M (list (log A)) :=
  if currentBlock <=? toBlock then
    match fuel with
    | O => out_of_fuel
    | S fuel' =>
        let endBlock := Z.min (currentBlock + batchSize - 1) toBlock in
        let* batch := try_catch
          (let* events :=
             queryFilter contract currentBlock endBlock batchSize in
           ret (List.filter is_EventLog events))
          (fun errorMsg =>
             let* _ := console_error
                         ("  Error querying blocks " +:+ show_Z currentBlock
                          +:+ "-" +:+ show_Z endBlock +:+ ": " +:+ errorMsg) in
             if batchSize >? 1000 then
               queryEventsInBatches fuel' contract currentBlock endBlock
                 (batchSize / 2)
             else ret []) in
        let* _ := sleep 200 in
        let* rest :=
          queryEventsInBatches fuel' contract (endBlock + 1) toBlock
            batchSize in
        ret (batch ++ rest)
    end
  else ret [].

Definition default_batchSize : Z := 10000.

(** ** The provider, the storage backend and the configuration *)

(** [event ConfigSet(asset0, asset1, oracle)] of a router. *)
Record ConfigSetArgs := {
  asset0 : string;
  asset1 : string;
  oracle : string
}.

(** [event ContractDeployed(router, deployer, timestamp)] of the factory. *)
Record ContractDeployedArgs := {
  router : string;
  deployer : string;
  timestamp : Z
}.

Record Provider := {
  getBlockNumber_response : nat -> string + Z;
  ConfigSet_filter : string -> bool;
  ConfigSet_logs : string -> nat -> Z -> Z -> string + list (log ConfigSetArgs);
  ContractDeployed_filter : bool;
  ContractDeployed_logs : nat -> Z -> Z -> string + list (log ContractDeployedArgs)
}.

Definition ROUTER_FACTORY : string := "0x70B3f6F61b7Bf237DF04589DdAA842121072326A".
Definition EVAULT_FACTORY : string := "0x29a56a1b8214D9Cf7c5561811750D5cBDb45CC8e".

(** [new ethers.Contract(routerAddress, ROUTER_ABI, provider)] *)
Definition router_contract (provider : Provider) (routerAddress : string)
  : Contract ConfigSetArgs :=
  {| target := routerAddress;
     has_filter := ConfigSet_filter provider routerAddress;
     queryFilter_response := ConfigSet_logs provider routerAddress |}.

(** [new ethers.Contract(ROUTER_FACTORY, ROUTER_FACTORY_ABI, provider)] *)
Definition router_factory_contract (provider : Provider)
  : Contract ContractDeployedArgs :=
  {| target := ROUTER_FACTORY;
     has_filter := ContractDeployed_filter provider;
     queryFilter_response := ContractDeployed_logs provider |}.

Definition getBlockNumber (provider : Provider) : M Z :=
  fun w =>
    let w' := log_effect GetBlockNumber w in
    match getBlockNumber_response provider (length (trace w)) with
    | inr n => (Ok n, w')
    | inl errorMsg => (Throw errorMsg, w')
    end.

Definition get_progress : M Progress := fun w => (Ok (progress w), w).

Definition modify_progress (f : Progress -> Progress) : M unit :=
  fun w => (Ok tt, set_progress (f (progress w)) w).

(** JavaScript truthiness of an optional number: [undefined], [null] and [0]
    are falsy. *)
Definition truthy_number (o : option Z) : bool :=
  match o with
  | Some n => negb (n =? 0)
  | None => false
  end.

(** [l[i]] on an array: [undefined] outside [0 .. length - 1]. *)
Definition array_get {X} (l : list X) (i : Z) : option X :=
  if i <? 0 then None else l !! Z.to_nat i.

(** A JavaScript [Set] of strings, kept in insertion order. *)
Definition Set_add (x : string) (s : list string) : list string :=
  if decide (x ∈ s) then s else s ++ [x].

Definition Set_from_array (l : list string) : list string :=
  foldl (fun s x => Set_add x s) [] l.

Fixpoint for_each {X} (body : X -> M unit) (l : list X) : M unit :=
  match l with
  | [] => ret tt
  | x :: l' => let* _ := body x in for_each body l'
  end.

Definition nl : string := String "010"%char EmptyString.

Section Sync.

(** The injected collaborators and the settings read from the environment. *)
Variable provider : Provider.
Variable writeFile_error : nat -> option string.
Variable RECHECK_INTERVAL_BLOCKS : Z.
Variable ROUTER_FACTORY_START_BLOCK : option Z.
Variable EVAULT_FACTORY_START_BLOCK : option Z.

(** *** lib/progress *)

Definition saveProgress : M unit :=
  fun w =>
    let w' := log_effect (SaveProgress (progress w)) w in
    match writeFile_error (length (trace w)) with
    | Some errorMsg => (Throw errorMsg, w')
    | None => (Ok tt, w')
    end.

Definition loadRouterDeployments : M (list RouterDeployment) :=
  fun w => (Ok (routerDeploymentsFile w), w).

Definition loadVaultDeployments : M (list VaultDeployment) :=
  fun w => (Ok (vaultDeploymentsFile w), w).

Definition saveRouterDeployments (deployments : list RouterDeployment) : M unit :=
  fun w =>
    let w' := log_effect (SaveRouterDeployments deployments) w in
    match writeFile_error (length (trace w)) with
    | Some errorMsg => (Throw errorMsg, w')
    | None =>
        (Ok tt, {| progress := progress w';
                   routerDeploymentsFile := deployments;
                   vaultDeploymentsFile := vaultDeploymentsFile w';
                   trace := trace w' |})
    end.

(** *** lib/utils: requireStartBlock *)

(** The body of [if (!blockVar) { ... }]. *)
Definition start_block_missing {X} (factoryName envVarName : string) : M X :=
  let* _ := console_error (nl +:+ "✗ ERROR: " +:+ envVarName
                              +:+ " is not set in .env file") in
  let* _ := console_error (nl +:+ "Please add to your .env file:") in
  let* _ := console_error (envVarName +:+ "=<deployment_block>") in
  let* _ := console_error (nl +:+ "Factory: " +:+ factoryName) in
  let* _ := console_error "You can find deployment blocks on Etherscan." in
  let* _ := console_error (nl +:+ "Example:") in
  let* _ := console_error "ROUTER_FACTORY_START_BLOCK=19400000" in
  let* _ := console_error "EVAULT_FACTORY_START_BLOCK=19400000" in
  process_exit 1.

Definition requireStartBlock (blockVar : option Z)
    (factoryName envVarName : string) : M Z :=
  match blockVar with
  | Some b => if b =? 0 then start_block_missing factoryName envVarName else ret b
  | None => start_block_missing factoryName envVarName
  end.

(** *** steps/1-fetch-routers *)

Record FactoryQuery := {
  fromBlock : Z;
  shouldQueryFactory : bool
}.

Definition evaluateRouterFactoryQuery : M FactoryQuery :=
  let* allRouterDeployments := loadRouterDeployments in
  let* progress := get_progress in
  if truthy_number (lastRouterFactoryBlock progress) then
    let fromBlock := default 0 (lastRouterFactoryBlock progress) + 1 in
    let alternativeStart :=
      match array_get allRouterDeployments (-1) with
      | Some d => deploymentBlock d
      | None => fromBlock
      end in
    let fromBlock :=
      if alternativeStart >? fromBlock then fromBlock else alternativeStart in
    ret {| fromBlock := fromBlock; shouldQueryFactory := true |}
  else if (0 <? length allRouterDeployments)%nat then
    let fromBlock :=
      match array_get allRouterDeployments (-1) with
      | Some d => deploymentBlock d
      | None => 0
      end in
    ret {| fromBlock := fromBlock; shouldQueryFactory := false |}
  else
    let* fromBlock := requireStartBlock ROUTER_FACTORY_START_BLOCK
                        ROUTER_FACTORY "ROUTER_FACTORY_START_BLOCK" in
    ret {| fromBlock := fromBlock; shouldQueryFactory := true |}.

(** [.filter((event) => event && event.args?.router)] followed by [.map]. *)
Definition deployment_of_event (e : log ContractDeployedArgs)
  : option RouterDeployment :=
  match e with
  | EventLog b args =>
      if String.eqb (router args) EmptyString then None
      else Some {| address := router args; deploymentBlock := b |}
  | Log _ => None
  end.

Definition queryRouterFactory (fuel : nat)
    (factory : Contract ContractDeployedArgs)
    (fromBlock currentBlock : Z) : M (list RouterDeployment) :=
  let* _ := (if has_filter factory then ret tt
             else throw "ContractDeployed filter not found") in
  let* newDeploymentEvents :=
    queryEventsInBatches fuel factory fromBlock currentBlock default_batchSize in
  ret (omap deployment_of_event newDeploymentEvents).

(** The recheck policy at the head of the loop body. *)
Inductive Schedule :=
| Skip
| Query (queryFromBlock : Z) (isRecheck : bool).

Definition schedule (lastProcessedBlock : option Z)
    (deploymentBlock currentBlock : Z) : Schedule :=
  match lastProcessedBlock with
  | Some last =>
      let blocksSinceLastCheck := currentBlock - last in
      if blocksSinceLastCheck <? RECHECK_INTERVAL_BLOCKS then Skip
      else Query (last + 1) true
  | None => Query deploymentBlock false
  end.

(** The callback of [configEvents.forEach], on the pair of the adapter set
    and the asset-pair object. *)
Definition add_config_event
    (acc : list string * gmap string (list string))
    (e : log ConfigSetArgs) : list string * gmap string (list string) :=
  match e with
  | Log _ => acc
  | EventLog _ args =>
      let key := asset0 args +:+ "-" +:+ asset1 args in
      (Set_add (oracle args) acc.1,
       <[key := default [] (acc.2 !! key) ++ [oracle args]]> acc.2)
  end.

(** [for (const adapter of adapters) vendorInfo[adapter] = ...] *)
Definition vendorInfo_of (oracleData : LoadedOracleData)
    (adapters : list string) : gmap string VendorInfo :=
  foldl (fun m adapter => <[adapter := getVendorForOracle adapter oracleData]> m)
    ∅ adapters.

(** The record written for a router, from the record found in the progress
    object ([None] when absent or when this is not a recheck). *)
Definition merged_router_info (oracleData : LoadedOracleData)
    (deploymentBlock : Z) (existing : option RouterInfo)
    (configEvents : list (log ConfigSetArgs)) : RouterInfo :=
  let adapters0 :=
    match existing with
    | Some info => Set_from_array (adapters info)
    | None => []
    end in
  let assetPairs0 :=
    match existing with
    | Some info => assetPairs info
    | None => ∅
    end in
  let merged := foldl add_config_event (adapters0, assetPairs0) configEvents in
  let totalConfigEvents :=
    match existing with
    | Some info => configEventsCount info + Z.of_nat (length configEvents)
    | None => Z.of_nat (length configEvents)
    end in
  {| ri_deploymentBlock := deploymentBlock;
     adapters := merged.1;
     assetPairs := merged.2;
     vendorInfo := vendorInfo_of oracleData merged.1;
     configEventsCount := totalConfigEvents;
     vaultEventsCount := 0 |}.

Definition store_router (routerAddress : string) (info : RouterInfo)
    (p : Progress) : Progress :=
  {| routers := <[routerAddress := info]> (routers p);
     vaults := vaults p;
     processedRouters := processedRouters p;
     processedVaults := processedVaults p;
     lastRouterFactoryBlock := lastRouterFactoryBlock p;
     lastVaultFactoryBlock := lastVaultFactoryBlock p |}.

Definition mark_router_processed (routerAddress : string) (currentBlock : Z)
    (p : Progress) : Progress :=
  {| routers := routers p;
     vaults := vaults p;
     processedRouters := <[routerAddress := currentBlock]> (processedRouters p);
     processedVaults := processedVaults p;
     lastRouterFactoryBlock := lastRouterFactoryBlock p;
     lastVaultFactoryBlock := lastVaultFactoryBlock p |}.

Definition set_lastRouterFactoryBlock (currentBlock : Z) (p : Progress)
  : Progress :=
  {| routers := routers p;
     vaults := vaults p;
     processedRouters := processedRouters p;
     processedVaults := processedVaults p;
     lastRouterFactoryBlock := Some currentBlock;
     lastVaultFactoryBlock := lastVaultFactoryBlock p |}.

(** The [try] block of the loop body. *)
Definition analyze_router (fuel : nat) (oracleData : LoadedOracleData)
    (routerAddress : string) (deploymentBlock currentBlock : Z)
    (queryFromBlock : Z) (isRecheck : bool) : M unit :=
  let router := router_contract provider routerAddress in
  let* _ := (if has_filter router then ret tt
             else throw "ConfigSet filter not found") in
  let* configEvents :=
    queryEventsInBatches fuel router queryFromBlock currentBlock
      default_batchSize in
  let* progress := get_progress in
  let existingRouterInfo :=
    if isRecheck then routers progress !! routerAddress else None in
  let* _ := modify_progress
              (store_router routerAddress
                 (merged_router_info oracleData deploymentBlock
                    existingRouterInfo configEvents)) in
  let* _ := modify_progress (mark_router_processed routerAddress currentBlock) in
  let* _ := saveProgress in
  sleep 200.

(** One iteration of the loop of [processRouterDeployments]. *)
Definition process_router (fuel : nat) (oracleData : LoadedOracleData)
    (currentBlock : Z) (deployment : RouterDeployment) : M unit :=
  let routerAddress := address deployment in
  let* progress := get_progress in
  match schedule (processedRouters progress !! routerAddress)
          (deploymentBlock deployment) currentBlock with
  | Skip => ret tt
  | Query queryFromBlock isRecheck =>
      try_catch
        (analyze_router fuel oracleData routerAddress
           (deploymentBlock deployment) currentBlock queryFromBlock isRecheck)
        (fun errorMsg =>
           console_error ("  ✗ Error analyzing router: " +:+ errorMsg))
  end.

Definition processRouterDeployments (fuel : nat)
    (oracleData : LoadedOracleData)
    (allRouterDeployments : list RouterDeployment)
    (currentBlock : Z) : M unit :=
  let* _ := for_each (process_router fuel oracleData currentBlock)
              allRouterDeployments in
  let* _ := modify_progress (set_lastRouterFactoryBlock currentBlock) in
  saveProgress.

(** The merge of newly found deployments into the cached list. *)
Definition merge_deployments (all newDeployments : list RouterDeployment)
  : list RouterDeployment :=
  let existingAddresses := map (fun d => toLowerCase (address d)) all in
  all ++ List.filter
           (fun newDep =>
              negb (bool_decide (toLowerCase (address newDep) ∈ existingAddresses)))
           newDeployments.

Definition fetchRouters (fuel : nat) (oracleData : LoadedOracleData) : M unit :=
  let factory := router_factory_contract provider in
  let* currentBlock := getBlockNumber provider in
  let* q := evaluateRouterFactoryQuery in
  let* allRouterDeployments := loadRouterDeployments in
  let* allRouterDeployments :=
    (if shouldQueryFactory q then
       let* newDeployments :=
         queryRouterFactory fuel factory (fromBlock q) currentBlock in
       let all := merge_deployments allRouterDeployments newDeployments in
       let* _ := (if (0 <? length newDeployments)%nat
                  then saveRouterDeployments all else ret tt) in
       ret all
     else ret allRouterDeployments) in
  processRouterDeployments fuel oracleData allRouterDeployments currentBlock.

(** *** steps/2-fetch-vaults: range resolution *)

Definition evaluateVaultFactoryQuery (currentBlock : Z) : M FactoryQuery :=
  let* allVaultDeployments := loadVaultDeployments in
  let* progress := get_progress in
  if truthy_number (lastVaultFactoryBlock progress) then
    ret {| fromBlock := default 0 (lastVaultFactoryBlock progress) + 1;
           shouldQueryFactory := true |}
  else if (0 <? length allVaultDeployments)%nat then
    ret {| fromBlock := Z.max (currentBlock - 10000) 0;
           shouldQueryFactory := true |}
  else
    let* fromBlock := requireStartBlock EVAULT_FACTORY_START_BLOCK
                        EVAULT_FACTORY "EVAULT_FACTORY_START_BLOCK" in
    ret {| fromBlock := fromBlock; shouldQueryFactory := true |}.

End Sync.

(** ** steps/2-fetch-vaults: discovery and analysis of the vaults

    The vault step performs three effects the router step does not: the
    [oracle()] and [asset()] calls on a vault and the write of the vault
    deployment file. They are recorded in a trace of their own, layered over
    the [World] of the router step; each entry carries the number of effects
    of the underlying world performed before it. *)

(** [event ProxyCreated(proxy, upgradeable, implementation, trailingData)] *)
Record ProxyCreatedArgs := {
  proxy : string;
  upgradeable : bool;
  implementation : string;
  trailingData : string
}.

(** What the node answers about the vault factory and the vaults.
    [oracle_asset_response] is the outcome of
    [Promise.all([vault.oracle(), vault.asset()])]: a rejection, or both
    addresses. *)
Record VaultChain := {
  ProxyCreated_filter : bool;
  ProxyCreated_logs : nat -> Z -> Z -> string + list (log ProxyCreatedArgs);
  oracle_asset_response : string -> nat -> string + (string * string)
}.

(** [new ethers.Contract(EVAULT_FACTORY, EVAULT_FACTORY_ABI, provider)] *)
Definition vault_factory_contract (chain : VaultChain)
  : Contract ProxyCreatedArgs :=
  {| target := EVAULT_FACTORY;
     has_filter := ProxyCreated_filter chain;
     queryFilter_response := ProxyCreated_logs chain |}.

(** [.filter((event) => event && event.args?.proxy)] followed by [.map]. *)
Definition vault_of_event (e : log ProxyCreatedArgs) : option VaultDeployment :=
  match e with
  | EventLog b args =>
      if String.eqb (proxy args) EmptyString then None
      else Some {| address := proxy args; deploymentBlock := b |}
  | Log _ => None
  end.

Definition queryVaultFactory (fuel : nat) (factory : Contract ProxyCreatedArgs)
    (fromBlock currentBlock : Z) : M (list VaultDeployment) :=
  let* _ := (if has_filter factory then ret tt
             else throw "ProxyCreated filter not found") in
  let* newProxyEvents :=
    queryEventsInBatches fuel factory fromBlock currentBlock default_batchSize in
  ret (omap vault_of_event newProxyEvents).

(** *** The vendors of a vault *)

(** [s.split("-")] *)
Fixpoint split_dash (s : string) : list string :=
  match s with
  | EmptyString => [EmptyString]
  | String c s' =>
      if Ascii.eqb c "-" then EmptyString :: split_dash s'
      else match split_dash s' with
           | first :: rest => String c first :: rest
           | [] => [String c EmptyString]
           end
  end.

(** [segment?.toLowerCase() === assetLower] *)
Definition matches_asset (segment : option string) (assetLower : string) : bool :=
  match segment with
  | Some a => String.eqb (toLowerCase a) assetLower
  | None => false
  end.

(** [matchesAsset0 || matchesAsset1] for a key of [assetPairs]. *)
Definition pair_mentions (pairKey assetAddress : string) : bool :=
  let segments := split_dash pairKey in
  let assetLower := toLowerCase assetAddress in
  matches_asset (segments !! 0%nat) assetLower
  || matches_asset (segments !! 1%nat) assetLower.

(** What one adapter's vendor record adds to the vendor set. *)
Definition vendor_names (info : VendorInfo) : list string :=
  if String.eqb (vendor info) "Cross" && (0 <? length (underlying info))%nat
  then underlying info
  else [vendor info].

(** The callback of [adapters.forEach]. *)
Definition add_adapter_vendors (routerInfo : RouterInfo)
    (vendorSet : list string) (adapterAddress : string) : list string :=
  match vendorInfo routerInfo !! adapterAddress with
  | Some info => foldl (fun s v => Set_add v s) vendorSet (vendor_names info)
  | None => vendorSet
  end.

(** The callback of [Object.entries(routerInfo.assetPairs).forEach]. *)
Definition add_pair_vendors (routerInfo : RouterInfo) (assetAddress : string)
    (vendorSet : list string) (entry : string * list string) : list string :=
  if pair_mentions entry.1 assetAddress
  then foldl (add_adapter_vendors routerInfo) vendorSet entry.2
  else vendorSet.

(** [vendors.length === 1 ? vendors[0] : "Multiple"] *)
Definition vendorType_of (vendors : list string) : string :=
  match vendors with
  | [v] => v
  | _ => "Multiple"
  end.

(** The branch [if (routerInfo)], on the entries of the asset-pair object in
    the order [Object.entries] lists them. *)
Definition vendors_via_router (entries : list (string * list string))
    (routerInfo : RouterInfo) (assetAddress : string) : list string * string :=
  let vendors := foldl (add_pair_vendors routerInfo assetAddress) [] entries in
  (vendors, vendorType_of vendors).

(** The branch [else]: the oracle of the vault is not a known router. *)
Definition vendors_direct (oracleData : LoadedOracleData)
    (routerAddress : string) : list string * string :=
  let info := getVendorForOracle routerAddress oracleData in
  if String.eqb (vendor info) "Cross" && (0 <? length (underlying info))%nat
  then (underlying info, "Cross")
  else ([vendor info], vendor info).

Definition store_vault (vaultAddress : string) (info : VaultInfo)
    (p : Progress) : Progress :=
  {| routers := routers p;
     vaults := <[vaultAddress := info]> (vaults p);
     processedRouters := processedRouters p;
     processedVaults := processedVaults p;
     lastRouterFactoryBlock := lastRouterFactoryBlock p;
     lastVaultFactoryBlock := lastVaultFactoryBlock p |}.

Definition mark_vault_processed (vaultAddress : string) (currentBlock : Z)
    (p : Progress) : Progress :=
  {| routers := routers p;
     vaults := vaults p;
     processedRouters := processedRouters p;
     processedVaults := <[vaultAddress := currentBlock]> (processedVaults p);
     lastRouterFactoryBlock := lastRouterFactoryBlock p;
     lastVaultFactoryBlock := lastVaultFactoryBlock p |}.

Definition set_lastVaultFactoryBlock (currentBlock : Z) (p : Progress)
  : Progress :=
  {| routers := routers p;
     vaults := vaults p;
     processedRouters := processedRouters p;
     processedVaults := processedVaults p;
     lastRouterFactoryBlock := lastRouterFactoryBlock p;
     lastVaultFactoryBlock := Some currentBlock |}.

(** [!shouldRequeryRpc && existingVaultInfo?.oracle && existingVaultInfo?.asset]:
    the cached addresses when the condition holds. *)
Definition cached_addresses (shouldRequeryRpc : bool)
    (existingVaultInfo : option VaultInfo) : option (string * string) :=
  match existingVaultInfo with
  | Some info =>
      if negb shouldRequeryRpc
         && negb (String.eqb (vi_oracle info) EmptyString)
         && negb (String.eqb (vi_asset info) EmptyString)
      then Some (vi_oracle info, vi_asset info)
      else None
  | None => None
  end.

(** *** The layered world and its monad *)

Inductive vault_effect :=
| CallOracle (vaultAddress : string)
| CallAsset (vaultAddress : string)
| SaveVaultDeployments (ds : list VaultDeployment).

Record VaultWorld := {
  world : World;
  vault_trace : list (nat * vault_effect)
}.

Definition VM (A : Type) : Type := VaultWorld -> Result A * VaultWorld.

Definition vret {A} (a : A) : VM A := fun vw => (Ok a, vw).

Definition vbind {A B} (m : VM A) (k : A -> VM B) : VM B :=
  fun vw =>
    match m vw with
    | (Ok a, vw') => k a vw'
    | (Throw msg, vw') => (Throw msg, vw')
    | (Exit code, vw') => (Exit code, vw')
    | (OutOfFuel, vw') => (OutOfFuel, vw')
    end.

Notation "'let+' x := m 'in' k" := (vbind m (fun x => k))
  (at level 10, x name, m at level 100, k at level 200).

Definition vthrow {A} (msg : string) : VM A := fun vw => (Throw msg, vw).

Definition vtry_catch {A} (m : VM A) (h : string -> VM A) : VM A :=
  fun vw =>
    match m vw with
    | (Throw msg, vw') => h msg vw'
    | other => other
    end.

(** A computation of the router step, run on the underlying world. *)
Definition lift {A} (m : M A) : VM A :=
  fun vw =>
    let (r, w') := m (world vw) in
    (r, {| world := w'; vault_trace := vault_trace vw |}).

(** The number of effects of both layers performed so far. *)
Definition effects_so_far (vw : VaultWorld) : nat :=
  (length (trace (world vw)) + length (vault_trace vw))%nat.

Definition log_vault_effects (es : list vault_effect) (vw : VaultWorld)
  : VaultWorld :=
  {| world := world vw;
     vault_trace :=
       vault_trace vw ++ map (fun e => (length (trace (world vw)), e)) es |}.

(** [Promise.all([vault.oracle(), vault.asset()])]: both calls are sent before
    either answer is awaited. *)
Definition oracle_and_asset (chain : VaultChain) (vaultAddress : string)
  : VM (string * string) :=
  fun vw =>
    let vw' :=
      log_vault_effects [CallOracle vaultAddress; CallAsset vaultAddress] vw in
    match oracle_asset_response chain vaultAddress (effects_so_far vw) with
    | inr addresses => (Ok addresses, vw')
    | inl errorMsg => (Throw errorMsg, vw')
    end.

Fixpoint vfor_each {X} (body : X -> VM unit) (l : list X) : VM unit :=
  match l with
  | [] => vret tt
  | x :: l' => let+ _ := body x in vfor_each body l'
  end.

Section VaultSync.

Variable provider : Provider.
Variable chain : VaultChain.
Variable writeFile_error : nat -> option string.
Variable writeVaultFile_error : nat -> option string.
Variable RECHECK_INTERVAL_BLOCKS : Z.
Variable EVAULT_FACTORY_START_BLOCK : option Z.

(** The order in which [Object.entries] lists an asset-pair object (the
    order its keys were inserted in, which the map does not record). *)
Variable Object_entries : gmap string (list string) -> list (string * list string).

Definition saveVaultDeployments (deployments : list VaultDeployment) : VM unit :=
  fun vw =>
    let vw' := log_vault_effects [SaveVaultDeployments deployments] vw in
    match writeVaultFile_error (effects_so_far vw) with
    | Some errorMsg => (Throw errorMsg, vw')
    | None =>
        (Ok tt,
         {| world := {| progress := progress (world vw');
                        routerDeploymentsFile := routerDeploymentsFile (world vw');
                        vaultDeploymentsFile := deployments;
                        trace := trace (world vw') |};
            vault_trace := vault_trace vw' |})
    end.

(** [shouldRequeryRpc] as the head of the loop body sets it; [isRecheck]
    only selects the console.log line and is left out. *)
Definition should_requery_rpc (lastProcessedBlock : option Z)
    (currentBlock : Z) : bool :=
  match lastProcessedBlock with
  | Some last =>
      let blocksSinceLastCheck := currentBlock - last in
      if blocksSinceLastCheck <? RECHECK_INTERVAL_BLOCKS then false else true
  | None => true
  end.

(** The vendors and the vendor type of a vault, from the router record of the
    progress object or, without one, from the oracle registry. *)
Definition vault_vendors (progress : Progress) (oracleData : LoadedOracleData)
    (routerAddress assetAddress : string) : list string * string :=
  match routers progress !! routerAddress with
  | Some routerInfo =>
      vendors_via_router (Object_entries (assetPairs routerInfo)) routerInfo
        assetAddress
  | None => vendors_direct oracleData routerAddress
  end.

(** The record the loop body writes for a vault. *)
Definition vault_record (progress : Progress) (oracleData : LoadedOracleData)
    (deployment : VaultDeployment) (routerAddress assetAddress : string)
  : VaultInfo :=
  let derived := vault_vendors progress oracleData routerAddress assetAddress in
  {| vi_oracle := routerAddress;
     vi_asset := assetAddress;
     vi_vendors := derived.1;
     vi_vendorType := derived.2;
     vi_deploymentBlock := deploymentBlock deployment |}.

(** The [try] block of the loop body. *)
Definition analyze_vault (oracleData : LoadedOracleData)
    (deployment : VaultDeployment) (currentBlock : Z)
    (shouldRequeryRpc : bool) : VM unit :=
  let vaultAddress := address deployment in
  let+ progress := lift get_progress in
  let existingVaultInfo := vaults progress !! vaultAddress in
  let+ addresses :=
    match cached_addresses shouldRequeryRpc existingVaultInfo with
    | Some cached => vret cached
    | None =>
        let+ fetched := oracle_and_asset chain vaultAddress in
        if String.eqb fetched.1 EmptyString || String.eqb fetched.2 EmptyString
        then vthrow "Failed to get oracle or asset address"
        else vret fetched
    end in
  let+ progress := lift get_progress in
  let+ _ := lift (modify_progress
                    (store_vault vaultAddress
                       (vault_record progress oracleData deployment
                          addresses.1 addresses.2))) in
  let+ _ := lift (modify_progress
                    (mark_vault_processed vaultAddress currentBlock)) in
  let+ _ := lift (saveProgress writeFile_error) in
  lift (sleep 200).

(** One iteration of the loop of [processVaultDeployments]. *)
Definition process_vault (oracleData : LoadedOracleData) (currentBlock : Z)
    (deployment : VaultDeployment) : VM unit :=
  let+ progress := lift get_progress in
  let shouldRequeryRpc :=
    should_requery_rpc (processedVaults progress !! address deployment)
      currentBlock in
  vtry_catch
    (analyze_vault oracleData deployment currentBlock shouldRequeryRpc)
    (fun errorMsg =>
       lift (console_error ("  ✗ Error analyzing vault: " +:+ errorMsg))).

Definition processVaultDeployments (oracleData : LoadedOracleData)
    (allVaultDeployments : list VaultDeployment) (currentBlock : Z) : VM unit :=
  let+ _ := vfor_each (process_vault oracleData currentBlock)
              allVaultDeployments in
  let+ _ := lift (modify_progress (set_lastVaultFactoryBlock currentBlock)) in
  lift (saveProgress writeFile_error).

Definition fetchVaults (fuel : nat) (oracleData : LoadedOracleData) : VM unit :=
  let factory := vault_factory_contract chain in
  let+ currentBlock := lift (getBlockNumber provider) in
  let+ q := lift (evaluateVaultFactoryQuery EVAULT_FACTORY_START_BLOCK
                    currentBlock) in
  let+ allVaultDeployments := lift loadVaultDeployments in
  let+ allVaultDeployments :=
    (if shouldQueryFactory q then
       let+ newDeployments :=
         lift (queryVaultFactory fuel factory (fromBlock q) currentBlock) in
       let all := merge_deployments allVaultDeployments newDeployments in
       let+ _ := (if (0 <? length newDeployments)%nat
                  then saveVaultDeployments all else vret tt) in
       vret all
     else vret allVaultDeployments) in
  processVaultDeployments oracleData allVaultDeployments currentBlock.

End VaultSync.

(** ** Vocabulary of the properties *)

(** [w'] is [w] after some more effects, with the stored data untouched. *)
Definition only_emits (P : effect -> Prop) (w w' : World) : Prop :=
  progress w' = progress w
  /\ routerDeploymentsFile w' = routerDeploymentsFile w
  /\ vaultDeploymentsFile w' = vaultDeploymentsFile w
  /\ exists ext, trace w' = trace w ++ ext /\ Forall P ext.

(** The batch sizes a fetch started at [b] can reach: [b] itself and, while
    the current size exceeds 1000, the sizes reachable from its half. *)
Inductive halving (b : Z) : Z -> Prop :=
| halving_here : halving b b
| halving_retry s : 1000 < b -> halving (b / 2) s -> halving b s.

(** What a fetch on [contract] started with batch size [b] may add to the
    trace. *)
Definition fetch_effect {A} (contract : Contract A) (b : Z) (e : effect) : Prop :=
  match e with
  | QueryFilter t _ _ s => t = target contract /\ halving b s
  | Sleep ms => ms = 200
  | ConsoleError _ => True
  | _ => False
  end.

(** A result that is neither a thrown error nor an exit. *)
Definition returns_or_starves {A} (r : Result A) : Prop :=
  match r with
  | Ok _ | OutOfFuel => True
  | Throw _ | Exit _ => False
  end.

(** From some amount of fuel on, [run] returns normally, with one and the
    same result and world. *)
Definition settles {A} (run : nat -> M A) (w : World) : Prop :=
  exists fuel0 a w', forall fuel, (fuel0 <= fuel)%nat -> run fuel w = (Ok a, w').

(** The progress object after a router has been analysed successfully. *)
Definition progress_after_analysis (oracleData : LoadedOracleData)
    (routerAddress : string) (deploymentBlock currentBlock : Z)
    (isRecheck : bool) (configEvents : list (log ConfigSetArgs))
    (p : Progress) : Progress :=
  mark_router_processed routerAddress currentBlock
    (store_router routerAddress
       (merged_router_info oracleData deploymentBlock
          (if isRecheck then routers p !! routerAddress else None)
          configEvents) p).

(** Every key of [old] is a key of [new], with a list that starts with the
    old one. *)
Definition pairs_extend (old new : gmap string (list string)) : Prop :=
  forall key l, old !! key = Some l ->
    exists l', new !! key = Some l' /\ l `prefix_of` l'.

(** Between two progress objects: every router that was already processed
    and had a record is still processed and has a record that contains the
    old one. *)
Definition records_grow (p p' : Progress) : Prop :=
  forall r old,
    is_Some (processedRouters p !! r) -> routers p !! r = Some old ->
    is_Some (processedRouters p' !! r)
    /\ exists new,
         routers p' !! r = Some new
         /\ adapters old ⊆ adapters new
         /\ pairs_extend (assetPairs old) (assetPairs new)
         /\ configEventsCount old <= configEventsCount new.

(** Between two progress objects of a pass at [head]: every per-router
    checkpoint is kept or replaced by [head], the latter only when at least
    [R] blocks had gone by; and a checkpoint of the later object is [head] or
    was there before. *)
Definition checkpoints_advance (R head : Z) (p p' : Progress) : Prop :=
  (forall a v, processedRouters p !! a = Some v ->
     exists v', processedRouters p' !! a = Some v'
                /\ (v' = v \/ (v' = head /\ R <= head - v)))
  /\ (forall a v', processedRouters p' !! a = Some v' ->
        v' = head \/ processedRouters p !! a = Some v').

(** No router record counts a vault event: the router step fetches none and
    writes a count of 0 into every record. *)
Definition no_vault_events_counted (p : Progress) : Prop :=
  forall r info, routers p !! r = Some info -> vaultEventsCount info = 0.

(** The console line of the [catch] block of the router loop. *)
Definition analysis_error_line (errorMsg : string) : effect :=
  ConsoleError ("  ✗ Error analyzing router: " +:+ errorMsg).

(** What a missing start block prints before the process exits. *)
Definition start_block_missing_trace (factoryName envVarName : string)
  : list effect :=
  [ConsoleError (nl +:+ "✗ ERROR: " +:+ envVarName
                 +:+ " is not set in .env file");
   ConsoleError (nl +:+ "Please add to your .env file:");
   ConsoleError (envVarName +:+ "=<deployment_block>");
   ConsoleError (nl +:+ "Factory: " +:+ factoryName);
   ConsoleError "You can find deployment blocks on Etherscan.";
   ConsoleError (nl +:+ "Example:");
   ConsoleError "ROUTER_FACTORY_START_BLOCK=19400000";
   ConsoleError "EVAULT_FACTORY_START_BLOCK=19400000";
   ProcessExit 1].

(** [w] after the effects [ext]. *)
Definition add_trace (w : World) (ext : list effect) : World :=
  {| progress := progress w;
     routerDeploymentsFile := routerDeploymentsFile w;
     vaultDeploymentsFile := vaultDeploymentsFile w;
     trace := trace w ++ ext |}.

(** ** Concrete scenarios *)

Definition zero_entry_registry : LoadedOracleData :=
  {| eulerOracles :=
       [ {| provider := Some "Escrow";
            providerInfo := Some "Escrow";
            addressLink :=
              Some "https://etherscan.io/address/0x0000000000000000000000000000000000000000" |} ];
     crossAnalysis := {| details := None |};
     vaultDeployments := [] |}.

Definition cross_adapter : string := "0x1111111111111111111111111111111111111111".

Definition cross_entry : OracleData :=
  {| provider := Some "Cross";
     providerInfo := Some "Cross";
     addressLink :=
       Some "https://etherscan.io/address/0x1111111111111111111111111111111111111111" |}.

Definition cross_detail : CrossOracleDetail :=
  {| crossAddress := Some cross_adapter;
     baseCrossName := Some "ChainlinkOracle";
     crossQuoteName := Some "PythOracle";
     error := None |}.

Definition cross_registry : LoadedOracleData :=
  {| eulerOracles := [cross_entry];
     crossAnalysis := {| details := Some [cross_detail] |};
     vaultDeployments := [] |}.

(** The known vault, the registry entry or the composite-detail record is
    one of the adapter: it carries the adapter's address, up to letter case
    (a registry entry through the link it stores, and never the zero
    address). *)
Definition vault_at (adapterAddress : string) (v : VaultDeployment) : Prop :=
  toLowerCase (address v) = toLowerCase adapterAddress.

Definition registered_at (adapterAddress : string) (el : OracleData) : Prop :=
  exists fullAddress,
    fullAddress_of el = Some fullAddress
    /\ fullAddress <> zero_address
    /\ toLowerCase fullAddress = toLowerCase adapterAddress.

Definition detail_of (adapterAddress : string) (c : CrossOracleDetail) : Prop :=
  exists a,
    crossAddress c = Some a /\ toLowerCase a = toLowerCase adapterAddress.

(** [x] is the first element of [l] that satisfies [P]. *)
Definition first_such {X} (P : X -> Prop) (l : list X) (x : X) : Prop :=
  exists before after,
    l = before ++ x :: after /\ P x /\ Forall (fun y => ~ P y) before.

(** The composite-detail table is missing, or holds no record of the
    adapter. *)
Definition no_detail_of (adapterAddress : string) (ca : CrossOracleAnalysis)
  : Prop :=
  match details ca with
  | Some ds => Forall (fun c => ~ detail_of adapterAddress c) ds
  | None => True
  end.

(** The first record of the adapter in the composite-detail table. *)
Definition first_detail_of (adapterAddress : string)
    (ca : CrossOracleAnalysis) (c : CrossOracleDetail) : Prop :=
  exists ds, details ca = Some ds /\ first_such (detail_of adapterAddress) ds c.

(** A composite record of another adapter, with other legs. *)
Definition other_detail : CrossOracleDetail :=
  {| crossAddress := Some "0x2222222222222222222222222222222222222222";
     baseCrossName := Some "RedStoneOracle";
     crossQuoteName := Some "ChronicleOracle";
     error := None |}.

(** A registry whose composite-detail table lists the record of another
    adapter before the record of [cross_adapter]. *)
Definition two_record_registry : LoadedOracleData :=
  {| eulerOracles := [cross_entry];
     crossAnalysis := {| details := Some [other_detail; cross_detail] |};
     vaultDeployments := [] |}.

Definition empty_world : World :=
  {| progress := fresh_progress; routerDeploymentsFile := [];
     vaultDeploymentsFile := []; trace := [] |}.

(** A contract whose node rejects every query. *)
Definition unreachable_contract : Contract unit :=
  {| target := "0xdead"; has_filter := true;
     queryFilter_response := fun _ _ _ => inl "timeout" |}.

Definition recheck_interval_default : Z := 50000.

Definition quiet_provider : Provider :=
  {| getBlockNumber_response := fun _ => inr 60000;
     ConfigSet_filter := fun _ => true;
     ConfigSet_logs := fun _ _ _ _ => inr [];
     ContractDeployed_filter := true;
     ContractDeployed_logs := fun _ _ _ => inr [] |}.

Definition no_oracle_data : LoadedOracleData :=
  {| eulerOracles := []; crossAnalysis := {| details := None |};
     vaultDeployments := [] |}.

Definition router1 : RouterDeployment :=
  {| address := "0xR1"; deploymentBlock := 500 |}.

(** The record of [router1] after a first analysis that found one ConfigSet
    event, with an oracle the registry does not know. *)
Definition router1_info : RouterInfo :=
  {| ri_deploymentBlock := 500;
     adapters := ["0xA1"];
     assetPairs := {[ "0xT0-0xT1" := ["0xA1"] ]};
     vendorInfo :=
       {[ "0xA1" := {| vendor := "oracle not known"; underlying := [];
                       vendorType := error_type |} ]};
     configEventsCount := 1;
     vaultEventsCount := 0 |}.

Definition world_with_router1 : World :=
  {| progress :=
       {| routers := {[ "0xR1" := router1_info ]};
          vaults := ∅;
          processedRouters := {[ "0xR1" := 1000 ]};
          processedVaults := ∅;
          lastRouterFactoryBlock := Some 1000;
          lastVaultFactoryBlock := None |};
     routerDeploymentsFile := [router1];
     vaultDeploymentsFile := [];
     trace := [] |}.

(** The node of the first run, at head 1000: the factory has deployed
    [router1] at block 500, and the router has configured one oracle at
    block 600. *)
Definition first_run_provider : Provider :=
  {| getBlockNumber_response := fun _ => inr 1000;
     ConfigSet_filter := fun _ => true;
     ConfigSet_logs := fun _ _ f t =>
       inr (if (f <=? 600) && (600 <=? t)
            then [EventLog 600 {| asset0 := "0xT0"; asset1 := "0xT1";
                                  oracle := "0xA1" |}]
            else []);
     ContractDeployed_filter := true;
     ContractDeployed_logs := fun _ f t =>
       inr (if (f <=? 500) && (500 <=? t)
            then [EventLog 500 {| router := "0xR1"; deployer := "0xD";
                                  timestamp := 1700000000 |}]
            else []) |}.

(** A node on which the router has configured a second oracle at block
    2000. *)
Definition busy_provider : Provider :=
  {| getBlockNumber_response := fun _ => inr 60000;
     ConfigSet_filter := fun _ => true;
     ConfigSet_logs := fun _ _ f t =>
       inr (if (f <=? 2000) && (2000 <=? t)
            then [EventLog 2000 {| asset0 := "0xT0"; asset1 := "0xT2";
                                   oracle := "0xA2" |}]
            else []);
     ContractDeployed_filter := true;
     ContractDeployed_logs := fun _ _ _ => inr [] |}.

(** A node that rejects every event query. *)
Definition rejecting_provider : Provider :=
  {| getBlockNumber_response := fun _ => inr 60000;
     ConfigSet_filter := fun _ => true;
     ConfigSet_logs := fun _ _ _ _ => inl "timeout";
     ContractDeployed_filter := true;
     ContractDeployed_logs := fun _ _ _ => inl "timeout" |}.

(** A node at head 60000, then 60100, whose factory deployed a second router
    at block 59000. *)
Definition late_router_provider : Provider :=
  {| getBlockNumber_response := fun n =>
       inr (if (n =? 0)%nat then 60000 else 60100);
     ConfigSet_filter := fun _ => true;
     ConfigSet_logs := fun _ _ _ _ => inr [];
     ContractDeployed_filter := true;
     ContractDeployed_logs := fun _ f t =>
       inr (if (f <=? 59000) && (59000 <=? t)
            then [EventLog 59000 {| router := "0xR2"; deployer := "0xD";
                                    timestamp := 1700000000 |}]
            else []) |}.

(** An event query sent to the contract at [a]. *)
Definition is_query_to (a : string) (e : effect) : bool :=
  match e with
  | QueryFilter t _ _ _ => String.eqb t a
  | _ => false
  end.

Definition world_cached_no_checkpoint : World :=
  {| progress := fresh_progress;
     routerDeploymentsFile := [router1];
     vaultDeploymentsFile :=
       [ {| address := "0xV1"; deploymentBlock := 700 |} ];
     trace := [] |}.

(** ** Vocabulary of the further properties *)

Definition blockNumber {A} (e : log A) : Z :=
  match e with EventLog b _ => b | Log b => b end.

(** The windows of the event queries of a trace, in the order issued. *)
Definition query_windows (tr : list effect) : list (Z * Z) :=
  omap (fun e => match e with
                 | QueryFilter _ f t _ => Some (f, t)
                 | _ => None
                 end) tr.

Definition pauses (tr : list effect) : list Z :=
  omap (fun e => match e with
                 | Sleep ms => Some ms
                 | _ => None
                 end) tr.

(** An event query of a fetch over [cur .. to] at batch size [b]: a
    non-empty window inside the range, no wider than its own batch size,
    which is at most [b]. Everything else a fetch emits passes. *)
Definition query_in_range (cur to b : Z) (e : effect) : Prop :=
  match e with
  | QueryFilter _ f t s => cur <= f /\ f <= t /\ t <= to /\ t - f < s /\ s <= b
  | _ => True
  end.

(** What the analysis of the router [a] over the blocks [q .. head] may add
    to the trace: event queries to [a] for windows inside [q .. head],
    pauses, console lines and the write of the progress file; nothing
    else. *)
Definition router_fetch_effect (a : string) (q head : Z) (e : effect) : Prop :=
  match e with
  | QueryFilter t f t' _ => t = a /\ q <= f /\ f <= t' /\ t' <= head
  | Sleep _ | ConsoleError _ | SaveProgress _ => True
  | GetBlockNumber | SaveRouterDeployments _ | ProcessExit _ => False
  end.

(** Every block of [q .. head] lies in one of the windows. *)
Definition windows_cover (q head : Z) (windows : list (Z * Z)) : Prop :=
  forall k, q <= k <= head -> exists f t, (f, t) ∈ windows /\ f <= k <= t.

(** No answer of the node to a query on [c] carries a decoded event. *)
Definition no_decoded_event {A} (c : Contract A) : Prop :=
  forall n f t events,
    queryFilter_response c n f t = inr events ->
    List.filter is_EventLog events = [].

(** A node that answers a query with logs of the queried window only, in
    ascending block order. *)
Definition answers_in_order {A} (c : Contract A) : Prop :=
  forall n f t events,
    queryFilter_response c n f t = inr events ->
    Forall (fun e => f <= blockNumber e <= t) events
    /\ StronglySorted Z.le (blockNumber <$> events).

(** A node that answers every query. *)
Definition always_answers {A} (c : Contract A) : Prop :=
  forall n f t, exists events, queryFilter_response c n f t = inr events.

(** Decoded events of the blocks [cur .. to], in ascending block order. *)
Definition ordered_events {A} (cur to : Z) (events : list (log A)) : Prop :=
  Forall (fun e => is_EventLog e = true /\ cur <= blockNumber e <= to) events
  /\ StronglySorted Z.le (blockNumber <$> events).

(** The logs of the blocks [x], [x + 4000], ... ([k] of them) that fall into
    [f .. t]: a decoded event and an undecoded log at each. *)
Fixpoint sample_logs (k : nat) (x f t : Z) : list (log unit) :=
  match k with
  | O => []
  | S k' =>
      (if ((f <=? x) && (x <=? t))%bool then [EventLog x tt; Log x] else [])
      ++ sample_logs k' (x + 4000) f t
  end.

Definition sample_contract : Contract unit :=
  {| target := "0xfeed"; has_filter := true;
     queryFilter_response := fun _ f t => inr (sample_logs 10 0 f t) |}.

(** The number of queried windows that contain block [k]. *)
Definition times_queried (k : Z) (windows : list (Z * Z)) : nat :=
  length (List.filter (fun '(f, t) => (f <=? k) && (k <=? t))%bool windows).

(** A node that answers every query with nothing. *)
Definition silent_contract : Contract unit :=
  {| target := "0xbeef"; has_filter := true;
     queryFilter_response := fun _ _ _ => inr [] |}.

(** The names [normalizeVendorName] can return. *)
Definition canonical_vendor_names : list string :=
  ["no oracle (escrow)"; "Euler Vault"; "Chainlink"; "RedStone"; "Pyth";
   "Pendle"; "Chronicle"; "Midas"; "Resolv"; "Idle"; "MEV Capital"; "Cross";
   "Fixed Rate"; "Rate Provider"; "Lido Fundamental"; "Other"].

(** The oracle of a decoded event of the list. *)
Definition oracle_of_events (events : list (log ConfigSetArgs)) (a : string)
  : Prop :=
  exists b args, EventLog b args ∈ events /\ oracle args = a.

(** A router that a pass at [head] leaves alone: it was checked fewer than
    [R] blocks ago, or its contract exposes no ConfigSet filter. *)
Definition left_alone (P : Provider) (R head : Z) (p : Progress)
    (d : RouterDeployment) : Prop :=
  (exists v, processedRouters p !! address d = Some v /\ head - v < R)
  \/ ConfigSet_filter P (address d) = false.

Definition is_console_error (e : effect) : Prop :=
  match e with ConsoleError _ => True | _ => False end.

(** The lower-case addresses of a list of deployments. *)
Definition lower_addresses (ds : list Deployment) : list string :=
  (fun d => toLowerCase (address d)) <$> ds.

(** What the router step leaves untouched: the vault side of the progress
    object and the vault deployment file. *)
Definition same_vault_side (w w' : World) : Prop :=
  vaults (progress w') = vaults (progress w)
  /\ processedVaults (progress w') = processedVaults (progress w)
  /\ lastVaultFactoryBlock (progress w') = lastVaultFactoryBlock (progress w)
  /\ vaultDeploymentsFile w' = vaultDeploymentsFile w.

Definition mixed_case_deployments : list Deployment :=
  [ {| address := "0xAbC1"; deploymentBlock := 10 |};
    {| address := "0xdef2"; deploymentBlock := 20 |} ].

Definition incoming_deployments : list Deployment :=
  [ {| address := "0xABC1"; deploymentBlock := 10 |};
    {| address := "0x1234"; deploymentBlock := 30 |} ].

(** What an iteration of the router loop leaves untouched: the vault side
    and both deployment files. *)
Definition router_only (w w' : World) : Prop :=
  same_vault_side w w'
  /\ routerDeploymentsFile w' = routerDeploymentsFile w.

(** ** Vocabulary of the vault properties *)

(** No ["-"] occurs in [s], as in every address the chain client returns. *)
Fixpoint dash_free (s : string) : bool :=
  match s with
  | EmptyString => true
  | String c s' => negb (Ascii.eqb c "-") && dash_free s'
  end.

(** The router record [routerInfo] attributes the vendor name [v] to the asset:
    some asset pair that mentions the asset lists an adapter whose vendor
    record names [v]. *)
Definition contributes (routerInfo : RouterInfo) (assetAddress v : string)
  : Prop :=
  exists pairKey adapterList adapterAddress info,
    assetPairs routerInfo !! pairKey = Some adapterList
    /\ pair_mentions pairKey assetAddress = true
    /\ adapterAddress ∈ adapterList
    /\ vendorInfo routerInfo !! adapterAddress = Some info
    /\ v ∈ vendor_names info.

(** A router with a Chainlink adapter for WETH/USD and a composite adapter
    for DAI/USD. *)
Definition two_pair_router : RouterInfo :=
  {| ri_deploymentBlock := 500;
     adapters := ["0xA1"; "0xA2"];
     assetPairs :=
       <["0xWETH-0xUSD" := ["0xA1"]]> {["0xDAI-0xUSD" := ["0xA2"]]};
     vendorInfo :=
       <["0xA1" := {| vendor := "Chainlink"; underlying := [];
                      vendorType := external |}]>
         {["0xA2" := {| vendor := "Cross"; underlying := ["Pyth"; "RedStone"];
                        vendorType := external |}]};
     configEventsCount := 2;
     vaultEventsCount := 0 |}.

Definition progress_with_two_pair_router : Progress :=
  store_router "0xR1" two_pair_router fresh_progress.

(** The progress object once the loop body has written the record of the
    vault [d] with the addresses [routerAddress] and [assetAddress]. *)
Definition progress_after_vault
    (OE : gmap string (list string) -> list (string * list string))
    (od : LoadedOracleData) (d : VaultDeployment) (head : Z)
    (routerAddress assetAddress : string) (p : Progress) : Progress :=
  mark_vault_processed (address d) head
    (store_vault (address d)
       (vault_record OE p od d routerAddress assetAddress) p).

Definition vault_error_line (msg : string) : effect :=
  ConsoleError ("  ✗ Error analyzing vault: " +:+ msg).

(** The world after the record of a vault was written and saved: the pause
    follows a successful save, the error line a failed one. *)
Definition vault_written (wfe : nat -> option string)
    (OE : gmap string (list string) -> list (string * list string))
    (od : LoadedOracleData) (d : VaultDeployment) (head : Z)
    (routerAddress assetAddress : string) (vw : VaultWorld) : VaultWorld :=
  let p' := progress_after_vault OE od d head routerAddress assetAddress
              (progress (world vw)) in
  {| world :=
       log_effect
         (match wfe (length (trace (world vw))) with
          | Some msg => vault_error_line msg
          | None => Sleep 200
          end)
         (log_effect (SaveProgress p') (set_progress p' (world vw)));
     vault_trace := vault_trace vw |}.

(** The world after the analysis of a vault failed before anything was
    written. *)
Definition vault_failed (msg : string) (vw : VaultWorld) : VaultWorld :=
  {| world := log_effect (vault_error_line msg) (world vw);
     vault_trace := vault_trace vw |}.

(** What the vault step leaves untouched: the router side of the progress
    object and the router deployment file. *)
Definition same_router_side (w w' : World) : Prop :=
  routers (progress w') = routers (progress w)
  /\ processedRouters (progress w') = processedRouters (progress w)
  /\ lastRouterFactoryBlock (progress w') = lastRouterFactoryBlock (progress w)
  /\ routerDeploymentsFile w' = routerDeploymentsFile w.

Definition is_vault_call_of (ds : list VaultDeployment)
    (e : nat * vault_effect) : Prop :=
  exists d, d ∈ ds
            /\ (e.2 = CallOracle (address d) \/ e.2 = CallAsset (address d)).

Definition vault1 : VaultDeployment :=
  {| address := "0xV1"; deploymentBlock := 700 |}.

(** A vault analysed at block 1000 against [two_pair_router]. *)
Definition progress_with_vault1 : Progress :=
  mark_vault_processed "0xV1" 1000
    (store_vault "0xV1"
       {| vi_oracle := "0xR1"; vi_asset := "0xWETH";
          vi_vendors := ["Chainlink"]; vi_vendorType := "Chainlink";
          vi_deploymentBlock := 700 |}
       progress_with_two_pair_router).

Definition vault_world (p : Progress) : VaultWorld :=
  {| world := {| progress := p; routerDeploymentsFile := [];
                 vaultDeploymentsFile := []; trace := [] |};
     vault_trace := [] |}.

(** A node on which every vault answers with the router [0xR1] and the
    asset DAI. *)
Definition dai_chain : VaultChain :=
  {| ProxyCreated_filter := true;
     ProxyCreated_logs := fun _ _ _ => inr [];
     oracle_asset_response := fun _ _ => inr ("0xR1", "0xDAI") |}.

(** A node whose vault factory reports the creation of one vault. *)
Definition one_vault_chain : VaultChain :=
  {| ProxyCreated_filter := true;
     ProxyCreated_logs := fun _ _ _ =>
       inr [EventLog 59500
              {| proxy := "0xV1"; upgradeable := true;
                 implementation := "0xImpl"; trailingData := "0x" |}];
     oracle_asset_response := fun _ _ => inr ("0xR1", "0xDAI") |}.

(** The one ConfigSet event of a router that prices WETH in USD through the
    composite adapter. *)
Definition weth_configured : list (log ConfigSetArgs) :=
  [EventLog 7 {| asset0 := "0xWETH"; asset1 := "0xUSD";
                 oracle := cross_adapter |}].

(** The decoded events of [events] that concern the asset, up to letter
    case. *)
Definition configured_for (events : list (log ConfigSetArgs))
    (assetAddress : string) (args : ConfigSetArgs) : Prop :=
  (exists b, EventLog b args ∈ events)
  /\ (toLowerCase (asset0 args) = toLowerCase assetAddress
      \/ toLowerCase (asset1 args) = toLowerCase assetAddress).

(** * Properties *)

(** ** Vendor attribution *)

Example normalize_chainlink :
  normalizeVendorName (Some "Chainlink Price Feed") = "Chainlink".
Proof. reflexivity. Qed.

Example match_address_link :
  match_address "https://etherscan.io/address/0x10674C8C1aE2072d4a75FE83f1E159425fd84E1D"
  = Some "0x10674C8C1aE2072d4a75FE83f1E159425fd84E1D".
Proof. reflexivity. Qed.

(** A registry entry that [eulerOracles.find] accepts has an address, and
    that address is not the all-zero one. *)
Lemma is_matching_oracle_address adapterAddress el :
  is_matching_oracle adapterAddress el = true ->
  exists fullAddress,
    fullAddress_of el = Some fullAddress
    /\ String.eqb fullAddress zero_address = false
    /\ toLowerCase fullAddress = toLowerCase adapterAddress.
Proof.
  unfold is_matching_oracle. destruct (fullAddress_of el) as [fa|]; [| done].
  destruct (String.eqb fa zero_address) eqn:Hz; [done |].
  intros H. exists fa. split; [done |]. split; [done |].
  by apply String.eqb_eq.
Qed.

Lemma match_address_nonempty s a : match_address s = Some a -> a <> EmptyString.
Proof.
  induction s as [|c rest IH].
  - cbn [match_address]. unfold address_here. done.
  - cbn [match_address].
    destruct (address_here (String c rest)) as [a'|] eqn:Hhere; [| exact IH].
    intros [= ->]. unfold address_here in Hhere.
    destruct rest as [|d body]; [done |].
    destruct (Ascii.eqb c "0" && Ascii.eqb d "x")%bool; [| done].
    destruct (take_hex 40 body); [| done].
    by injection Hhere as <-.
Qed.

(** Resolution step 1: an address of the known-vault set is a vault, whatever
    the registry and the composite table hold. *)
Lemma known_vault_resolves_to_vault adapterAddress oracleData v :
  v ∈ vaultDeployments oracleData ->
  toLowerCase (address v) = toLowerCase adapterAddress ->
  getVendorForOracle adapterAddress oracleData
  = {| vendor := "Euler Vault"; underlying := []; vendorType := vault |}.
Proof.
  intros Hin Heq. unfold getVendorForOracle.
  destruct (List.find (is_matching_vault adapterAddress)
              (vaultDeployments oracleData)) eqn:Hfind; [done |].
  exfalso. apply list_elem_of_In in Hin.
  pose proof (find_none _ _ Hfind v Hin) as Hno.
  unfold is_matching_vault in Hno. apply String.eqb_neq in Hno. done.
Qed.

(** Resolution step 2 failing: an address that is no known vault and that no
    registry entry carries is unresolved. *)
Lemma absent_from_registry_unresolved adapterAddress oracleData :
  (forall v, v ∈ vaultDeployments oracleData ->
             toLowerCase (address v) <> toLowerCase adapterAddress) ->
  (forall el fullAddress,
      el ∈ eulerOracles oracleData ->
      fullAddress_of el = Some fullAddress ->
      toLowerCase fullAddress <> toLowerCase adapterAddress) ->
  getVendorForOracle adapterAddress oracleData
  = {| vendor := "oracle not known"; underlying := [];
       vendorType := error_type |}.
Proof.
  intros Hvault Hreg. unfold getVendorForOracle.
  destruct (List.find (is_matching_vault adapterAddress)
              (vaultDeployments oracleData)) as [v|] eqn:Hv.
  { apply find_some in Hv as [Hin Hm]. apply list_elem_of_In in Hin.
    unfold is_matching_vault in Hm. apply String.eqb_eq in Hm.
    by destruct (Hvault v Hin). }
  destruct (List.find (is_matching_oracle adapterAddress)
              (eulerOracles oracleData)) as [el|] eqn:Hel; [| done].
  apply find_some in Hel as [Hin Hm]. apply list_elem_of_In in Hin.
  apply is_matching_oracle_address in Hm as (fa & Hfa & _ & Heq).
  by destruct (Hreg el fa Hin Hfa).
Qed.

(** C7. Vendor resolution sends a known-vault address to Vault and an
    address absent from the registry to Unresolved (the two lemmas above),
    but the zero-address rule never fires: the registry lookup refuses every
    entry whose address is all-zero, so the adapter whose registry entry
    carries the zero address comes out as "oracle not known", and no input
    at all is classified as escrow. *)
Theorem zero_address_entry_never_escrow :
  getVendorForOracle zero_address zero_entry_registry
  = {| vendor := "oracle not known"; underlying := [];
       vendorType := error_type |}
  /\ forall adapterAddress oracleData,
       vendorType (getVendorForOracle adapterAddress oracleData)
       <> no_oracle_escrow.
Proof.
  split; [reflexivity |].
  intros adapterAddress oracleData. unfold getVendorForOracle.
  destruct (List.find (is_matching_vault adapterAddress)
              (vaultDeployments oracleData)); [done |].
  destruct (List.find (is_matching_oracle adapterAddress)
              (eulerOracles oracleData)) as [el|] eqn:Hel; [| done].
  apply find_some in Hel as [_ Hm].
  apply is_matching_oracle_address in Hm as (fa & -> & -> & _).
  destruct (String.eqb fa EmptyString); [done |].
  destruct (String.eqb (normalizeVendorName (providerInfo el)) "Cross"); [| done].
  destruct (find_cross adapterAddress (crossAnalysis oracleData)) as [c|]; [| done].
  by destruct (negb (truthy (error c))).
Qed.

Lemma find_first_such {X} (f : X -> bool) (P : X -> Prop) l x :
  (forall y, f y = true <-> P y) ->
  first_such P l x -> List.find f l = Some x.
Proof.
  intros Hf (before & after & -> & Hx & Hbefore).
  induction Hbefore as [|y before Hy _ IH]; simpl.
  - by rewrite (proj2 (Hf x) Hx).
  - destruct (f y) eqn:Hfy; [| exact IH]. by apply Hf in Hfy.
Qed.

Lemma find_no_such {X} (f : X -> bool) (P : X -> Prop) l :
  (forall y, f y = true <-> P y) ->
  Forall (fun y => ~ P y) l -> List.find f l = None.
Proof.
  intros Hf Hall. induction Hall as [|y l Hy _ IH]; simpl; [done |].
  destruct (f y) eqn:Hfy; [| exact IH]. by apply Hf in Hfy.
Qed.

Lemma is_matching_vault_spec adapterAddress v :
  is_matching_vault adapterAddress v = true <-> vault_at adapterAddress v.
Proof. unfold is_matching_vault, vault_at. apply String.eqb_eq. Qed.

Lemma is_matching_oracle_spec adapterAddress el :
  is_matching_oracle adapterAddress el = true <-> registered_at adapterAddress el.
Proof.
  unfold is_matching_oracle, registered_at.
  destruct (fullAddress_of el) as [fa|]; cycle 1.
  { split; [done | by intros (? & ? & _)]. }
  destruct (String.eqb_spec fa zero_address) as [-> | Hne].
  - split; [done | by intros (? & [= <-] & ? & _)].
  - rewrite String.eqb_eq. split.
    + intros Hlow. by exists fa.
    + by intros (? & [= <-] & _ & ?).
Qed.

Lemma is_matching_cross_spec adapterAddress c :
  is_matching_cross adapterAddress c = true <-> detail_of adapterAddress c.
Proof.
  unfold is_matching_cross, detail_of. destruct (crossAddress c) as [a|].
  - rewrite String.eqb_eq. split.
    + intros Hlow. by exists a.
    + by intros (? & [= <-] & ?).
  - split; [done | by intros (? & ? & _)].
Qed.

(** C8. Take an adapter that is no known vault and whose registry entry (the
    first one that carries its address) has a label that normalises to
    "Cross". Attribution then consults the composite-detail table for the
    record of this adapter, the first one that carries its address: when that
    record has no error, the underlying vendors are its two leg names, each
    normalised on its own; when the table is missing or holds no record of
    the adapter, or that record carries an error, the result is the bare
    composite with no underlying vendor. *)
Theorem composite_split adapterAddress oracleData registryEntry :
  Forall (fun v => ~ vault_at adapterAddress v) (vaultDeployments oracleData) ->
  first_such (registered_at adapterAddress) (eulerOracles oracleData)
    registryEntry ->
  normalizeVendorName (providerInfo registryEntry) = "Cross" ->
  (forall crossOracle,
      first_detail_of adapterAddress (crossAnalysis oracleData) crossOracle ->
      truthy (error crossOracle) = false ->
      getVendorForOracle adapterAddress oracleData
      = {| vendor := "Cross";
           underlying := [normalizeVendorName (baseCrossName crossOracle);
                          normalizeVendorName (crossQuoteName crossOracle)];
           vendorType := external |})
  /\ (no_detail_of adapterAddress (crossAnalysis oracleData)
      \/ (exists crossOracle,
            first_detail_of adapterAddress (crossAnalysis oracleData)
              crossOracle
            /\ truthy (error crossOracle) = true) ->
      getVendorForOracle adapterAddress oracleData
      = {| vendor := "Cross"; underlying := []; vendorType := external |}).
Proof.
  intros Hvault Hreg Hcross.
  apply (find_no_such _ _ _ (is_matching_vault_spec adapterAddress)) in Hvault.
  apply (find_first_such _ _ _ _ (is_matching_oracle_spec adapterAddress))
    in Hreg.
  assert (Hfound : forall c,
            first_detail_of adapterAddress (crossAnalysis oracleData) c ->
            find_cross adapterAddress (crossAnalysis oracleData) = Some c).
  { intros c (ds & Hds & Hfirst). unfold find_cross. rewrite Hds.
    by apply (find_first_such _ _ _ _ (is_matching_cross_spec adapterAddress)). }
  assert (Hmissing : no_detail_of adapterAddress (crossAnalysis oracleData) ->
            find_cross adapterAddress (crossAnalysis oracleData) = None).
  { unfold no_detail_of, find_cross.
    destruct (details (crossAnalysis oracleData)) as [ds|]; [| done].
    apply (find_no_such _ _ _ (is_matching_cross_spec adapterAddress)). }
  unfold getVendorForOracle. rewrite Hvault, Hreg.
  pose proof Hreg as Hm. apply find_some in Hm as [_ Hm].
  apply is_matching_oracle_address in Hm as (fa & Hfa & Hz & _).
  rewrite Hfa, Hz.
  assert (String.eqb fa EmptyString = false) as ->.
  { apply String.eqb_neq. unfold fullAddress_of in Hfa.
    destruct (addressLink registryEntry) as [link|]; [| done].
    by apply (match_address_nonempty link). }
  rewrite Hcross. simpl. split.
  - intros c Hc He. by rewrite (Hfound c Hc), He.
  - intros [Hno | (c & Hc & He)].
    + by rewrite (Hmissing Hno).
    + by rewrite (Hfound c Hc), He.
Qed.

Lemma composite_split_witness :
  getVendorForOracle cross_adapter two_record_registry
  = {| vendor := "Cross"; underlying := ["Chainlink"; "Pyth"];
       vendorType := external |}.
Proof.
  assert (Hentry : registered_at cross_adapter cross_entry).
  { exists cross_adapter. split; [reflexivity |]. split; [done | reflexivity]. }
  assert (Hdetail : detail_of cross_adapter cross_detail).
  { exists cross_adapter. split; reflexivity. }
  assert (Hother : ~ detail_of cross_adapter other_detail).
  { intros (a & [= <-] & Hlow). discriminate Hlow. }
  apply (proj1 (composite_split cross_adapter two_record_registry cross_entry
                  (Forall_nil_2 _)
                  (ex_intro _ [] (ex_intro _ []
                     (conj eq_refl (conj Hentry (Forall_nil_2 _)))))
                  eq_refl)
           cross_detail).
  - exists [other_detail; cross_detail]. split; [reflexivity |].
    exists [other_detail], []. split; [reflexivity |]. split; [exact Hdetail |].
    by constructor.
  - reflexivity.
Defined.

(** ** Reasoning about traces *)

Lemma only_emits_refl P w : only_emits P w w.
Proof.
  repeat split; exists []; split; [by rewrite app_nil_r | constructor].
Qed.

Lemma only_emits_trans P w1 w2 w3 :
  only_emits P w1 w2 -> only_emits P w2 w3 -> only_emits P w1 w3.
Proof.
  intros (Hp & Hr & Hv & e1 & Ht1 & Hf1) (Hp' & Hr' & Hv' & e2 & Ht2 & Hf2).
  repeat split; try congruence.
  exists (e1 ++ e2). split.
  - by rewrite Ht2, Ht1, app_assoc.
  - by apply Forall_app.
Qed.

Lemma only_emits_log (P : effect -> Prop) e w :
  P e -> only_emits P w (log_effect e w).
Proof.
  intros He. repeat split. exists [e]. split; [done | by repeat constructor].
Qed.

Lemma only_emits_weaken (P Q : effect -> Prop) w w' :
  (forall e, P e -> Q e) -> only_emits P w w' -> only_emits Q w w'.
Proof.
  intros HPQ (Hp & Hr & Hv & e & Ht & Hf).
  repeat split; try done. exists e. split; [done |].
  eapply Forall_impl; eauto.
Qed.

Lemma halving_default s :
  halving default_batchSize s -> s ∈ [10000; 5000; 2500; 1250; 625].
Proof.
  unfold default_batchSize. intros H.
  repeat (inversion H as [|? ? H']; subst; clear H;
          [set_solver | change (10000 / 2) with 5000 in *;
                        change (5000 / 2) with 2500 in *;
                        change (2500 / 2) with 1250 in *;
                        change (1250 / 2) with 625 in *;
                        try lia; rename H' into H]).
Qed.

Lemma fetch_effect_half {A} (c : Contract A) b e :
  1000 < b -> fetch_effect c (b / 2) e -> fetch_effect c b e.
Proof.
  destruct e; simpl; try done. intros Hb [-> Hh]. split; [done |].
  by apply halving_retry.
Qed.

Lemma queryEventsInBatches_trace {A} fuel (c : Contract A) :
  forall cur to b w,
    let '(r, w') := queryEventsInBatches fuel c cur to b w in
    returns_or_starves r /\ only_emits (fetch_effect c b) w w'.
Proof.
  induction fuel as [|fuel IH]; intros cur to b w; simpl.
  - destruct (cur <=? to); simpl; split; try done; apply only_emits_refl.
  - destruct (cur <=? to); [| split; [done | apply only_emits_refl]].
    set (endBlock := Z.min (cur + b - 1) to).
    unfold bind at 1. unfold try_catch, bind at 1. unfold queryFilter.
    set (w1 := log_effect (QueryFilter (target c) cur endBlock b) w).
    assert (H1 : only_emits (fetch_effect c b) w w1).
    { apply only_emits_log. split; [done | constructor]. }
    destruct (queryFilter_response c (length (trace w)) cur endBlock) as [msg|events].
    + (* the batch query failed *)
      unfold bind at 1, console_error.
      match goal with |- context [log_effect (ConsoleError ?m) w1] =>
        set (w2 := log_effect (ConsoleError m) w1) end.
      assert (H2 : only_emits (fetch_effect c b) w w2).
      { eapply only_emits_trans; [exact H1 |]. by apply only_emits_log. }
      assert (Hretry : let '(r, w') :=
                (if b >? 1000
                 then queryEventsInBatches fuel c cur endBlock (b / 2)
                 else ret []) w2 in
              returns_or_starves r /\ only_emits (fetch_effect c b) w w').
      { destruct (b >? 1000) eqn:Hb.
        - specialize (IH cur endBlock (b / 2) w2).
          destruct (queryEventsInBatches fuel c cur endBlock (b / 2) w2) as [r w3].
          destruct IH as [Hr He]. split; [done |].
          eapply only_emits_trans; [exact H2 |].
          eapply only_emits_weaken; [| exact He].
          intros e. apply fetch_effect_half. lia.
        - simpl. split; done. }
      destruct ((if b >? 1000
                 then queryEventsInBatches fuel c cur endBlock (b / 2)
                 else ret []) w2) as [[smaller| | |] w3];
        destruct Hretry as [Hr H3]; try done.
      unfold bind at 1, sleep.
      set (w4 := log_effect (Sleep 200) w3).
      assert (H4 : only_emits (fetch_effect c b) w w4).
      { eapply only_emits_trans; [exact H3 |]. by apply only_emits_log. }
      unfold bind. specialize (IH (endBlock + 1) to b w4).
      destruct (queryEventsInBatches fuel c (endBlock + 1) to b w4) as [[rest| | |] w5];
        destruct IH as [Hr' H5]; try done; simpl;
        (split; [done | eapply only_emits_trans; eauto]).
    + (* the batch query succeeded *)
      unfold ret at 1. unfold bind at 1, sleep.
      set (w2 := log_effect (Sleep 200) w1).
      assert (H2 : only_emits (fetch_effect c b) w w2).
      { eapply only_emits_trans; [exact H1 |]. by apply only_emits_log. }
      unfold bind. specialize (IH (endBlock + 1) to b w2).
      destruct (queryEventsInBatches fuel c (endBlock + 1) to b w2) as [[rest| | |] w3];
        destruct IH as [Hr' H3]; try done; simpl;
        (split; [done | eapply only_emits_trans; eauto]).
Qed.

Lemma queryEventsInBatches_past_end {A} fuel (c : Contract A) cur to b w :
  to < cur -> queryEventsInBatches fuel c cur to b w = (Ok [], w).
Proof.
  intros H. destruct fuel; simpl;
    by replace (cur <=? to) with false by (symmetry; apply Z.leb_gt; lia).
Qed.

Lemma queryEventsInBatches_settles_at {A} (c : Contract A) :
  forall (n : nat) b, 1 <= b -> (Z.to_nat b <= n)%nat ->
  forall (m : nat) cur to w, (Z.to_nat (to - cur + 1) <= m)%nat ->
    settles (fun fuel => queryEventsInBatches fuel c cur to b) w.
Proof.
  induction n as [|n IHn]; intros b Hb Hn; [lia |].
  induction m as [|m IHm]; intros cur to w Hm.
  - exists O, [], w. intros fuel _. apply queryEventsInBatches_past_end. lia.
  - destruct (Z.leb_spec cur to) as [Hle|Hgt]; cycle 1.
    { exists O, [], w. intros fuel _. by apply queryEventsInBatches_past_end. }
    set (endBlock := Z.min (cur + b - 1) to).
    assert (Hend : cur <= endBlock <= to) by (unfold endBlock; lia).
    set (w1 := log_effect (QueryFilter (target c) cur endBlock b) w).
    destruct (queryFilter_response c (length (trace w)) cur endBlock)
      as [msg|events] eqn:Hresp.
    + set (w2 := log_effect
                   (ConsoleError ("  Error querying blocks " +:+ show_Z cur
                                  +:+ "-" +:+ show_Z endBlock +:+ ": " +:+ msg)) w1).
      assert (Hretry : settles (fun fuel =>
                if b >? 1000
                then queryEventsInBatches fuel c cur endBlock (b / 2)
                else ret []) w2).
      { destruct (b >? 1000) eqn:Hbig.
        - apply Z.gtb_lt in Hbig.
          assert (1 <= b / 2) by (apply Z.div_le_lower_bound; lia).
          assert (b / 2 < b) by (apply Z.div_lt; lia).
          apply (IHn (b / 2)) with (m := Z.to_nat (endBlock - cur + 1)); lia.
        - exists O, [], w2. done. }
      destruct Hretry as (f1 & smaller & w3 & Hf1).
      set (w4 := log_effect (Sleep 200) w3).
      destruct (IHm (endBlock + 1) to w4) as (f2 & rest & w5 & Hf2); [lia |].
      exists (S (Nat.max f1 f2)), (smaller ++ rest), w5.
      intros [|fuel] Hfuel; [lia |]. simpl.
      replace (cur <=? to) with true by (symmetry; apply Z.leb_le; lia).
      fold endBlock. unfold bind at 1. unfold try_catch, bind at 1, queryFilter.
      rewrite Hresp. unfold bind at 1, console_error. fold w1. fold w2.
      rewrite Hf1 by lia. unfold bind at 1, sleep. fold w4.
      unfold bind. by rewrite Hf2 by lia.
    + set (w2 := log_effect (Sleep 200) w1).
      destruct (IHm (endBlock + 1) to w2) as (f2 & rest & w3 & Hf2); [lia |].
      exists (S f2), (List.filter is_EventLog events ++ rest), w3.
      intros [|fuel] Hfuel; [lia |]. simpl.
      replace (cur <=? to) with true by (symmetry; apply Z.leb_le; lia).
      fold endBlock. unfold bind at 1. unfold try_catch, bind at 1, queryFilter.
      rewrite Hresp. unfold ret at 1. unfold bind at 1, sleep. fold w1. fold w2.
      unfold bind. by rewrite Hf2 by lia.
Qed.

Lemma queryEventsInBatches_settles {A} (c : Contract A) cur to b w :
  1 <= b -> settles (fun fuel => queryEventsInBatches fuel c cur to b) w.
Proof.
  intros Hb.
  by apply (queryEventsInBatches_settles_at c (Z.to_nat b) b Hb (le_n _)
              (Z.to_nat (to - cur + 1))).
Qed.

Lemma fetch_effect_batch_sizes {A} (c : Contract A) ext :
  Forall (fetch_effect c default_batchSize) ext ->
  Forall (fun s => s ∈ [10000; 5000; 2500; 1250; 625]) (batch_sizes ext).
Proof.
  induction 1 as [|e ext He _ IH]; [constructor |].
  unfold batch_sizes. destruct e; simpl; try exact IH.
  constructor; [| exact IH]. destruct He as [_ Hh]. by apply halving_default.
Qed.

Lemma query_windows_app tr1 tr2 :
  query_windows (tr1 ++ tr2) = query_windows tr1 ++ query_windows tr2.
Proof. unfold query_windows. apply omap_app. Qed.

Lemma query_in_range_widen cur to b cur' to' b' e :
  cur' <= cur -> to <= to' -> b <= b' ->
  query_in_range cur to b e -> query_in_range cur' to' b' e.
Proof. destruct e; simpl; try done. lia. Qed.

Lemma queryEventsInBatches_windows {A} fuel (c : Contract A) :
  forall cur to b w, 1 <= b ->
    only_emits (query_in_range cur to b) w
      (queryEventsInBatches fuel c cur to b w).2.
Proof.
  induction fuel as [|fuel IH]; intros cur to b w Hb; simpl.
  - destruct (cur <=? to); apply only_emits_refl.
  - destruct (Z.leb_spec cur to) as [Hle|Hgt]; [| apply only_emits_refl].
    set (endBlock := Z.min (cur + b - 1) to).
    assert (Hend : cur <= endBlock <= to) by (unfold endBlock; lia).
    unfold bind at 1. unfold try_catch, bind at 1. unfold queryFilter.
    set (w1 := log_effect (QueryFilter (target c) cur endBlock b) w).
    assert (H1 : only_emits (query_in_range cur to b) w w1).
    { apply only_emits_log. simpl. unfold endBlock. lia. }
    destruct (queryFilter_response c (length (trace w)) cur endBlock)
      as [msg|events].
    + unfold bind at 1, console_error.
      match goal with |- context [log_effect (ConsoleError ?m) w1] =>
        set (w2 := log_effect (ConsoleError m) w1) end.
      assert (H2 : only_emits (query_in_range cur to b) w w2).
      { eapply only_emits_trans; [exact H1 |]. by apply only_emits_log. }
      assert (Hretry : only_emits (query_in_range cur to b) w
                ((if b >? 1000
                  then queryEventsInBatches fuel c cur endBlock (b / 2)
                  else ret []) w2).2).
      { destruct (b >? 1000) eqn:Hbig; [| exact H2].
        apply Z.gtb_lt in Hbig.
        assert (1 <= b / 2) by (apply Z.div_le_lower_bound; lia).
        assert (b / 2 <= b) by (apply Z.lt_le_incl, Z.div_lt; lia).
        eapply only_emits_trans; [exact H2 |].
        eapply only_emits_weaken; [| by apply IH].
        intros e. apply query_in_range_widen; lia. }
      destruct ((if b >? 1000
                 then queryEventsInBatches fuel c cur endBlock (b / 2)
                 else ret []) w2) as [[smaller| | |] w3]; try exact Hretry.
      unfold bind at 1, sleep.
      set (w4 := log_effect (Sleep 200) w3).
      assert (H4 : only_emits (query_in_range cur to b) w w4).
      { eapply only_emits_trans; [exact Hretry |]. by apply only_emits_log. }
      unfold bind. specialize (IH (endBlock + 1) to b w4 Hb).
      assert (H5 : only_emits (query_in_range cur to b) w
                (queryEventsInBatches fuel c (endBlock + 1) to b w4).2).
      { eapply only_emits_trans; [exact H4 |].
        eapply only_emits_weaken; [| exact IH].
        intros e. apply query_in_range_widen; lia. }
      by destruct (queryEventsInBatches fuel c (endBlock + 1) to b w4)
        as [[rest| | |] w5].
    + unfold ret at 1. unfold bind at 1, sleep.
      set (w2 := log_effect (Sleep 200) w1).
      assert (H2 : only_emits (query_in_range cur to b) w w2).
      { eapply only_emits_trans; [exact H1 |]. by apply only_emits_log. }
      unfold bind. specialize (IH (endBlock + 1) to b w2 Hb).
      assert (H3 : only_emits (query_in_range cur to b) w
                (queryEventsInBatches fuel c (endBlock + 1) to b w2).2).
      { eapply only_emits_trans; [exact H2 |].
        eapply only_emits_weaken; [| exact IH].
        intros e. apply query_in_range_widen; lia. }
      by destruct (queryEventsInBatches fuel c (endBlock + 1) to b w2)
        as [[rest| | |] w3].
Qed.

Lemma query_windows_in_range cur to b ext :
  Forall (query_in_range cur to b) ext ->
  Forall (fun '(f, t) => cur <= f /\ f <= t /\ t <= to /\ t - f < b)
    (query_windows ext).
Proof.
  induction 1 as [|e ext He _ IH]; [constructor |].
  unfold query_windows. destruct e; simpl; try exact IH.
  constructor; [simpl in He; lia | exact IH].
Qed.

Lemma windows_cover_nil cur to : to < cur -> windows_cover cur to [].
Proof. intros Hlt k Hk. lia. Qed.

(** Every block of a fetched range has been asked for: the first window of
    each round of the loop is sent whether it is answered or not. *)
Lemma queryEventsInBatches_covers {A} fuel (c : Contract A) :
  forall cur to b w evs w',
    1 <= b ->
    queryEventsInBatches fuel c cur to b w = (Ok evs, w') ->
    exists ext,
      trace w' = trace w ++ ext
      /\ windows_cover cur to (query_windows ext)
      /\ (cur <= to ->
          exists rest,
            ext = QueryFilter (target c) cur (Z.min (cur + b - 1) to) b :: rest).
Proof.
  induction fuel as [|fuel IH]; intros cur to b w evs w' Hb; simpl.
  - destruct (Z.leb_spec cur to) as [Hle|Hgt]; [done |].
    intros [= <- <-]. exists []. rewrite app_nil_r.
    split; [done |]. split; [by apply windows_cover_nil | lia].
  - destruct (Z.leb_spec cur to) as [Hle|Hgt]; cycle 1.
    { intros [= <- <-]. exists []. rewrite app_nil_r.
      split; [done |]. split; [by apply windows_cover_nil | lia]. }
    set (endBlock := Z.min (cur + b - 1) to).
    assert (Hend : cur <= endBlock <= to) by (unfold endBlock; lia).
    unfold bind at 1. unfold try_catch, bind at 1. unfold queryFilter.
    set (w1 := log_effect (QueryFilter (target c) cur endBlock b) w).
    assert (Hcover : forall mid e5,
              windows_cover (endBlock + 1) to (query_windows e5) ->
              windows_cover cur to
                (query_windows
                   (QueryFilter (target c) cur endBlock b :: mid ++ e5))).
    { intros mid e5 Hcov5 k Hk.
      destruct (Z.le_gt_cases k endBlock) as [Hin|Hout].
      - exists cur, endBlock. split; [by left | lia].
      - destruct (Hcov5 k) as (f & t & Hft & Hk'); [lia |].
        exists f, t. split; [| done].
        right. rewrite query_windows_app. apply elem_of_app. by right. }
    destruct (queryFilter_response c (length (trace w)) cur endBlock)
      as [msg|events].
    + unfold bind at 1, console_error.
      match goal with |- context [log_effect (ConsoleError ?m) w1] =>
        set (line := ConsoleError m); set (w2 := log_effect line w1) end.
      destruct ((if b >? 1000
                 then queryEventsInBatches fuel c cur endBlock (b / 2)
                 else ret []) w2) as [[smaller| | |] w3] eqn:Hretry; try done.
      assert (Hext3 : exists e3, trace w3 = trace w2 ++ e3).
      { destruct (b >? 1000) eqn:Hbig.
        - apply Z.gtb_lt in Hbig.
          apply IH in Hretry as (e3 & H3 & _); [by exists e3 |].
          apply Z.div_le_lower_bound; lia.
        - injection Hretry as _ <-. exists []. by rewrite app_nil_r. }
      destruct Hext3 as [e3 H3].
      unfold bind at 1, sleep. set (w4 := log_effect (Sleep 200) w3).
      unfold bind.
      destruct (queryEventsInBatches fuel c (endBlock + 1) to b w4)
        as [[rest| | |] w5] eqn:Hrest; try done.
      intros [= <- <-].
      apply IH in Hrest as (e5 & H5 & Hcov5 & _); [| done].
      exists (QueryFilter (target c) cur endBlock b
              :: (line :: e3 ++ [Sleep 200]) ++ e5).
      split.
      { rewrite H5. simpl. rewrite H3. simpl. by rewrite <- !app_assoc. }
      split; [by apply Hcover |]. intros _. by eexists.
    + unfold ret at 1. unfold bind at 1, sleep.
      set (w2 := log_effect (Sleep 200) w1).
      unfold bind.
      destruct (queryEventsInBatches fuel c (endBlock + 1) to b w2)
        as [[rest| | |] w3] eqn:Hrest; try done.
      intros [= <- <-].
      apply IH in Hrest as (e3 & H3 & Hcov3 & _); [| done].
      exists (QueryFilter (target c) cur endBlock b :: [Sleep 200] ++ e3).
      split.
      { rewrite H3. simpl. by rewrite <- !app_assoc. }
      split; [by apply Hcover |]. intros _. by eexists.
Qed.

(** When no answer of the node carries a decoded event (it rejects the
    queries, or there is nothing to report), a fetch returns no event. *)
Lemma queryEventsInBatches_no_event {A} fuel (c : Contract A) :
  no_decoded_event c ->
  forall cur to b w evs w',
    queryEventsInBatches fuel c cur to b w = (Ok evs, w') -> evs = [].
Proof.
  intros Hnone.
  induction fuel as [|fuel IH]; intros cur to b w evs w'; simpl.
  - destruct (cur <=? to); [done | by intros [= <- <-]].
  - destruct (cur <=? to); [| by intros [= <- <-]].
    set (endBlock := Z.min (cur + b - 1) to).
    unfold bind at 1. unfold try_catch, bind at 1. unfold queryFilter.
    set (w1 := log_effect (QueryFilter (target c) cur endBlock b) w).
    destruct (queryFilter_response c (length (trace w)) cur endBlock)
      as [msg|events] eqn:Hanswer.
    + unfold bind at 1, console_error.
      match goal with |- context [log_effect (ConsoleError ?m) w1] =>
        set (w2 := log_effect (ConsoleError m) w1) end.
      destruct ((if b >? 1000
                 then queryEventsInBatches fuel c cur endBlock (b / 2)
                 else ret []) w2) as [[smaller| | |] w3] eqn:Hretry; try done.
      assert (smaller = []) as ->.
      { destruct (b >? 1000); [by apply IH in Hretry |].
        by injection Hretry as <- _. }
      unfold bind at 1, sleep. unfold bind.
      destruct (queryEventsInBatches fuel c (endBlock + 1) to b
                  (log_effect (Sleep 200) w3))
        as [[rest| | |] w5] eqn:Hrest; try done.
      intros [= <- <-]. by apply IH in Hrest as ->.
    + unfold ret at 1. unfold bind at 1, sleep. unfold bind.
      destruct (queryEventsInBatches fuel c (endBlock + 1) to b
                  (log_effect (Sleep 200) w1))
        as [[rest| | |] w3] eqn:Hrest; try done.
      intros [= <- <-]. apply IH in Hrest as ->.
      by rewrite (Hnone _ _ _ _ Hanswer).
Qed.

(** ** The batch event fetcher *)

(** What the fetcher does with a batch whose query fails: the error is
    logged, the same sub-range is fetched at half the size when the size
    exceeds 1000 and is given up otherwise, and the loop goes on behind the
    batch. *)
Lemma failed_batch_step {A} fuel (c : Contract A) cur to b w msg :
  cur <= to ->
  queryFilter_response c (length (trace w)) cur (Z.min (cur + b - 1) to)
    = inl msg ->
  queryEventsInBatches (S fuel) c cur to b w
  = (let endBlock := Z.min (cur + b - 1) to in
     let* smaller :=
       (if b >? 1000
        then queryEventsInBatches fuel c cur endBlock (b / 2)
        else ret []) in
     let* _ := sleep 200 in
     let* rest := queryEventsInBatches fuel c (endBlock + 1) to b in
     ret (smaller ++ rest))
      (log_effect
         (ConsoleError ("  Error querying blocks " +:+ show_Z cur +:+ "-"
                        +:+ show_Z (Z.min (cur + b - 1) to) +:+ ": " +:+ msg))
         (log_effect (QueryFilter (target c) cur (Z.min (cur + b - 1) to) b) w)).
Proof.
  intros Hle Hresp. simpl.
  replace (cur <=? to) with true by (symmetry; apply Z.leb_le; lia).
  unfold bind at 1. unfold try_catch, bind at 1, queryFilter. rewrite Hresp.
  unfold bind at 1, console_error. reflexivity.
Qed.

(** C4, as stated, fails: with every query failing on blocks 1 to 10000 the
    sizes attempted run 10000, 5000, 2500, 1250 and then 625, which is below
    1000. *)
Lemma batch_size_goes_below_1000 :
  let tr := trace (queryEventsInBatches 100 unreachable_contract 1 10000
                     default_batchSize empty_world).2 in
  take 5 (batch_sizes tr) = [10000; 5000; 2500; 1250; 625]
  /\ ~ Forall (fun s => 1000 <= s) (batch_sizes tr).
Proof.
  split; [by vm_compute |].
  intros H. apply Forall_take with (n := 5%nat) in H.
  replace (take 5%nat _) with [10000; 5000; 2500; 1250; 625] in H
    by (by vm_compute).
  repeat (apply Forall_cons in H as [? H]). lia.
Qed.

(** C4, amended. For every range, started at the default size of 10000 the
    fetcher never raises an error to its caller and comes to an end; every
    batch size it tries is one of 10000, 5000, 2500, 1250, 625; a batch that
    fails is retried on the same sub-range at half the size whenever its
    size exceeds 1000, and is dropped when its size is 1000 or less. *)
Theorem batch_retry_halving {A} (c : Contract A) fromBlock toBlock w :
  (forall fuel,
     returns_or_starves
       (queryEventsInBatches fuel c fromBlock toBlock default_batchSize w).1)
  /\ settles
       (fun fuel => queryEventsInBatches fuel c fromBlock toBlock
                      default_batchSize) w
  /\ (forall fuel,
        exists ext,
          trace (queryEventsInBatches fuel c fromBlock toBlock
                   default_batchSize w).2 = trace w ++ ext
          /\ Forall (fun s => s ∈ [10000; 5000; 2500; 1250; 625])
               (batch_sizes ext))
  /\ (forall fuel cur to b w1 msg,
        cur <= to ->
        queryFilter_response c (length (trace w1)) cur (Z.min (cur + b - 1) to)
          = inl msg ->
        queryEventsInBatches (S fuel) c cur to b w1
        = (let endBlock := Z.min (cur + b - 1) to in
           let* smaller :=
             (if b >? 1000
              then queryEventsInBatches fuel c cur endBlock (b / 2)
              else ret []) in
           let* _ := sleep 200 in
           let* rest := queryEventsInBatches fuel c (endBlock + 1) to b in
           ret (smaller ++ rest))
            (log_effect
               (ConsoleError ("  Error querying blocks " +:+ show_Z cur +:+ "-"
                              +:+ show_Z (Z.min (cur + b - 1) to) +:+ ": "
                              +:+ msg))
               (log_effect
                  (QueryFilter (target c) cur (Z.min (cur + b - 1) to) b) w1))).
Proof.
  split; [| split; [| split]].
  - intros fuel.
    pose proof (queryEventsInBatches_trace fuel c fromBlock toBlock
                  default_batchSize w) as H.
    destruct (queryEventsInBatches fuel c fromBlock toBlock default_batchSize w).
    apply H.
  - apply queryEventsInBatches_settles. unfold default_batchSize. lia.
  - intros fuel.
    pose proof (queryEventsInBatches_trace fuel c fromBlock toBlock
                  default_batchSize w) as H.
    destruct (queryEventsInBatches fuel c fromBlock toBlock default_batchSize w)
      as [r w'].
    destruct H as (_ & _ & _ & _ & ext & Hext & Hall).
    exists ext. split; [exact Hext |]. by eapply fetch_effect_batch_sizes.
  - intros. by apply failed_batch_step.
Qed.

(** At a size of 600 a failing batch is logged and dropped. *)
Lemma batch_retry_halving_witness :
  queryEventsInBatches 1 unreachable_contract 1 10 600 empty_world
  = (Ok [],
     {| progress := fresh_progress; routerDeploymentsFile := [];
        vaultDeploymentsFile := [];
        trace := [QueryFilter "0xdead" 1 10 600;
                  ConsoleError "  Error querying blocks 1-10: timeout";
                  Sleep 200] |}).
Proof.
  rewrite (proj2 (proj2 (proj2
             (batch_retry_halving unreachable_contract 1 10 empty_world)))
             0%nat 1 10 600 empty_world "timeout").
  - reflexivity.
  - lia.
  - reflexivity.
Defined.

(** C10. A fetch over a range whose first block lies behind its last block
    returns no event and performs no effect at all: no query, no pause. So
    resuming from a checkpoint that already equals the chain head is safe:
    range resolution answers "query from head + 1", and the fetch from
    [head + 1] to [head] costs no network call. *)
Theorem empty_range_fetches_nothing :
  (forall A (fuel : nat) (c : Contract A) (fromBlock toBlock batchSize : Z)
          (w : World),
     toBlock < fromBlock ->
     queryEventsInBatches fuel c fromBlock toBlock batchSize w = (Ok [], w))
  /\ (forall vaultStart routerStart (fuel : nat) (head : Z) (w : World),
        head <> 0 ->
        (lastVaultFactoryBlock (progress w) = Some head ->
         exists q,
           evaluateVaultFactoryQuery vaultStart head w = (Ok q, w)
           /\ shouldQueryFactory q = true
           /\ forall A (c : Contract A),
                queryEventsInBatches fuel c (fromBlock q) head
                  default_batchSize w = (Ok [], w))
        /\ (lastRouterFactoryBlock (progress w) = Some head ->
            exists q,
              evaluateRouterFactoryQuery routerStart w = (Ok q, w)
              /\ shouldQueryFactory q = true
              /\ forall A (c : Contract A),
                   queryEventsInBatches fuel c (fromBlock q) head
                     default_batchSize w = (Ok [], w))).
Proof.
  split.
  - intros. by apply queryEventsInBatches_past_end.
  - intros vaultStart routerStart fuel head w Hhead.
    assert (Htruthy : truthy_number (Some head) = true).
    { simpl. apply negb_true_iff. by apply Z.eqb_neq. }
    split; intros Hck.
    + unfold evaluateVaultFactoryQuery, bind, loadVaultDeployments, get_progress.
      rewrite Hck, Htruthy. eexists. split; [reflexivity |]. split; [done |].
      intros A c. apply queryEventsInBatches_past_end. simpl. lia.
    + unfold evaluateRouterFactoryQuery, bind, loadRouterDeployments,
        get_progress.
      rewrite Hck, Htruthy. eexists. split; [reflexivity |]. split; [done |].
      intros A c. apply queryEventsInBatches_past_end. simpl.
      unfold array_get. simpl.
      destruct (Z.gtb_spec (head + 1) (head + 1)); lia.
Qed.

Lemma empty_range_fetches_nothing_witness :
  queryEventsInBatches 0 unreachable_contract 101 100 default_batchSize
    empty_world
  = (Ok [], empty_world).
Proof.
  apply (proj1 empty_range_fetches_nothing unit 0%nat unreachable_contract
           101 100 default_batchSize empty_world).
  lia.
Defined.

(** ** The entity processor *)

(** The ways the [try] block can run. *)
Lemma analyze_router_cases P wfe fuel od a db head q isRecheck w r w' :
  analyze_router P wfe fuel od a db head q isRecheck w = (r, w') ->
  (ConfigSet_filter P a = false
   /\ r = Throw "ConfigSet filter not found" /\ w' = w)
  \/ (ConfigSet_filter P a = true
      /\ exists r1 w1,
           queryEventsInBatches fuel (router_contract P a) q head
             default_batchSize w = (r1, w1)
           /\ match r1 with
              | Ok configEvents =>
                  let p' := progress_after_analysis od a db head isRecheck
                              configEvents (progress w) in
                  let w2 := log_effect (SaveProgress p') (set_progress p' w1) in
                  match wfe (length (trace w1)) with
                  | Some msg => r = Throw msg /\ w' = w2
                  | None => r = Ok tt /\ w' = log_effect (Sleep 200) w2
                  end
              | OutOfFuel => r = OutOfFuel /\ w' = w1
              | Throw _ | Exit _ => False
              end).
Proof.
  unfold analyze_router. intros H.
  unfold bind at 1 in H. cbn [has_filter router_contract] in H.
  destruct (ConfigSet_filter P a) eqn:Hf.
  - right. split; [done |]. unfold ret at 1 in H.
    unfold bind at 1 in H. fold (router_contract P a) in H.
    pose proof (queryEventsInBatches_trace fuel (router_contract P a) q head
                  default_batchSize w) as Htr.
    destruct (queryEventsInBatches fuel (router_contract P a) q head
                default_batchSize w) as [r1 w1].
    destruct Htr as [Hr1 (Hp & _)].
    exists r1, w1. split; [done |].
    destruct r1 as [configEvents| | |]; try done.
    + unfold bind at 1, get_progress in H.
      unfold bind at 1, modify_progress in H.
      unfold bind at 1 in H. unfold bind at 1, saveProgress in H.
      unfold progress_after_analysis. rewrite <- Hp.
      cbn [progress set_progress trace log_effect] in H |- *.
      destruct (wfe (length (trace w1))).
      * by injection H as <- <-.
      * unfold sleep in H. by injection H as <- <-.
    + by injection H as <- <-.
  - left. unfold throw in H. by injection H as <- <-.
Qed.

(** One loop iteration never throws and never exits; it leaves the progress
    object as it was or as a successful analysis makes it. *)
Lemma process_router_progress P wfe R fuel od head d w r w' :
  process_router P wfe R fuel od head d w = (r, w') ->
  returns_or_starves r
  /\ (progress w' = progress w
      \/ exists q isRecheck configEvents w1,
           schedule R (processedRouters (progress w) !! address d)
             (deploymentBlock d) head = Query q isRecheck
           /\ queryEventsInBatches fuel (router_contract P (address d)) q head
                default_batchSize w = (Ok configEvents, w1)
           /\ progress w'
              = progress_after_analysis od (address d) (deploymentBlock d)
                  head isRecheck configEvents (progress w)).
Proof.
  unfold process_router, bind, get_progress.
  destruct (schedule R (processedRouters (progress w) !! address d)
              (deploymentBlock d) head) as [|q isRecheck] eqn:Hs.
  - intros [= <- <-]. split; [done | by left].
  - unfold try_catch.
    destruct (analyze_router P wfe fuel od (address d) (deploymentBlock d)
                head q isRecheck w) as [r0 w0] eqn:Ha.
    apply analyze_router_cases in Ha
      as [(_ & -> & ->) | (_ & r1 & w1 & Hq & Hcase)].
    + unfold console_error. intros [= <- <-]. split; [done | by left].
    + pose proof (queryEventsInBatches_trace fuel (router_contract P (address d))
                    q head default_batchSize w) as Htr.
      rewrite Hq in Htr. destruct Htr as [_ (Hp & _)].
      destruct r1 as [configEvents| | |]; try done.
      * simpl in Hcase. destruct (wfe (length (trace w1))) as [msg|].
        -- destruct Hcase as [-> ->]. unfold console_error.
           intros [= <- <-]. split; [done |]. right.
           exists q, isRecheck, configEvents, w1. done.
        -- destruct Hcase as [-> ->]. intros [= <- <-]. split; [done |].
           right. exists q, isRecheck, configEvents, w1. done.
      * destruct Hcase as [-> ->]. intros [= <- <-]. split; [done |].
        left. done.
Qed.

(** With enough fuel an iteration of the router loop returns normally,
    whatever the node and the storage answer. *)
Lemma process_router_settles P wfe R od head d w :
  settles (fun fuel => process_router P wfe R fuel od head d) w.
Proof.
  unfold settles, process_router, bind at 1, get_progress.
  destruct (schedule R (processedRouters (progress w) !! address d)
              (deploymentBlock d) head) as [|q isRecheck] eqn:Hs.
  { exists O, tt, w. done. }
  destruct (ConfigSet_filter P (address d)) eqn:Hf; cycle 1.
  { exists O, tt, (log_effect (analysis_error_line "ConfigSet filter not found") w).
    intros fuel _. unfold try_catch, analyze_router, bind at 1.
    cbn [has_filter router_contract]. by rewrite Hf. }
  destruct (queryEventsInBatches_settles (router_contract P (address d)) q head
              default_batchSize w) as (f0 & evs & w1 & Hfetch).
  { unfold default_batchSize. lia. }
  set (p' := progress_after_analysis od (address d) (deploymentBlock d) head
               isRecheck evs (progress w)).
  set (w2 := log_effect (SaveProgress p') (set_progress p' w1)).
  exists f0, tt,
    (match wfe (length (trace w1)) with
     | Some msg => log_effect (analysis_error_line msg) w2
     | None => log_effect (Sleep 200) w2
     end).
  intros fuel Hfuel. unfold try_catch.
  destruct (analyze_router P wfe fuel od (address d) (deploymentBlock d) head
              q isRecheck w) as [r0 w0] eqn:Ha.
  apply analyze_router_cases in Ha
    as [(Hf' & _) | (_ & r1 & w1' & Hq & Hcase)]; [congruence |].
  rewrite Hfetch in Hq by done. injection Hq as <- <-. simpl in Hcase.
  fold p' in Hcase. fold w2 in Hcase.
  destruct (wfe (length (trace w1))); by destruct Hcase as [-> ->].
Qed.

Lemma for_each_settles {X} (body : nat -> X -> M unit) :
  (forall x w, settles (fun fuel => body fuel x) w) ->
  forall l w, settles (fun fuel => for_each (body fuel) l) w.
Proof.
  intros Hbody. induction l as [|x l IH]; intros w.
  - exists O, tt, w. done.
  - destruct (Hbody x w) as (f1 & [] & w1 & H1).
    destruct (IH w1) as (f2 & [] & w2 & H2).
    exists (Nat.max f1 f2), tt, w2. intros fuel Hfuel.
    cbn [for_each]. unfold bind. rewrite H1 by lia. apply H2. lia.
Qed.

(** The loop over the routers comes to an end and returns normally. *)
Lemma router_loop_settles P wfe R od head ds w :
  settles (fun fuel => for_each (process_router P wfe R fuel od head) ds) w.
Proof.
  apply (for_each_settles (fun fuel => process_router P wfe R fuel od head)).
  intros x w0. apply process_router_settles.
Qed.

(** ** Additive merge *)

Lemma pairs_extend_refl m : pairs_extend m m.
Proof. intros key l H. by exists l. Qed.

Lemma pairs_extend_trans m1 m2 m3 :
  pairs_extend m1 m2 -> pairs_extend m2 m3 -> pairs_extend m1 m3.
Proof.
  intros H12 H23 key l H.
  destruct (H12 key l H) as (l2 & H2 & Hp2).
  destruct (H23 key l2 H2) as (l3 & H3 & Hp3).
  exists l3. split; [done | by etrans].
Qed.

Lemma Set_add_subseteq x s : s ⊆ Set_add x s.
Proof.
  unfold Set_add. destruct (decide (x ∈ s)); [done |].
  intros y Hy. apply elem_of_app. by left.
Qed.

Lemma Set_from_array_fold_subseteq l : forall acc,
  acc ⊆ foldl (fun s x => Set_add x s) acc l
  /\ l ⊆ foldl (fun s x => Set_add x s) acc l.
Proof.
  induction l as [|x l IH]; intros acc; simpl.
  - split; [done |]. intros y Hy. by apply elem_of_nil in Hy.
  - destruct (IH (Set_add x acc)) as [Hacc Hl]. split.
    + etrans; [apply Set_add_subseteq | exact Hacc].
    + intros y Hy. apply elem_of_cons in Hy as [-> | Hy]; [| by apply Hl].
      apply Hacc. unfold Set_add. destruct (decide (x ∈ acc)); [done |].
      apply elem_of_app. right. by apply list_elem_of_singleton.
Qed.

Lemma Set_from_array_subseteq l : l ⊆ Set_from_array l.
Proof. apply Set_from_array_fold_subseteq. Qed.

Lemma Set_add_elem x y s : y ∈ Set_add x s <-> y = x \/ y ∈ s.
Proof.
  unfold Set_add. destruct (decide (x ∈ s)) as [Hin|Hout].
  - split; [by right | intros [-> | ?]; done].
  - rewrite elem_of_app, list_elem_of_singleton. tauto.
Qed.

Lemma Set_add_NoDup x s : NoDup s -> NoDup (Set_add x s).
Proof.
  intros Hs. unfold Set_add. destruct (decide (x ∈ s)) as [Hin|Hout]; [done |].
  apply NoDup_app. split; [done |]. split; [| apply NoDup_singleton].
  intros y Hy Hy'. apply list_elem_of_singleton in Hy' as ->. done.
Qed.

Lemma Set_from_array_fold l : forall acc,
  NoDup acc ->
  NoDup (foldl (fun s x => Set_add x s) acc l)
  /\ forall y, y ∈ foldl (fun s x => Set_add x s) acc l <-> y ∈ acc \/ y ∈ l.
Proof.
  induction l as [|x l IH]; intros acc Hacc; simpl.
  - split; [done |]. intros y. rewrite elem_of_nil. tauto.
  - destruct (IH (Set_add x acc) (Set_add_NoDup x acc Hacc)) as [Hnd Hel].
    split; [done |]. intros y. rewrite Hel, Set_add_elem, elem_of_cons. tauto.
Qed.

Lemma add_config_event_extends acc e :
  acc.1 ⊆ (add_config_event acc e).1
  /\ pairs_extend acc.2 (add_config_event acc e).2.
Proof.
  destruct e as [b args|b]; simpl.
  - split; [apply Set_add_subseteq |].
    intros key l Hl.
    destruct (decide (key = asset0 args +:+ "-" +:+ asset1 args)) as [->|Hne].
    + rewrite lookup_insert_eq, Hl. simpl.
      eexists. split; [done |]. by apply prefix_app_r.
    + rewrite lookup_insert_ne by done. by exists l.
  - split; [done | apply pairs_extend_refl].
Qed.

Lemma fold_config_events_extends events : forall acc,
  acc.1 ⊆ (foldl add_config_event acc events).1
  /\ pairs_extend acc.2 (foldl add_config_event acc events).2.
Proof.
  induction events as [|e events IH]; intros acc; simpl.
  - split; [done | apply pairs_extend_refl].
  - destruct (add_config_event_extends acc e) as [H1 H2].
    destruct (IH (add_config_event acc e)) as [H3 H4].
    split; [by etrans | by eapply pairs_extend_trans].
Qed.

(** The record a recheck writes, against the record it found. *)
Lemma merged_router_info_extends od db old configEvents :
  let new := merged_router_info od db (Some old) configEvents in
  adapters old ⊆ adapters new
  /\ pairs_extend (assetPairs old) (assetPairs new)
  /\ configEventsCount new
     = configEventsCount old + Z.of_nat (length configEvents)
  /\ vaultEventsCount new = 0.
Proof.
  simpl.
  destruct (fold_config_events_extends configEvents
              (Set_from_array (adapters old), assetPairs old)) as [H1 H2].
  repeat split; try done.
  etrans; [apply Set_from_array_subseteq | exact H1].
Qed.

(** The loop: what every iteration preserves, the whole loop preserves. *)
Lemma for_each_preserves {X} (Inv : World -> World -> Prop)
    (body : X -> M unit) :
  (forall w, Inv w w) ->
  (forall w1 w2 w3, Inv w1 w2 -> Inv w2 w3 -> Inv w1 w3) ->
  (forall x w r w', body x w = (r, w') -> Inv w w') ->
  forall l w r w', for_each body l w = (r, w') -> Inv w w'.
Proof.
  intros Hrefl Htrans Hbody.
  induction l as [|x l IH]; intros w r w'; simpl.
  - intros [= <- <-]. apply Hrefl.
  - unfold bind. destruct (body x w) as [r1 w1] eqn:Hx.
    apply Hbody in Hx.
    destruct r1; try (intros [= <- <-]; exact Hx).
    intros Hl. apply IH in Hl. by eapply Htrans.
Qed.

(** The tail of [processRouterDeployments] touches neither the router
    records nor the per-router checkpoints. *)
Lemma processRouterDeployments_loop P wfe R fuel od ds head w r w' :
  processRouterDeployments P wfe R fuel od ds head w = (r, w') ->
  exists r0 w0,
    for_each (process_router P wfe R fuel od head) ds w = (r0, w0)
    /\ routers (progress w') = routers (progress w0)
    /\ processedRouters (progress w') = processedRouters (progress w0).
Proof.
  unfold processRouterDeployments, bind.
  destruct (for_each (process_router P wfe R fuel od head) ds w) as [r0 w0].
  intros H. exists r0, w0. split; [done |].
  destruct r0; try (by injection H as <- <-).
  unfold modify_progress, saveProgress in H. simpl in H.
  destruct (wfe (length (trace w0))); by injection H as <- <-.
Qed.

Lemma records_grow_refl p : records_grow p p.
Proof.
  intros r old Hp Hr. split; [done |]. exists old.
  repeat split; [done | done | apply pairs_extend_refl | lia].
Qed.

Lemma records_grow_trans p1 p2 p3 :
  records_grow p1 p2 -> records_grow p2 p3 -> records_grow p1 p3.
Proof.
  intros H12 H23 r old Hp Hr.
  destruct (H12 r old Hp Hr) as (Hp2 & mid & Hr2 & Ha & Hm & Hc).
  destruct (H23 r mid Hp2 Hr2) as (Hp3 & new & Hr3 & Ha' & Hm' & Hc').
  split; [done |]. exists new.
  repeat split; [done | by etrans | by eapply pairs_extend_trans | lia].
Qed.

Lemma schedule_processed R last db head q isRecheck :
  schedule R (Some last) db head = Query q isRecheck ->
  q = last + 1 /\ isRecheck = true /\ R <= head - last.
Proof.
  unfold schedule. destruct (Z.ltb_spec (head - last) R); [done |].
  by intros [= <- <-].
Qed.

(** What one loop iteration does to the record of the router it handles,
    when that router was processed before. *)
Lemma process_router_recheck P wfe R fuel od head d w old last :
  processedRouters (progress w) !! address d = Some last ->
  routers (progress w) !! address d = Some old ->
  exists new,
    routers (progress (process_router P wfe R fuel od head d w).2)
      !! address d = Some new
    /\ adapters old ⊆ adapters new
    /\ pairs_extend (assetPairs old) (assetPairs new)
    /\ (new = old
        \/ exists configEvents w1,
             queryEventsInBatches fuel (router_contract P (address d))
               (last + 1) head default_batchSize w = (Ok configEvents, w1)
             /\ configEventsCount new
                = configEventsCount old + Z.of_nat (length configEvents)
             /\ vaultEventsCount new = 0).
Proof.
  intros Hlast Hold.
  destruct (process_router P wfe R fuel od head d w) as [r w'] eqn:Hrun.
  apply process_router_progress in Hrun
    as [_ [Hsame | (q & isRecheck & evs & w1 & Hs & Hq & Hp)]]; simpl.
  - rewrite Hsame. exists old.
    repeat split; [done | done | apply pairs_extend_refl | by left].
  - rewrite Hlast in Hs. apply schedule_processed in Hs as (-> & -> & _).
    rewrite Hp. unfold progress_after_analysis. simpl.
    rewrite lookup_insert_eq, Hold. eexists. split; [done |].
    destruct (merged_router_info_extends od (deploymentBlock d) old evs)
      as (Ha & Hm & Hc & Hv).
    repeat split; [done | done |]. right. by exists evs, w1.
Qed.

Lemma process_router_records_grow P wfe R fuel od head d w r w' :
  process_router P wfe R fuel od head d w = (r, w') ->
  records_grow (progress w) (progress w').
Proof.
  intros Hrun r0 old Hproc Hr0.
  destruct (decide (r0 = address d)) as [->|Hne].
  - destruct Hproc as [last Hlast].
    destruct (process_router_recheck P wfe R fuel od head d w old last Hlast Hr0)
      as (new & Hnew & Ha & Hm & Hc).
    rewrite Hrun in Hnew. simpl in Hnew.
    apply process_router_progress in Hrun
      as [_ [Hsame | (q & isRecheck & evs & w1 & Hs & Hq & Hp)]].
    + rewrite Hsame. split; [by exists last |]. exists old.
      repeat split; [done | done | apply pairs_extend_refl | lia].
    + split.
      { rewrite Hp. unfold progress_after_analysis. simpl.
        rewrite lookup_insert_eq. by eexists. }
      exists new. repeat split; try done.
      destruct Hc as [-> | (evs' & _ & _ & -> & _)]; lia.
  - apply process_router_progress in Hrun
      as [_ [Hsame | (q & isRecheck & evs & w1 & Hs & Hq & Hp)]].
    + rewrite Hsame. by apply records_grow_refl.
    + rewrite Hp. unfold progress_after_analysis. simpl.
      rewrite !lookup_insert_ne by done. split; [done |]. exists old.
      repeat split; [done | done | apply pairs_extend_refl | lia].
Qed.

Lemma process_router_counts_no_vault_event P wfe R fuel od head d w :
  no_vault_events_counted (progress w) ->
  no_vault_events_counted (progress (process_router P wfe R fuel od head d w).2).
Proof.
  intros Hinv.
  destruct (process_router P wfe R fuel od head d w) as [r w'] eqn:Hrun.
  apply process_router_progress in Hrun
    as [_ [Hsame | (q & isRecheck & evs & w1 & _ & _ & Hp)]]; simpl.
  - by rewrite Hsame.
  - rewrite Hp. intros r0 info. unfold progress_after_analysis. simpl.
    destruct (decide (r0 = address d)) as [-> | Hne].
    + rewrite lookup_insert_eq. by intros [= <-].
    + rewrite lookup_insert_ne by done. apply Hinv.
Qed.

Lemma router_pass_counts_no_vault_event P wfe R fuel od ds head w :
  no_vault_events_counted (progress w) ->
  no_vault_events_counted
    (progress (processRouterDeployments P wfe R fuel od ds head w).2).
Proof.
  destruct (processRouterDeployments P wfe R fuel od ds head w)
    as [r w'] eqn:Hrun.
  apply processRouterDeployments_loop in Hrun
    as (r0 & w0 & Hloop & Hrouters & _). simpl.
  intros Hinv. unfold no_vault_events_counted. rewrite Hrouters.
  revert Hloop Hinv.
  apply (for_each_preserves
           (fun w1 w2 => no_vault_events_counted (progress w1) ->
                         no_vault_events_counted (progress w2))).
  - done.
  - intros w1 w2 w3 H12 H23 H1. by apply H23, H12.
  - intros x w1 r1 w2 Hx H1.
    pose proof (process_router_counts_no_vault_event P wfe R fuel od head x w1 H1)
      as H2.
    by rewrite Hx in H2.
Qed.

(** The scenario [world_with_router1] is the state a first run at head 1000
    leaves behind. *)
Example world_with_router1_is_reached :
  let run := fetchRouters first_run_provider (fun _ => None)
               recheck_interval_default (Some 400) 100 no_oracle_data
               empty_world in
  run.1 = Ok tt
  /\ progress run.2 = progress world_with_router1
  /\ routerDeploymentsFile run.2 = routerDeploymentsFile world_with_router1.
Proof. by vm_compute. Qed.

(** C1. A recheck is additive. In every progress object the program produces
    no router record counts a vault event (true of the fresh object, kept by
    every loop iteration and by a whole pass). In such a state, the record of
    an already processed router after an iteration of the loop holds every
    adapter of the record before and, under every asset pair, a list that
    starts with the old list; its vault-event count is the old one; and when
    the record was rewritten it is the merge of the old record with the events
    fetched from [lastProcessedBlock + 1], with a config-event count that is
    the old count plus the number of these events. Over a whole pass no
    processed router loses an adapter, an asset pair or a counted event. *)
Theorem recheck_merge_additive P wfe R fuel od head :
  no_vault_events_counted fresh_progress
  /\ (forall d w,
        no_vault_events_counted (progress w) ->
        no_vault_events_counted
          (progress (process_router P wfe R fuel od head d w).2))
  /\ (forall ds w,
        no_vault_events_counted (progress w) ->
        no_vault_events_counted
          (progress (processRouterDeployments P wfe R fuel od ds head w).2))
  /\ (forall d w old last,
        no_vault_events_counted (progress w) ->
        processedRouters (progress w) !! address d = Some last ->
        routers (progress w) !! address d = Some old ->
        exists new,
          routers (progress (process_router P wfe R fuel od head d w).2)
            !! address d = Some new
          /\ adapters old ⊆ adapters new
          /\ pairs_extend (assetPairs old) (assetPairs new)
          /\ vaultEventsCount new = vaultEventsCount old
          /\ (new = old
              \/ exists configEvents w1,
                   queryEventsInBatches fuel (router_contract P (address d))
                     (last + 1) head default_batchSize w
                   = (Ok configEvents, w1)
                   /\ new = merged_router_info od (deploymentBlock d)
                              (Some old) configEvents
                   /\ configEventsCount new
                      = configEventsCount old
                        + Z.of_nat (length configEvents)))
  /\ (forall ds w,
        records_grow (progress w)
          (progress (processRouterDeployments P wfe R fuel od ds head w).2)).
Proof.
  split; [by intros r info Hr; simpl in Hr; rewrite lookup_empty in Hr |].
  split; [intros d w; apply process_router_counts_no_vault_event |].
  split; [intros ds w; apply router_pass_counts_no_vault_event |].
  split.
  - intros d w old last Hinv Hlast Hold.
    destruct (process_router P wfe R fuel od head d w) as [r w'] eqn:Hrun.
    apply process_router_progress in Hrun
      as [_ [Hsame | (q & isRecheck & evs & w1 & Hs & Hq & Hp)]]; simpl.
    + rewrite Hsame. exists old.
      repeat split; [done | done | apply pairs_extend_refl | by left].
    + rewrite Hlast in Hs. apply schedule_processed in Hs as (-> & -> & _).
      rewrite Hp. unfold progress_after_analysis. simpl.
      rewrite lookup_insert_eq, Hold. eexists. split; [done |].
      destruct (merged_router_info_extends od (deploymentBlock d) old evs)
        as (Ha & Hm & Hc & Hv).
      split; [done |]. split; [done |].
      split; [by rewrite (Hinv _ _ Hold) |].
      right. by exists evs, w1.
  - intros ds w.
    destruct (processRouterDeployments P wfe R fuel od ds head w)
      as [r w'] eqn:Hrun.
    apply processRouterDeployments_loop in Hrun
      as (r0 & w0 & Hloop & Hrouters & Hproc). simpl.
    assert (Hgrow : records_grow (progress w) (progress w0)).
    { revert Hloop.
      apply (for_each_preserves
               (fun w1 w2 => records_grow (progress w1) (progress w2))).
      - intros. apply records_grow_refl.
      - intros. by eapply records_grow_trans.
      - intros x w1 r1 w2. apply process_router_records_grow. }
    intros r1 old Hp Hr. unfold records_grow in Hgrow.
    rewrite Hrouters, Hproc. by apply Hgrow.
Qed.

Lemma recheck_merge_additive_witness :
  let new_record :=
    routers (progress (process_router busy_provider (fun _ => None)
                         recheck_interval_default 100 no_oracle_data 60000
                         router1 world_with_router1).2) !! "0xR1" in
  adapters <$> new_record = Some ["0xA1"; "0xA2"]
  /\ configEventsCount <$> new_record = Some 2
  /\ vaultEventsCount <$> new_record = Some 0
  /\ exists new,
       new_record = Some new
       /\ adapters router1_info ⊆ adapters new
       /\ pairs_extend (assetPairs router1_info) (assetPairs new)
       /\ vaultEventsCount new = vaultEventsCount router1_info.
Proof.
  cbv zeta. split; [by vm_compute |]. split; [by vm_compute |].
  split; [by vm_compute |].
  destruct (proj1 (proj2 (proj2 (proj2
              (recheck_merge_additive busy_provider (fun _ => None)
                 recheck_interval_default 100 no_oracle_data 60000))))
              router1 world_with_router1 router1_info 1000)
    as (new & Hnew & Ha & Hm & Hv & _).
  - intros r info Hr. simpl in Hr.
    apply lookup_singleton_Some in Hr as [_ <-]. reflexivity.
  - reflexivity.
  - reflexivity.
  - exists new. split; [exact Hnew |]. split; [exact Ha |].
    split; [exact Hm | exact Hv].
Defined.

(** ** Monotone checkpoints *)

Lemma checkpoints_advance_refl R head p : checkpoints_advance R head p p.
Proof.
  split.
  - intros a v H. exists v. split; [done | by left].
  - intros a v' H. by right.
Qed.

Lemma checkpoints_advance_trans R head p1 p2 p3 :
  checkpoints_advance R head p1 p2 -> checkpoints_advance R head p2 p3 ->
  checkpoints_advance R head p1 p3.
Proof.
  intros [H12 B12] [H23 B23]. split.
  - intros a v Hv.
    destruct (H12 a v Hv) as (v2 & Hv2 & Hc2).
    destruct (H23 a v2 Hv2) as (v3 & Hv3 & Hc3).
    exists v3. split; [done |].
    destruct Hc2 as [-> | [-> Hr]]; [done |].
    right. split; [| done]. destruct Hc3 as [-> | [-> _]]; done.
  - intros a v3 Hv3.
    destruct (B23 a v3 Hv3) as [-> | Hv2]; [by left |].
    by apply B12.
Qed.

Lemma process_router_checkpoints P wfe R fuel od head d w r w' :
  process_router P wfe R fuel od head d w = (r, w') ->
  checkpoints_advance R head (progress w) (progress w').
Proof.
  intros Hrun.
  apply process_router_progress in Hrun
    as [_ [Hsame | (q & isRecheck & evs & w1 & Hs & Hq & Hp)]].
  - rewrite Hsame. apply checkpoints_advance_refl.
  - rewrite Hp. unfold checkpoints_advance, progress_after_analysis. simpl.
    split.
    + intros a v Hv. destruct (decide (a = address d)) as [->|Hne].
      * rewrite lookup_insert_eq. exists head. split; [done |].
        rewrite Hv in Hs. apply schedule_processed in Hs as (_ & _ & Hr).
        by right.
      * rewrite lookup_insert_ne by done. exists v. split; [done | by left].
    + intros a v'. destruct (decide (a = address d)) as [->|Hne].
      * rewrite lookup_insert_eq. intros [= <-]. by left.
      * rewrite lookup_insert_ne by done. by right.
Qed.

Lemma processRouterDeployments_checkpoints P wfe R fuel od ds head w :
  checkpoints_advance R head (progress w)
    (progress (processRouterDeployments P wfe R fuel od ds head w).2).
Proof.
  destruct (processRouterDeployments P wfe R fuel od ds head w)
    as [r w'] eqn:Hrun.
  apply processRouterDeployments_loop in Hrun
    as (r0 & w0 & Hloop & _ & Hproc). simpl.
  assert (H : checkpoints_advance R head (progress w) (progress w0)).
  { revert Hloop.
    apply (for_each_preserves
             (fun w1 w2 => checkpoints_advance R head (progress w1) (progress w2))).
    - intros. apply checkpoints_advance_refl.
    - intros. by eapply checkpoints_advance_trans.
    - intros x w1 r1 w2. apply process_router_checkpoints. }
  unfold checkpoints_advance in *. by rewrite Hproc.
Qed.

(** C2. Take two successive passes over the routers, at heads [head1] and
    [head2] with [head1 <= head2], the first one starting from a progress
    object whose checkpoints do not exceed [head1] (they were written at
    earlier heads), or take any two passes under a recheck interval that is
    not negative. Across either pass the recorded lastProcessedBlock of
    every router never decreases: it is left as it was, or replaced by the
    head of the pass, which is then at least the recheck interval above the
    old value. *)
Theorem lastProcessedBlock_never_decreases P wfe R fuel1 fuel2 od ds1 ds2
    head1 head2 w0 :
  0 <= R
  \/ (forall a v, processedRouters (progress w0) !! a = Some v -> v <= head1) ->
  head1 <= head2 ->
  let w1 := (processRouterDeployments P wfe R fuel1 od ds1 head1 w0).2 in
  let w2 := (processRouterDeployments P wfe R fuel2 od ds2 head2 w1).2 in
  (forall a v0, processedRouters (progress w0) !! a = Some v0 ->
     exists v1, processedRouters (progress w1) !! a = Some v1
                /\ v0 <= v1
                /\ (v1 = v0 \/ (v1 = head1 /\ v0 + R <= head1)))
  /\ (forall a v1, processedRouters (progress w1) !! a = Some v1 ->
        exists v2, processedRouters (progress w2) !! a = Some v2
                   /\ v1 <= v2
                   /\ (v2 = v1 \/ (v2 = head2 /\ v1 + R <= head2))).
Proof.
  intros Hbound Hheads w1 w2.
  destruct (processRouterDeployments_checkpoints P wfe R fuel1 od ds1 head1 w0)
    as [Hadv1 Hback1].
  destruct (processRouterDeployments_checkpoints P wfe R fuel2 od ds2 head2 w1)
    as [Hadv2 _].
  fold w1 in Hadv1, Hback1. fold w2 in Hadv2.
  assert (Hbound1 :
            0 <= R
            \/ forall a v, processedRouters (progress w1) !! a = Some v ->
                           v <= head2).
  { destruct Hbound as [HR | Hb]; [by left | right].
    intros a v Hv. destruct (Hback1 a v Hv) as [-> | Hv0]; [lia |].
    pose proof (Hb a v Hv0). lia. }
  split.
  - intros a v0 Hv0. destruct (Hadv1 a v0 Hv0) as (v1 & Hv1 & Hc).
    exists v1. split; [done |].
    destruct Hc as [-> | [-> Hr]]; (split; [| by (left + (right; lia))]);
      [lia |].
    destruct Hbound as [HR | Hb]; [lia | by apply (Hb a)].
  - intros a v1 Hv1. destruct (Hadv2 a v1 Hv1) as (v2 & Hv2 & Hc).
    exists v2. split; [done |].
    destruct Hc as [-> | [-> Hr]]; (split; [| by (left + (right; lia))]);
      [lia |].
    destruct Hbound1 as [HR | Hb]; [lia | by apply (Hb a)].
Qed.

Lemma lastProcessedBlock_never_decreases_witness :
  let w1 := (processRouterDeployments quiet_provider (fun _ => None)
               recheck_interval_default 100 no_oracle_data [router1] 1100
               world_with_router1).2 in
  let w2 := (processRouterDeployments quiet_provider (fun _ => None)
               recheck_interval_default 100 no_oracle_data [router1] 60000
               w1).2 in
  (forall a v0,
     processedRouters (progress world_with_router1) !! a = Some v0 ->
     exists v1, processedRouters (progress w1) !! a = Some v1
                /\ v0 <= v1
                /\ (v1 = v0
                    \/ (v1 = 1100 /\ v0 + recheck_interval_default <= 1100)))
  /\ (forall a v1, processedRouters (progress w1) !! a = Some v1 ->
        exists v2, processedRouters (progress w2) !! a = Some v2
                   /\ v1 <= v2
                   /\ (v2 = v1
                       \/ (v2 = 60000
                           /\ v1 + recheck_interval_default <= 60000))).
Proof.
  apply (lastProcessedBlock_never_decreases quiet_provider (fun _ => None)
           recheck_interval_default 100 100 no_oracle_data [router1] [router1]
           1100 60000 world_with_router1).
  - right. intros a v H. simpl in H.
    apply lookup_singleton_Some in H as [_ <-]. lia.
  - lia.
Defined.

(** ** Recheck scheduling *)

Lemma process_router_skip P wfe R fuel od head d w last :
  processedRouters (progress w) !! address d = Some last ->
  head - last < R ->
  process_router P wfe R fuel od head d w = (Ok tt, w).
Proof.
  intros Hlast Hlt. unfold process_router, bind, get_progress.
  rewrite Hlast. unfold schedule.
  by replace (head - last <? R) with true by (symmetry; apply Z.ltb_lt; lia).
Qed.

Lemma batch_sizes_app tr1 tr2 :
  batch_sizes (tr1 ++ tr2) = batch_sizes tr1 ++ batch_sizes tr2.
Proof. unfold batch_sizes. apply omap_app. Qed.

(** A due router whose contract has the ConfigSet filter: what the iteration
    sends, and the world it ends in. *)
Lemma process_router_fetch P wfe R od head d w q isRecheck :
  schedule R (processedRouters (progress w) !! address d)
    (deploymentBlock d) head = Query q isRecheck ->
  ConfigSet_filter P (address d) = true ->
  exists fuel0 configEvents w1 fetched,
    trace w1 = trace w ++ fetched
    /\ (progress w1 = progress w
        /\ routerDeploymentsFile w1 = routerDeploymentsFile w
        /\ vaultDeploymentsFile w1 = vaultDeploymentsFile w)
    /\ Forall (router_fetch_effect (address d) q head) fetched
    /\ windows_cover q head (query_windows fetched)
    /\ (q <= head ->
        exists rest,
          fetched
          = QueryFilter (address d) q
              (Z.min (q + default_batchSize - 1) head) default_batchSize
            :: rest)
    /\ forall fuel, (fuel0 <= fuel)%nat ->
         queryEventsInBatches fuel (router_contract P (address d)) q head
           default_batchSize w = (Ok configEvents, w1)
         /\ process_router P wfe R fuel od head d w
            = (Ok tt,
               let p' := progress_after_analysis od (address d)
                           (deploymentBlock d) head isRecheck configEvents
                           (progress w) in
               log_effect
                 (match wfe (length (trace w1)) with
                  | Some msg => analysis_error_line msg
                  | None => Sleep 200
                  end)
                 (log_effect (SaveProgress p') (set_progress p' w1))).
Proof.
  intros Hs Hfilter.
  destruct (queryEventsInBatches_settles (router_contract P (address d)) q head
              default_batchSize w) as (f0 & evs & w1 & Hfetch).
  { unfold default_batchSize. lia. }
  assert (Hb : 1 <= default_batchSize) by (unfold default_batchSize; lia).
  pose proof (Hfetch f0 (Nat.le_refl _)) as Hrun0.
  destruct (queryEventsInBatches_covers f0 (router_contract P (address d))
              q head default_batchSize w evs w1 Hb Hrun0)
    as (fetched & Htrace & Hcover & Hfirst).
  pose proof (queryEventsInBatches_trace f0 (router_contract P (address d))
                q head default_batchSize w) as Hkind.
  pose proof (queryEventsInBatches_windows f0 (router_contract P (address d))
                q head default_batchSize w Hb) as Hrange.
  rewrite Hrun0 in Hkind, Hrange. simpl in Hrange.
  destruct Hkind as (_ & Hp1 & Hrf1 & Hvf1 & e1 & He1 & Hkind).
  destruct Hrange as (_ & _ & _ & e2 & He2 & Hrange).
  rewrite Htrace in He1, He2.
  apply app_inv_head in He1. apply app_inv_head in He2. subst e1 e2.
  exists f0, evs, w1, fetched. split; [exact Htrace |].
  split; [done |]. split.
  { apply Forall_forall. intros e He.
    rewrite Forall_forall in Hkind, Hrange.
    specialize (Hkind e He). specialize (Hrange e He).
    destruct e; simpl in Hkind, Hrange |- *; try done.
    destruct Hkind as [-> _]. simpl. split; [done | lia]. }
  split; [exact Hcover |]. split; [exact Hfirst |].
  intros fuel Hfuel. split; [by apply Hfetch |].
  unfold process_router, bind at 1, get_progress. rewrite Hs.
  unfold try_catch.
  destruct (analyze_router P wfe fuel od (address d) (deploymentBlock d) head
              q isRecheck w) as [r0 w0] eqn:Ha.
  apply analyze_router_cases in Ha
    as [(Hf' & _) | (_ & r1 & w1' & Hq & Hcase)]; [congruence |].
  rewrite Hfetch in Hq by done. injection Hq as <- <-. simpl in Hcase.
  cbv zeta.
  destruct (wfe (length (trace w1))); by destruct Hcase as [-> ->].
Qed.

Lemma router_fetch_effect_tail a q head fetched p e :
  Forall (router_fetch_effect a q head) fetched ->
  router_fetch_effect a q head e ->
  Forall (router_fetch_effect a q head) (fetched ++ [SaveProgress p; e]).
Proof.
  intros Hall He. apply Forall_app. split; [done |]. by repeat constructor.
Qed.

Lemma windows_cover_more q head tr1 tr2 :
  windows_cover q head (query_windows tr1) ->
  windows_cover q head (query_windows (tr1 ++ tr2)).
Proof.
  intros Hcov k Hk. destruct (Hcov k Hk) as (f & t & Hin & Hft).
  exists f, t. split; [| done].
  rewrite query_windows_app. apply elem_of_app. by left.
Qed.

(** C6. For a router that was processed before, at [last]: when fewer than
    the recheck interval of blocks have gone by, the loop iteration does
    nothing at all (no query, no write, no change of the progress object).
    Otherwise the router is queried again over [last + 1 .. head]: every
    event query of the iteration goes to the router and asks for a window
    inside that range, every block of the range lies in a queried window, and
    the first thing the iteration does is to ask for the window that starts
    at [last + 1]; nothing else reaches the network. The events fetched are
    merged into the record of the router and its checkpoint becomes the head.
    With an interval of 50000 and a router last processed at block 1000 this
    skips at head 1100 and re-queries at head 51001. *)
Theorem recheck_scheduling P wfe R od head d w last :
  processedRouters (progress w) !! address d = Some last ->
  (head - last < R ->
   forall fuel, process_router P wfe R fuel od head d w = (Ok tt, w))
  /\ (R <= head - last ->
      ConfigSet_filter P (address d) = true ->
      exists fuel0 configEvents w1 w' ext,
        (forall fuel, (fuel0 <= fuel)%nat ->
           queryEventsInBatches fuel (router_contract P (address d))
             (last + 1) head default_batchSize w = (Ok configEvents, w1)
           /\ process_router P wfe R fuel od head d w = (Ok tt, w'))
        /\ trace w' = trace w ++ ext
        /\ Forall (router_fetch_effect (address d) (last + 1) head) ext
        /\ windows_cover (last + 1) head (query_windows ext)
        /\ (last + 1 <= head ->
            exists rest,
              ext
              = QueryFilter (address d) (last + 1)
                  (Z.min (last + 1 + default_batchSize - 1) head)
                  default_batchSize
                :: rest)
        /\ processedRouters (progress w') !! address d = Some head
        /\ routers (progress w') !! address d
           = Some (merged_router_info od (deploymentBlock d)
                     (routers (progress w) !! address d) configEvents)).
Proof.
  intros Hlast. split.
  - intros Hlt fuel. by apply process_router_skip with (last := last).
  - intros Hge Hfilter.
    assert (Hs : schedule R (processedRouters (progress w) !! address d)
                   (deploymentBlock d) head = Query (last + 1) true).
    { rewrite Hlast. unfold schedule.
      by replace (head - last <? R) with false
        by (symmetry; apply Z.ltb_ge; lia). }
    destruct (process_router_fetch P wfe R od head d w (last + 1) true Hs
                Hfilter)
      as (f0 & evs & w1 & fetched & Htrace & _ & Hall & Hcover & Hfirst
          & Hrun).
    set (p' := progress_after_analysis od (address d) (deploymentBlock d) head
                 true evs (progress w)) in *.
    set (final := match wfe (length (trace w1)) with
                  | Some msg => analysis_error_line msg
                  | None => Sleep 200
                  end) in *.
    exists f0, evs, w1,
      (log_effect final (log_effect (SaveProgress p') (set_progress p' w1))),
      (fetched ++ [SaveProgress p'; final]).
    split; [exact Hrun |].
    split; [simpl; by rewrite Htrace, <- !app_assoc |].
    split.
    { apply router_fetch_effect_tail; [done |].
      unfold final, analysis_error_line.
      by destruct (wfe (length (trace w1))). }
    split; [by apply windows_cover_more |].
    split.
    { intros Hle. destruct (Hfirst Hle) as [rest ->]. by eexists. }
    unfold progress_after_analysis. simpl. by rewrite !lookup_insert_eq.
Qed.

Lemma recheck_scheduling_witness :
  (forall fuel,
     process_router quiet_provider (fun _ => None) recheck_interval_default
       fuel no_oracle_data 1100 router1 world_with_router1
     = (Ok tt, world_with_router1))
  /\ exists fuel0 w' ext,
       (forall fuel, (fuel0 <= fuel)%nat ->
          process_router quiet_provider (fun _ => None)
            recheck_interval_default fuel no_oracle_data 51001 router1
            world_with_router1 = (Ok tt, w'))
       /\ trace w' = trace world_with_router1 ++ ext
       /\ Forall (router_fetch_effect "0xR1" 1001 51001) ext
       /\ windows_cover 1001 51001 (query_windows ext)
       /\ (exists rest, ext = QueryFilter "0xR1" 1001 11000 10000 :: rest)
       /\ processedRouters (progress w') !! "0xR1" = Some 51001.
Proof.
  split.
  - apply (proj1 (recheck_scheduling quiet_provider (fun _ => None)
                    recheck_interval_default no_oracle_data 1100 router1
                    world_with_router1 1000 eq_refl)).
    unfold recheck_interval_default. lia.
  - destruct (proj2 (recheck_scheduling quiet_provider (fun _ => None)
                       recheck_interval_default no_oracle_data 51001 router1
                       world_with_router1 1000 eq_refl))
      as (f0 & evs & w1 & w' & ext & Hrun & Htrace & Hall & Hcover & Hfirst
          & Hck & _).
    + unfold recheck_interval_default. lia.
    + reflexivity.
    + exists f0, w', ext. split; [intros fuel Hfuel; by apply Hrun |].
      split; [exact Htrace |]. split; [exact Hall |].
      split; [exact Hcover |]. split; [apply Hfirst; lia | exact Hck].
Defined.

(** The event queries of a recheck at head 51001 of a router last processed
    at block 1000, as issued. *)
Example recheck_at_51001_queries :
  List.filter is_event_query
    (trace (process_router quiet_provider (fun _ => None)
              recheck_interval_default 100 no_oracle_data 51001 router1
              world_with_router1).2)
  = [QueryFilter "0xR1" 1001 11000 10000; QueryFilter "0xR1" 11001 21000 10000;
     QueryFilter "0xR1" 21001 31000 10000; QueryFilter "0xR1" 31001 41000 10000;
     QueryFilter "0xR1" 41001 51000 10000; QueryFilter "0xR1" 51001 51001 10000].
Proof. by vm_compute. Qed.

(** ** Failure isolation *)

(** C3, as stated, fails: when the node rejects every query of a due router,
    the fetcher prints its errors and gives up, nothing is raised, and the
    progress object afterwards is the very one a node without events would
    have left. The record of the router, unchanged, says nothing of the
    failure, and its checkpoint has moved to the head. *)
Lemma entity_error_not_recorded :
  let failing := process_router rejecting_provider (fun _ => None)
                   recheck_interval_default 100 no_oracle_data 60000 router1
                   world_with_router1 in
  let silent := process_router quiet_provider (fun _ => None)
                  recheck_interval_default 100 no_oracle_data 60000 router1
                  world_with_router1 in
  failing.1 = Ok tt
  /\ take 2 (trace failing.2)
     = [QueryFilter "0xR1" 1001 11000 10000;
        ConsoleError "  Error querying blocks 1001-11000: timeout"]
  /\ progress failing.2 = progress silent.2
  /\ routers (progress failing.2) !! "0xR1" = Some router1_info
  /\ processedRouters (progress failing.2) !! "0xR1" = Some 60000.
Proof. by vm_compute. Qed.

(** C3, amended. No error of an entity escapes its loop iteration: the
    iteration never throws, and the loop over the routers runs to its end
    whatever happened in it. A failed query raises nothing at all: the
    fetcher absorbs it, so the recheck of a router returns normally whatever
    the node answers, the loop goes on with the next router, and all the
    iteration adds to the trace are queries to that router, pauses, console
    lines and one write of the progress file (a failed write, the one error
    that reaches the [catch], is printed as well). The cached facts of the
    router are kept: its record is replaced by one that holds every adapter
    and asset pair of the old one and counts at least as many events; when no
    answer carries a decoded event (all queries rejected, say) adapters,
    asset pairs and count are exactly the old ones. Nothing about the failure
    is stored: only the record and the checkpoint of this router change, and
    the checkpoint becomes the head all the same. *)
Theorem entity_error_isolated P wfe R od head d w last old :
  processedRouters (progress w) !! address d = Some last ->
  R <= head - last ->
  routers (progress w) !! address d = Some old ->
  ConfigSet_filter P (address d) = true ->
  (forall fuel d0 w0,
     returns_or_starves (process_router P wfe R fuel od head d0 w0).1)
  /\ (forall ds w0,
        settles
          (fun fuel' => for_each (process_router P wfe R fuel' od head) ds) w0)
  /\ exists fuel0 w' fetched new,
       (forall fuel, (fuel0 <= fuel)%nat ->
          process_router P wfe R fuel od head d w = (Ok tt, w'))
       /\ (forall fuel rest, (fuel0 <= fuel)%nat ->
             for_each (process_router P wfe R fuel od head) (d :: rest) w
             = for_each (process_router P wfe R fuel od head) rest w')
       /\ trace w'
          = trace w ++ fetched
            ++ [SaveProgress (progress w');
                match wfe (length (trace w ++ fetched)) with
                | Some msg => analysis_error_line msg
                | None => Sleep 200
                end]
       /\ Forall (router_fetch_effect (address d) (last + 1) head) fetched
       /\ routers (progress w') = <[address d := new]> (routers (progress w))
       /\ processedRouters (progress w')
          = <[address d := head]> (processedRouters (progress w))
       /\ lastRouterFactoryBlock (progress w')
          = lastRouterFactoryBlock (progress w)
       /\ router_only w w'
       /\ adapters old ⊆ adapters new
       /\ pairs_extend (assetPairs old) (assetPairs new)
       /\ configEventsCount old <= configEventsCount new
       /\ (no_decoded_event (router_contract P (address d)) ->
           (forall a, a ∈ adapters new <-> a ∈ adapters old)
           /\ assetPairs new = assetPairs old
           /\ configEventsCount new = configEventsCount old).
Proof.
  intros Hlast Hge Hold Hfilter.
  split.
  { intros fuel d0 w0.
    destruct (process_router P wfe R fuel od head d0 w0) as [r0 w1] eqn:Hrun.
    by apply process_router_progress in Hrun as [Hr _]. }
  split; [intros ds w0; apply router_loop_settles |].
  assert (Hs : schedule R (processedRouters (progress w) !! address d)
                 (deploymentBlock d) head = Query (last + 1) true).
  { rewrite Hlast. unfold schedule.
    by replace (head - last <? R) with false
      by (symmetry; apply Z.ltb_ge; lia). }
  destruct (process_router_fetch P wfe R od head d w (last + 1) true Hs Hfilter)
    as (f0 & evs & w1 & fetched & Htrace & (Hp1 & Hrf1 & Hvf1) & Hall & _ & _
        & Hrun).
  set (new := merged_router_info od (deploymentBlock d) (Some old) evs).
  set (p' := progress_after_analysis od (address d) (deploymentBlock d) head
               true evs (progress w)) in *.
  set (final := match wfe (length (trace w1)) with
                | Some msg => analysis_error_line msg
                | None => Sleep 200
                end) in *.
  set (w' := log_effect final
               (log_effect (SaveProgress p') (set_progress p' w1))) in *.
  exists f0, w', fetched, new.
  split; [intros fuel Hfuel; by apply Hrun |].
  split.
  { intros fuel rest Hfuel. cbn [for_each]. unfold bind at 1.
    by rewrite (proj2 (Hrun fuel Hfuel)). }
  split.
  { unfold w', final. simpl. by rewrite Htrace, <- !app_assoc. }
  split; [exact Hall |].
  destruct (merged_router_info_extends od (deploymentBlock d) old evs)
    as (Ha & Hm & Hc & _).
  split; [unfold p', progress_after_analysis; simpl; by rewrite Hold |].
  split; [done |]. split; [done |].
  split; [by repeat split |].
  split; [exact Ha |]. split; [exact Hm |].
  split; [fold new in Hc; lia |].
  intros Hnone.
  assert (evs = []) as Hevs.
  { eapply (queryEventsInBatches_no_event f0); [exact Hnone |].
    apply (Hrun f0). lia. }
  unfold new. rewrite Hevs. simpl. split; [| split; [done | lia]].
  intros a. unfold Set_from_array.
  destruct (Set_from_array_fold (adapters old) [] (NoDup_nil_2)) as [_ Hel].
  rewrite Hel, elem_of_nil. tauto.
Qed.

Lemma entity_error_isolated_witness :
  exists fuel0 w' new,
    (forall fuel, (fuel0 <= fuel)%nat ->
       process_router rejecting_provider (fun _ => None)
         recheck_interval_default fuel no_oracle_data 60000 router1
         world_with_router1 = (Ok tt, w'))
    /\ routers (progress w')
       = <["0xR1" := new]> (routers (progress world_with_router1))
    /\ processedRouters (progress w')
       = <["0xR1" := 60000]> (processedRouters (progress world_with_router1))
    /\ (forall a, a ∈ adapters new <-> a ∈ adapters router1_info)
    /\ assetPairs new = assetPairs router1_info
    /\ configEventsCount new = configEventsCount router1_info.
Proof.
  destruct (proj2 (proj2
              (entity_error_isolated rejecting_provider (fun _ => None)
                 recheck_interval_default no_oracle_data 60000 router1
                 world_with_router1 1000 router1_info eq_refl
                 ltac:(unfold recheck_interval_default; lia)
                 eq_refl eq_refl)))
    as (f0 & w' & fetched & new & Hrun & _ & _ & _ & Hrec & Hck & _ & _ & _
        & _ & _ & Hsame).
  destruct Hsame as (Ha & Hm & Hc).
  { intros n f t events Hanswer. discriminate Hanswer. }
  exists f0, w', new. split; [exact Hrun |]. split; [exact Hrec |].
  split; [exact Hck |]. split; [exact Ha |]. split; [exact Hm | exact Hc].
Defined.

(** ** Range resolution *)

Lemma requireStartBlock_missing blockVar factoryName envVarName w :
  truthy_number blockVar = false ->
  requireStartBlock blockVar factoryName envVarName w
  = (Exit 1, add_trace w (start_block_missing_trace factoryName envVarName)).
Proof.
  intros Hfalsy.
  assert (Hrun : @start_block_missing Z factoryName envVarName w
                 = (Exit 1, add_trace w (start_block_missing_trace
                                           factoryName envVarName))).
  { unfold start_block_missing, bind, console_error, process_exit.
    unfold log_effect, add_trace, start_block_missing_trace. simpl.
    by rewrite <- !app_assoc. }
  unfold requireStartBlock. destruct blockVar as [b|]; [| exact Hrun].
  simpl in Hfalsy. apply negb_false_iff in Hfalsy. by rewrite Hfalsy.
Qed.

(** C5, as stated, fails: on a cold start without the start block the chain
    head is requested from the node before the configuration is looked
    at. *)
Lemma cold_start_asks_for_the_head_first :
  let run := fetchRouters quiet_provider (fun _ => None)
               recheck_interval_default None 100 no_oracle_data empty_world in
  run.1 = Exit 1
  /\ List.filter is_network_call (trace run.2) = [GetBlockNumber]
  /\ ~ Forall (fun e => is_network_call e = false) (trace run.2).
Proof.
  split; [by vm_compute |]. split; [by vm_compute |].
  intros H. apply Forall_cons in H as [H _]. done.
Qed.

(** C5, amended. On a cold start (empty deployment cache, no checkpoint, no
    configured start block) range resolution, for the routers as for the
    vaults, performs no network call: it prints the error that names the
    missing setting and exits with code 1. The run of [fetchRouters] has by
    then made one network call, the request for the chain head; once that is
    answered it fails in the same way, before any event query and without
    touching the progress object. *)
Theorem cold_start_fails_fast P wfe R start fuel od w head :
  truthy_number start = false ->
  (routerDeploymentsFile w = [] ->
   truthy_number (lastRouterFactoryBlock (progress w)) = false ->
   evaluateRouterFactoryQuery start w
   = (Exit 1,
      add_trace w (start_block_missing_trace ROUTER_FACTORY
                     "ROUTER_FACTORY_START_BLOCK"))
   /\ (getBlockNumber_response P (length (trace w)) = inr head ->
       fetchRouters P wfe R start fuel od w
       = (Exit 1,
          add_trace w (GetBlockNumber
                       :: start_block_missing_trace ROUTER_FACTORY
                            "ROUTER_FACTORY_START_BLOCK"))))
  /\ (vaultDeploymentsFile w = [] ->
      truthy_number (lastVaultFactoryBlock (progress w)) = false ->
      evaluateVaultFactoryQuery start head w
      = (Exit 1,
         add_trace w (start_block_missing_trace EVAULT_FACTORY
                        "EVAULT_FACTORY_START_BLOCK"))).
Proof.
  intros Hstart. split.
  - intros Hcache Hck.
    assert (Heval : forall w0,
              routerDeploymentsFile w0 = [] ->
              truthy_number (lastRouterFactoryBlock (progress w0)) = false ->
              evaluateRouterFactoryQuery start w0
              = (Exit 1,
                 add_trace w0 (start_block_missing_trace ROUTER_FACTORY
                                 "ROUTER_FACTORY_START_BLOCK"))).
    { intros w0 Hc0 Hk0.
      unfold evaluateRouterFactoryQuery, bind at 1, loadRouterDeployments.
      unfold bind at 1, get_progress. rewrite Hk0, Hc0.
      change (0 <? length (@nil RouterDeployment))%nat with false.
      cbv iota. unfold bind. by rewrite requireStartBlock_missing. }
    split; [by apply Heval |]. intros Hhead.
    unfold fetchRouters, bind at 1, getBlockNumber. rewrite Hhead.
    unfold bind at 1. rewrite Heval by done.
    unfold add_trace, log_effect. simpl. by rewrite <- app_assoc.
  - intros Hcache Hck.
    unfold evaluateVaultFactoryQuery, bind at 1, loadVaultDeployments.
    unfold bind at 1, get_progress. rewrite Hck, Hcache.
    change (0 <? length (@nil VaultDeployment))%nat with false.
    cbv iota. unfold bind. by rewrite requireStartBlock_missing.
Qed.

Lemma cold_start_fails_fast_witness :
  fetchRouters quiet_provider (fun _ => None) recheck_interval_default None
    100 no_oracle_data empty_world
  = (Exit 1,
     add_trace empty_world
       (GetBlockNumber
        :: start_block_missing_trace ROUTER_FACTORY
             "ROUTER_FACTORY_START_BLOCK")).
Proof.
  apply (proj2 (proj1 (cold_start_fails_fast quiet_provider (fun _ => None)
                         recheck_interval_default None 100 no_oracle_data
                         empty_world 60000 eq_refl)
                  eq_refl eq_refl)).
  reflexivity.
Defined.

(** Range resolution with cached deployments and no checkpoint: the vault
    source asks for a rescan from [max (currentHead - 10000) 0]; the router
    source asks for no query at all. Neither performs an effect. *)
Lemma cached_without_checkpoint vaultStart routerStart head w :
  (truthy_number (lastVaultFactoryBlock (progress w)) = false ->
   vaultDeploymentsFile w <> [] ->
   evaluateVaultFactoryQuery vaultStart head w
   = (Ok {| fromBlock := Z.max (head - 10000) 0; shouldQueryFactory := true |},
      w))
  /\ (truthy_number (lastRouterFactoryBlock (progress w)) = false ->
      routerDeploymentsFile w <> [] ->
      exists q,
        evaluateRouterFactoryQuery routerStart w = (Ok q, w)
        /\ shouldQueryFactory q = false).
Proof.
  split.
  - intros Hck Hcache.
    unfold evaluateVaultFactoryQuery, bind, loadVaultDeployments, get_progress.
    rewrite Hck. by destruct (vaultDeploymentsFile w).
  - intros Hck Hcache.
    unfold evaluateRouterFactoryQuery, bind, loadRouterDeployments, get_progress.
    rewrite Hck. destruct (routerDeploymentsFile w); [done |].
    eexists. split; [reflexivity | done].
Qed.

(** C9. With no checkpoint and a non-empty deployment cache the vault source
    resolves to a bounded rescan, as the claim says: query, from
    [max (currentHead - 10000) 0]. The router source does not: on the same
    input its resolver answers "do not query" (with a start block of 0 that
    nothing reads), so the run sends no query to the router factory, keeps
    the cached list and moves the factory checkpoint to the head; the next
    run resumes behind that checkpoint, and a router the factory deployed
    before it (here at block 59000, inside the window the vault source
    rescans) is never discovered. *)
Theorem cached_router_discovery_is_skipped :
  let run1 := fetchRouters late_router_provider (fun _ => None)
                recheck_interval_default (Some 400) 100 no_oracle_data
                world_cached_no_checkpoint in
  let run2 := fetchRouters late_router_provider (fun _ => None)
                recheck_interval_default (Some 400) 100 no_oracle_data
                run1.2 in
  evaluateVaultFactoryQuery (Some 400) 60000 world_cached_no_checkpoint
  = (Ok {| fromBlock := 50000; shouldQueryFactory := true |},
     world_cached_no_checkpoint)
  /\ evaluateRouterFactoryQuery (Some 400) world_cached_no_checkpoint
     = (Ok {| fromBlock := 0; shouldQueryFactory := false |},
        world_cached_no_checkpoint)
  /\ run1.1 = Ok tt
  /\ List.filter (is_query_to ROUTER_FACTORY) (trace run1.2) = []
  /\ routerDeploymentsFile run1.2 = [router1]
  /\ lastRouterFactoryBlock (progress run1.2) = Some 60000
  /\ run2.1 = Ok tt
  /\ List.filter (is_query_to ROUTER_FACTORY) (trace run2.2)
     = [QueryFilter ROUTER_FACTORY 60001 60100 10000]
  /\ routerDeploymentsFile run2.2 = [router1].
Proof.
  cbv zeta. split.
  { apply (proj1 (cached_without_checkpoint (Some 400) (Some 400) 60000
                    world_cached_no_checkpoint)); [reflexivity | done]. }
  split; [reflexivity |]. by vm_compute.
Qed.

(** * Further properties *)

(** ** The batch event fetcher: windows, pauses, order *)

(** X1. Whatever the node answers, with a batch size of at least one block
    every query the fetcher sends asks for a non-empty window that lies
    inside the requested range and spans at most batchSize blocks; this
    holds for the retries as well. *)
Theorem fetch_queries_stay_in_range {A} fuel (c : Contract A)
    fromBlock toBlock batchSize w :
  1 <= batchSize ->
  exists ext,
    trace (queryEventsInBatches fuel c fromBlock toBlock batchSize w).2
    = trace w ++ ext
    /\ Forall (fun '(f, t) =>
                 fromBlock <= f /\ f <= t /\ t <= toBlock
                 /\ t - f < batchSize)
         (query_windows ext).
Proof.
  intros Hb.
  destruct (queryEventsInBatches_windows fuel c fromBlock toBlock batchSize w Hb)
    as (_ & _ & _ & ext & Hext & Hall).
  exists ext. split; [exact Hext | by apply query_windows_in_range].
Qed.

Lemma fetch_queries_stay_in_range_witness :
  exists ext,
    trace (queryEventsInBatches 100 unreachable_contract 1 10000
             default_batchSize empty_world).2
    = trace empty_world ++ ext
    /\ Forall (fun '(f, t) =>
                 1 <= f /\ f <= t /\ t <= 10000 /\ t - f < default_batchSize)
         (query_windows ext).
Proof.
  apply (fetch_queries_stay_in_range 100 unreachable_contract 1 10000
           default_batchSize empty_world).
  unfold default_batchSize. lia.
Defined.

Lemma ordered_events_nil {A} cur to : @ordered_events A cur to [].
Proof. split; constructor. Qed.

Lemma ordered_events_app {A} cur mid to (l1 l2 : list (log A)) :
  cur <= mid + 1 -> mid <= to ->
  ordered_events cur mid l1 -> ordered_events (mid + 1) to l2 ->
  ordered_events cur to (l1 ++ l2).
Proof.
  intros Hc Hm [Hin1 Hs1] [Hin2 Hs2]. split.
  - apply Forall_app. split.
    + eapply Forall_impl; [exact Hin1 |]. simpl. intros e [? ?]. split; [done | lia].
    + eapply Forall_impl; [exact Hin2 |]. simpl. intros e [? ?]. split; [done | lia].
  - rewrite fmap_app. apply StronglySorted_app_2; [| done | done].
    intros x1 x2 H1 H2.
    apply list_elem_of_fmap in H1 as (e1 & -> & He1).
    apply list_elem_of_fmap in H2 as (e2 & -> & He2).
    rewrite Forall_forall in Hin1, Hin2.
    destruct (Hin1 e1 He1) as [_ ?]. destruct (Hin2 e2 He2) as [_ ?]. lia.
Qed.

Lemma ordered_events_filter {A} cur to (events : list (log A)) :
  Forall (fun e => cur <= blockNumber e <= to) events ->
  StronglySorted Z.le (blockNumber <$> events) ->
  ordered_events cur to (List.filter is_EventLog events).
Proof.
  induction events as [|e events IH]; intros Hin Hs; [apply ordered_events_nil |].
  apply Forall_cons in Hin as [He Hin].
  apply StronglySorted_inv in Hs as [Hs Hle].
  destruct (IH Hin Hs) as [IH1 IH2]. simpl.
  destruct (is_EventLog e) eqn:Hd; [| by split].
  split; [by constructor |]. simpl. constructor; [done |].
  rewrite Forall_forall in Hle |- *. intros x Hx. apply Hle.
  apply list_elem_of_fmap in Hx as (e' & -> & He').
  apply list_elem_of_fmap. exists e'. split; [done |].
  apply list_elem_of_In in He'. apply filter_In in He' as [He' _].
  by apply list_elem_of_In.
Qed.

Lemma queryEventsInBatches_ordered {A} fuel (c : Contract A) :
  answers_in_order c ->
  forall cur to b w events w', 1 <= b ->
    queryEventsInBatches fuel c cur to b w = (Ok events, w') ->
    ordered_events cur to events.
Proof.
  intros Hnode.
  induction fuel as [|fuel IH]; intros cur to b w events w' Hb; simpl.
  - destruct (cur <=? to); [done |]. intros [= <- <-]. apply ordered_events_nil.
  - destruct (Z.leb_spec cur to) as [Hle|Hgt];
      [| intros [= <- <-]; apply ordered_events_nil].
    set (endBlock := Z.min (cur + b - 1) to).
    assert (Hend : cur <= endBlock <= to) by (unfold endBlock; lia).
    unfold bind at 1. unfold try_catch, bind at 1. unfold queryFilter.
    set (w1 := log_effect (QueryFilter (target c) cur endBlock b) w).
    destruct (queryFilter_response c (length (trace w)) cur endBlock)
      as [msg|answer] eqn:Hresp.
    + unfold bind at 1, console_error.
      match goal with |- context [log_effect (ConsoleError ?m) w1] =>
        set (w2 := log_effect (ConsoleError m) w1) end.
      destruct ((if b >? 1000
                 then queryEventsInBatches fuel c cur endBlock (b / 2)
                 else ret []) w2) as [[smaller| | |] w3] eqn:Hretry; try done.
      assert (Hsmaller : ordered_events cur endBlock smaller).
      { destruct (b >? 1000) eqn:Hbig.
        - apply Z.gtb_lt in Hbig.
          apply IH in Hretry; [done |]. apply Z.div_le_lower_bound; lia.
        - injection Hretry as <- <-. apply ordered_events_nil. }
      unfold bind at 1, sleep. unfold bind.
      destruct (queryEventsInBatches fuel c (endBlock + 1) to b
                  (log_effect (Sleep 200) w3)) as [[rest| | |] w5] eqn:Hrest;
        try done.
      intros [= <- <-]. apply IH in Hrest; [| done].
      apply ordered_events_app with (mid := endBlock); [lia | lia | done | done].
    + unfold ret at 1. unfold bind at 1, sleep. unfold bind.
      destruct (queryEventsInBatches fuel c (endBlock + 1) to b
                  (log_effect (Sleep 200) w1)) as [[rest| | |] w3] eqn:Hrest;
        try done.
      intros [= <- <-]. apply IH in Hrest; [| done].
      destruct (Hnode _ _ _ _ Hresp) as [Hin Hs].
      apply ordered_events_app with (mid := endBlock); [lia | lia | | done].
      by apply ordered_events_filter.
Qed.

(** A node that reports one decoded event and one undecoded log at every
    block that is a multiple of 4000. *)
Lemma sample_node_answers_in_order : answers_in_order sample_contract.
Proof.
  intros n f t events. unfold sample_contract. simpl.
  intros [= <-]. clear n.
  assert (Hgen : forall (k : nat) (x : Z),
            Forall (fun e : log unit => f <= blockNumber e <= t)
              (sample_logs k x f t)
            /\ Forall (fun y => x <= y) (blockNumber <$> sample_logs k x f t)
            /\ StronglySorted Z.le (blockNumber <$> sample_logs k x f t)).
  { induction k as [|k IHk]; intros x; simpl.
    - repeat split; constructor.
    - destruct (IHk (x + 4000)) as (H1 & H2 & H3).
      destruct ((f <=? x) && (x <=? t))%bool eqn:Hin.
      + apply andb_true_iff in Hin as [Hf Ht].
        apply Z.leb_le in Hf. apply Z.leb_le in Ht. simpl.
        assert (Hle : Forall (Z.le x) (blockNumber <$> sample_logs k (x + 4000) f t)).
        { eapply Forall_impl; [exact H2 |]. simpl. lia. }
        repeat split.
        * repeat constructor; simpl; try lia. exact H1.
        * repeat constructor; try lia. exact Hle.
        * constructor; [constructor; [exact H3 | exact Hle] |].
          constructor; [lia | exact Hle].
      + repeat split; [exact H1 | | exact H3].
        eapply Forall_impl; [exact H2 |]. simpl. lia. }
  destruct (Hgen 10%nat 0) as (H1 & _ & H3). by split.
Qed.

(** X2. Under a node that answers each query with logs of the queried window
    in ascending block order, a fetch with a batch size of at least one
    block returns decoded events only, all of them from the requested range,
    in ascending block order; retried and dropped batches do not disturb the
    order. *)
Theorem fetch_returns_ordered_events {A} fuel (c : Contract A)
    fromBlock toBlock batchSize w events w' :
  answers_in_order c ->
  1 <= batchSize ->
  queryEventsInBatches fuel c fromBlock toBlock batchSize w = (Ok events, w') ->
  Forall (fun e => is_EventLog e = true
                   /\ fromBlock <= blockNumber e <= toBlock) events
  /\ StronglySorted Z.le (blockNumber <$> events).
Proof.
  intros Hnode Hb Hrun.
  by apply (queryEventsInBatches_ordered fuel c Hnode _ _ _ _ _ _ Hb Hrun).
Qed.

Lemma fetch_returns_ordered_events_witness :
  Forall (fun e : log unit =>
            is_EventLog e = true /\ 3000 <= blockNumber e <= 30000)
    [EventLog 4000 tt; EventLog 8000 tt; EventLog 12000 tt; EventLog 16000 tt;
     EventLog 20000 tt; EventLog 24000 tt; EventLog 28000 tt]
  /\ StronglySorted Z.le
       (blockNumber <$>
          [EventLog 4000 tt; EventLog 8000 tt; EventLog 12000 tt;
           EventLog 16000 tt; EventLog 20000 tt; EventLog 24000 tt;
           @EventLog unit 28000 tt]).
Proof.
  apply (fetch_returns_ordered_events 100 sample_contract 3000 30000
           default_batchSize empty_world _
           (queryEventsInBatches 100 sample_contract 3000 30000
              default_batchSize empty_world).2).
  - exact sample_node_answers_in_order.
  - unfold default_batchSize. lia.
  - reflexivity.
Defined.

(** X3. With a batch size of zero or less and a range that is not empty the
    loop of the fetcher never ends: the window it queries lies behind the
    current block, the current block does not advance, and no amount of
    fuel brings a result. *)
Theorem fetch_with_no_batch_size_never_ends {A} fuel (c : Contract A)
    fromBlock toBlock batchSize w :
  batchSize <= 0 ->
  fromBlock <= toBlock ->
  (queryEventsInBatches fuel c fromBlock toBlock batchSize w).1 = OutOfFuel.
Proof.
  intros Hb. revert fromBlock w.
  induction fuel as [|fuel IH]; intros cur w Hle; simpl.
  - by replace (cur <=? toBlock) with true by (symmetry; apply Z.leb_le; lia).
  - replace (cur <=? toBlock) with true by (symmetry; apply Z.leb_le; lia).
    set (endBlock := Z.min (cur + batchSize - 1) toBlock).
    assert (Hend : endBlock + 1 <= toBlock) by (unfold endBlock; lia).
    unfold bind at 1. unfold try_catch, bind at 1. unfold queryFilter.
    destruct (queryFilter_response c (length (trace w)) cur endBlock)
      as [msg|answer].
    + unfold bind at 1, console_error.
      replace (batchSize >? 1000) with false
        by (symmetry; rewrite Z.gtb_ltb; apply Z.ltb_ge; lia).
      unfold ret at 1. unfold bind at 1, sleep. unfold bind.
      match goal with |- context [queryEventsInBatches fuel c _ _ _ ?w0] =>
        specialize (IH (endBlock + 1) w0 Hend);
        destruct (queryEventsInBatches fuel c (endBlock + 1) toBlock batchSize w0)
          as [[rest| | |] w5] end; done.
    + unfold ret at 1. unfold bind at 1, sleep. unfold bind.
      match goal with |- context [queryEventsInBatches fuel c _ _ _ ?w0] =>
        specialize (IH (endBlock + 1) w0 Hend);
        destruct (queryEventsInBatches fuel c (endBlock + 1) toBlock batchSize w0)
          as [[rest| | |] w5] end; done.
Qed.

Lemma fetch_with_no_batch_size_never_ends_witness :
  (queryEventsInBatches 50 silent_contract 1 10 0 empty_world).1 = OutOfFuel.
Proof.
  apply (fetch_with_no_batch_size_never_ends 50 silent_contract 1 10 0
           empty_world); lia.
Defined.

Lemma pauses_app tr1 tr2 : pauses (tr1 ++ tr2) = pauses tr1 ++ pauses tr2.
Proof. unfold pauses. apply omap_app. Qed.

Lemma queryEventsInBatches_pauses {A} fuel (c : Contract A) :
  forall cur to b w r w',
    queryEventsInBatches fuel c cur to b w = (r, w') ->
    exists ext,
      trace w' = trace w ++ ext
      /\ Forall (fun ms => ms = 200) (pauses ext)
      /\ (length (pauses ext) <= length (query_windows ext))%nat
      /\ (forall events, r = Ok events ->
            length (pauses ext) = length (query_windows ext)).
Proof.
  induction fuel as [|fuel IH]; intros cur to b w r w'; simpl.
  - destruct (cur <=? to); intros [= <- <-]; exists [];
      (split; [by rewrite app_nil_r | done]).
  - destruct (cur <=? to); cycle 1.
    { intros [= <- <-]. exists []. split; [by rewrite app_nil_r | done]. }
    set (endBlock := Z.min (cur + b - 1) to).
    unfold bind at 1. unfold try_catch, bind at 1. unfold queryFilter.
    set (q := QueryFilter (target c) cur endBlock b).
    destruct (queryFilter_response c (length (trace w)) cur endBlock)
      as [msg|answer].
    + unfold bind at 1, console_error.
      match goal with |- context [log_effect (ConsoleError ?m) _] =>
        set (ce := ConsoleError m) end.
      assert (Hretry : forall r1 w3,
                (if b >? 1000
                 then queryEventsInBatches fuel c cur endBlock (b / 2)
                 else ret []) (log_effect ce (log_effect q w)) = (r1, w3) ->
                exists ext,
                  trace w3 = trace w ++ [q; ce] ++ ext
                  /\ Forall (fun ms => ms = 200) (pauses ext)
                  /\ (length (pauses ext) <= length (query_windows ext))%nat
                  /\ (forall events, r1 = Ok events ->
                        length (pauses ext) = length (query_windows ext))).
      { intros r1 w3. destruct (b >? 1000).
        - intros Hrun. apply IH in Hrun as (ext & Hext & Hrest).
          exists ext. split; [| done]. rewrite Hext. simpl.
          by rewrite <- !app_assoc.
        - intros [= <- <-]. exists []. split; [| done]. simpl.
          by rewrite <- !app_assoc. }
      destruct ((if b >? 1000
                 then queryEventsInBatches fuel c cur endBlock (b / 2)
                 else ret []) (log_effect ce (log_effect q w)))
        as [r1 w3] eqn:Hrun1.
      destruct (Hretry r1 w3 eq_refl) as (ext1 & Hext1 & Hp1 & Hle1 & Heq1).
      destruct r1 as [smaller| | |].
      2,3,4: intros [= <- <-]; exists ([q; ce] ++ ext1);
        (split; [done |]); rewrite pauses_app, query_windows_app; simpl;
        (split; [done |]); (split; [lia | done]).
      unfold bind at 1, sleep. unfold bind.
      destruct (queryEventsInBatches fuel c (endBlock + 1) to b
                  (log_effect (Sleep 200) w3)) as [r2 w5] eqn:Hrun2.
      apply IH in Hrun2 as (ext2 & Hext2 & Hp2 & Hle2 & Heq2).
      specialize (Heq1 smaller eq_refl).
      intros Hres.
      exists ([q; ce] ++ ext1 ++ [Sleep 200] ++ ext2). split.
      { assert (w' = w5) as -> by (destruct r2; by injection Hres).
        rewrite Hext2. simpl. rewrite Hext1. by rewrite <- !app_assoc. }
      rewrite !pauses_app, !query_windows_app. simpl.
      rewrite !length_app. simpl.
      split; [apply Forall_app; split; [done | by constructor] |].
      split; [lia |].
      intros events ->. destruct r2 as [rest| | |]; try done.
      specialize (Heq2 rest eq_refl). lia.
    + unfold ret at 1. unfold bind at 1, sleep. unfold bind.
      destruct (queryEventsInBatches fuel c (endBlock + 1) to b
                  (log_effect (Sleep 200) (log_effect q w))) as [r2 w5] eqn:Hrun2.
      apply IH in Hrun2 as (ext2 & Hext2 & Hp2 & Hle2 & Heq2).
      intros Hres.
      exists ([q; Sleep 200] ++ ext2). split.
      { assert (w' = w5) as -> by (destruct r2; by injection Hres).
        rewrite Hext2. simpl. by rewrite <- !app_assoc. }
      rewrite !pauses_app, !query_windows_app. simpl.
      split; [by constructor |]. split; [lia |].
      intros events ->. destruct r2 as [rest| | |]; try done.
      specialize (Heq2 rest eq_refl). lia.
Qed.

(** X4. Every pause of the fetcher lasts 200 ms, and a fetch that comes to
    its end has paused exactly once for every query it sent, whether the
    query succeeded, was retried or was dropped. *)
Theorem fetch_pauses_once_per_query {A} fuel (c : Contract A)
    fromBlock toBlock batchSize w events w' :
  queryEventsInBatches fuel c fromBlock toBlock batchSize w = (Ok events, w') ->
  exists ext,
    trace w' = trace w ++ ext
    /\ Forall (fun ms => ms = 200) (pauses ext)
    /\ length (pauses ext) = length (query_windows ext).
Proof.
  intros Hrun.
  apply queryEventsInBatches_pauses in Hrun as (ext & Hext & Hp & _ & Heq).
  exists ext. split; [done |]. split; [done |]. by apply (Heq events).
Qed.

Lemma fetch_pauses_once_per_query_witness :
  exists ext,
    trace (queryEventsInBatches 100 unreachable_contract 1 10000
             default_batchSize empty_world).2
    = trace empty_world ++ ext
    /\ Forall (fun ms => ms = 200) (pauses ext)
    /\ length (pauses ext) = length (query_windows ext).
Proof.
  apply (fetch_pauses_once_per_query 100 unreachable_contract 1 10000
           default_batchSize empty_world []).
  reflexivity.
Defined.

Lemma queryEventsInBatches_tiles {A} (c : Contract A) b :
  always_answers c -> 1 <= b ->
  forall (m : nat) cur to w, (Z.to_nat (to - cur + 1) <= m)%nat ->
    exists fuel0 events ext,
      (forall fuel, (fuel0 <= fuel)%nat ->
         queryEventsInBatches fuel c cur to b w
         = (Ok events, add_trace w ext))
      /\ Forall (fun s => s = b) (batch_sizes ext)
      /\ forall k,
           (cur <= k <= to -> times_queried k (query_windows ext) = 1%nat)
           /\ (k < cur -> times_queried k (query_windows ext) = 0%nat).
Proof.
  intros Hnode Hb.
  induction m as [|m IHm]; intros cur to w Hm.
  - exists O, [], []. split; [| split; [constructor | intros k; split; [lia | done]]].
    intros fuel _. rewrite queryEventsInBatches_past_end by lia.
    unfold add_trace. rewrite app_nil_r. by destruct w.
  - destruct (Z.leb_spec cur to) as [Hle|Hgt]; cycle 1.
    { exists O, [], []. split; [| split; [constructor | intros k; split; [lia | done]]].
      intros fuel _. rewrite queryEventsInBatches_past_end by lia.
      unfold add_trace. rewrite app_nil_r. by destruct w. }
    set (endBlock := Z.min (cur + b - 1) to).
    assert (Hend : cur <= endBlock <= to) by (unfold endBlock; lia).
    set (q := QueryFilter (target c) cur endBlock b).
    destruct (Hnode (length (trace w)) cur endBlock) as [answer Hresp].
    destruct (IHm (endBlock + 1) to (log_effect (Sleep 200) (log_effect q w)))
      as (f2 & rest & ext2 & Hrun2 & Hsizes & Hcount); [lia |].
    exists (S f2), (List.filter is_EventLog answer ++ rest),
           ([q; Sleep 200] ++ ext2).
    split; [| split].
    + intros [|fuel] Hfuel; [lia |]. simpl.
      replace (cur <=? to) with true by (symmetry; apply Z.leb_le; lia).
      fold endBlock. unfold bind at 1. unfold try_catch, bind at 1, queryFilter.
      rewrite Hresp. unfold ret at 1. unfold bind at 1, sleep. fold q.
      unfold bind. rewrite Hrun2 by lia. unfold ret. f_equal.
      unfold add_trace, log_effect. simpl. by rewrite <- !app_assoc.
    + simpl. by constructor.
    + intros k. destruct (Hcount k) as [Hin Hout].
      unfold times_queried in *. simpl. split; intros Hk.
      * destruct (Z.leb_spec cur k) as [Hck|Hck]; [| lia].
        destruct (Z.leb_spec k endBlock) as [Hke|Hke]; simpl.
        -- rewrite Hout by lia. done.
        -- apply Hin. lia.
      * destruct (Z.leb_spec cur k) as [Hck|Hck]; [lia |]. simpl.
        apply Hout. lia.
Qed.

Lemma silent_contract_always_answers : always_answers silent_contract.
Proof. intros n f t. by exists []. Qed.

(** X5. Under a node that answers every query, a fetch with a batch size of
    at least one block comes to an end without a retry, and its queries
    tile the requested range: every block from fromBlock to toBlock lies in
    exactly one queried window. The events returned do not depend on the
    fuel once it suffices. *)
Theorem fetch_covers_each_block_once {A} (c : Contract A)
    fromBlock toBlock batchSize w :
  always_answers c ->
  1 <= batchSize ->
  exists fuel0 events ext,
    (forall fuel, (fuel0 <= fuel)%nat ->
       queryEventsInBatches fuel c fromBlock toBlock batchSize w
       = (Ok events, add_trace w ext))
    /\ Forall (fun s => s = batchSize) (batch_sizes ext)
    /\ forall k, fromBlock <= k <= toBlock ->
         times_queried k (query_windows ext) = 1%nat.
Proof.
  intros Hnode Hb.
  destruct (queryEventsInBatches_tiles c batchSize Hnode Hb
              (Z.to_nat (toBlock - fromBlock + 1)) fromBlock toBlock w (le_n _))
    as (fuel0 & events & ext & Hrun & Hsizes & Hcount).
  exists fuel0, events, ext. split; [done |]. split; [done |].
  intros k Hk. by apply Hcount.
Qed.

Lemma fetch_covers_each_block_once_witness :
  exists fuel0 events ext,
    (forall fuel, (fuel0 <= fuel)%nat ->
       queryEventsInBatches fuel silent_contract 1 25000 default_batchSize
         empty_world
       = (Ok events, add_trace empty_world ext))
    /\ Forall (fun s => s = default_batchSize) (batch_sizes ext)
    /\ forall k, 1 <= k <= 25000 ->
         times_queried k (query_windows ext) = 1%nat.
Proof.
  apply (fetch_covers_each_block_once silent_contract 1 25000
           default_batchSize empty_world).
  - exact silent_contract_always_answers.
  - unfold default_batchSize. lia.
Defined.

(** ** Vendor attribution: case, vocabulary, classification *)

Lemma toLowerCase_empty s : toLowerCase s = EmptyString -> s = EmptyString.
Proof. by destruct s. Qed.

Lemma normalizeVendorName_canonical providerInfo :
  normalizeVendorName providerInfo ∈ canonical_vendor_names.
Proof.
  unfold normalizeVendorName, canonical_vendor_names.
  destruct providerInfo as [info|]; [| set_solver].
  destruct (String.eqb info EmptyString); [set_solver |].
  repeat match goal with
         | |- context [if ?b then _ else _] => destruct b; [set_solver |]
         end.
  set_solver.
Qed.

(** X6. The canonical vendor name of a provider label does not depend on
    the case of the label's letters, and it is always one of the sixteen
    fixed names: the label itself is never passed through. *)
Theorem vendor_name_ignores_case label1 label2 :
  toLowerCase label1 = toLowerCase label2 ->
  normalizeVendorName (Some label1) = normalizeVendorName (Some label2)
  /\ normalizeVendorName (Some label1) ∈ canonical_vendor_names.
Proof.
  intros Heq. split; [| apply normalizeVendorName_canonical].
  unfold normalizeVendorName. rewrite Heq.
  destruct (String.eqb_spec label1 EmptyString) as [->|H1];
    destruct (String.eqb_spec label2 EmptyString) as [->|H2]; try done.
  - symmetry in Heq. by apply toLowerCase_empty in Heq.
  - by apply toLowerCase_empty in Heq.
Qed.

Lemma vendor_name_ignores_case_witness :
  normalizeVendorName (Some "CHAINLINK price feed")
  = normalizeVendorName (Some "chainlink Price Feed")
  /\ normalizeVendorName (Some "CHAINLINK price feed") ∈ canonical_vendor_names.
Proof.
  apply (vendor_name_ignores_case "CHAINLINK price feed" "chainlink Price Feed").
  reflexivity.
Defined.

Lemma find_pointwise {X} (f g : X -> bool) (l : list X) :
  (forall x, f x = g x) -> List.find f l = List.find g l.
Proof.
  intros Hfg. induction l as [|x l IH]; [done |]. simpl.
  rewrite Hfg, IH. done.
Qed.

(** X7. Vendor attribution depends on the adapter address only through its
    lower-case form: two spellings of one address (checksummed or not) get
    the same vendor information, whatever the registry, the composite table
    and the known vaults hold. *)
Theorem vendor_lookup_ignores_address_case adapter1 adapter2 oracleData :
  toLowerCase adapter1 = toLowerCase adapter2 ->
  getVendorForOracle adapter1 oracleData = getVendorForOracle adapter2 oracleData.
Proof.
  intros Heq. unfold getVendorForOracle.
  rewrite (find_pointwise (is_matching_vault adapter1)
             (is_matching_vault adapter2))
    by (intros v; unfold is_matching_vault; by rewrite Heq).
  rewrite (find_pointwise (is_matching_oracle adapter1)
             (is_matching_oracle adapter2))
    by (intros el; unfold is_matching_oracle; by rewrite Heq).
  assert (find_cross adapter1 (crossAnalysis oracleData)
          = find_cross adapter2 (crossAnalysis oracleData)) as ->; [| done].
  unfold find_cross.
  destruct (details (crossAnalysis oracleData)) as [ds|]; [| done].
  apply find_pointwise. intros c. unfold is_matching_cross. by rewrite Heq.
Qed.

Lemma vendor_lookup_ignores_address_case_witness :
  getVendorForOracle "0x10674C8C1AE2072D4A75FE83F1E159425FD84E1D" cross_registry
  = getVendorForOracle "0x10674c8c1ae2072d4a75fe83f1e159425fd84e1d" cross_registry.
Proof.
  apply (vendor_lookup_ignores_address_case
           "0x10674C8C1AE2072D4A75FE83F1E159425FD84E1D"
           "0x10674c8c1ae2072d4a75fe83f1e159425fd84e1d" cross_registry).
  reflexivity.
Defined.

(** X8. The vendor type tells how an address was resolved: it is "vault"
    exactly when some known vault has the address (ignoring case), and
    "error" exactly when no known vault has it and the registry lookup
    accepts no entry for it; in every other case it is "external". The
    underlying list is empty unless the vendor is "Cross", and then it has
    two names. *)
Theorem vendor_type_tells_resolution adapterAddress oracleData :
  let info := getVendorForOracle adapterAddress oracleData in
  let known_vault :=
    exists v, v ∈ vaultDeployments oracleData
              /\ toLowerCase (address v) = toLowerCase adapterAddress in
  let in_registry :=
    exists el, el ∈ eulerOracles oracleData
               /\ is_matching_oracle adapterAddress el = true in
  (vendorType info = vault <-> known_vault)
  /\ (vendorType info = error_type <-> ~ known_vault /\ ~ in_registry)
  /\ (vendorType info = external <-> ~ known_vault /\ in_registry)
  /\ (underlying info = []
      \/ (vendor info = "Cross" /\ vendorType info = external
          /\ length (underlying info) = 2%nat)).
Proof.
  cbv zeta. unfold getVendorForOracle.
  destruct (List.find (is_matching_vault adapterAddress)
              (vaultDeployments oracleData)) as [v|] eqn:Hv.
  { apply find_some in Hv as [Hin Hm]. apply list_elem_of_In in Hin.
    unfold is_matching_vault in Hm. apply String.eqb_eq in Hm.
    assert (Hk : exists v, v ∈ vaultDeployments oracleData
                 /\ toLowerCase (address v) = toLowerCase adapterAddress)
      by eauto.
    simpl. repeat split; try done; try (intros [? ?]; done). by left. }
  assert (Hnv : ~ exists v, v ∈ vaultDeployments oracleData
                /\ toLowerCase (address v) = toLowerCase adapterAddress).
  { intros (v & Hin & Hm). apply list_elem_of_In in Hin.
    pose proof (find_none _ _ Hv v Hin) as Hno.
    unfold is_matching_vault in Hno. by apply String.eqb_neq in Hno. }
  destruct (List.find (is_matching_oracle adapterAddress)
              (eulerOracles oracleData)) as [el|] eqn:Hel.
  - pose proof Hel as Hsome. apply find_some in Hsome as [Hin Hm].
    apply list_elem_of_In in Hin.
    assert (Hreg : exists el, el ∈ eulerOracles oracleData
                   /\ is_matching_oracle adapterAddress el = true) by eauto.
    pose proof Hm as Hm'.
    apply is_matching_oracle_address in Hm' as (fa & Hfa & Hz & _).
    rewrite Hfa, Hz.
    assert (String.eqb fa EmptyString = false) as ->.
    { apply String.eqb_neq. unfold fullAddress_of in Hfa.
      destruct (addressLink el) as [link|]; [| done].
      by apply (match_address_nonempty link). }
    assert (Hext : forall info,
              vendorType info = external ->
              (vendorType info = vault <-> exists v : VaultDeployment,
                  v ∈ vaultDeployments oracleData
                  /\ toLowerCase (address v) = toLowerCase adapterAddress)
              /\ (vendorType info = error_type <->
                  (~ exists v : VaultDeployment,
                       v ∈ vaultDeployments oracleData
                       /\ toLowerCase (address v) = toLowerCase adapterAddress)
                  /\ ~ exists el0, el0 ∈ eulerOracles oracleData
                       /\ is_matching_oracle adapterAddress el0 = true)
              /\ (vendorType info = external <->
                  (~ exists v : VaultDeployment,
                       v ∈ vaultDeployments oracleData
                       /\ toLowerCase (address v) = toLowerCase adapterAddress)
                  /\ exists el0, el0 ∈ eulerOracles oracleData
                       /\ is_matching_oracle adapterAddress el0 = true)).
    { intros info ->. repeat split; try done. intros [_ Hno]. done. }
    destruct (String.eqb (normalizeVendorName (providerInfo el)) "Cross") eqn:Hc.
    + destruct (find_cross adapterAddress (crossAnalysis oracleData)) as [c|].
      * destruct (negb (truthy (error c))); simpl.
        -- destruct (Hext {| vendor := "Cross";
                             underlying :=
                               [normalizeVendorName (baseCrossName c);
                                normalizeVendorName (crossQuoteName c)];
                             vendorType := external |} eq_refl) as (? & ? & ?).
           repeat split; try tauto; by right.
        -- destruct (Hext {| vendor := normalizeVendorName (providerInfo el);
                             underlying := []; vendorType := external |}
                       eq_refl) as (? & ? & ?).
           repeat split; try tauto; by left.
      * simpl.
        destruct (Hext {| vendor := normalizeVendorName (providerInfo el);
                          underlying := []; vendorType := external |}
                    eq_refl) as (? & ? & ?).
        repeat split; try tauto; by left.
    + simpl.
      destruct (Hext {| vendor := normalizeVendorName (providerInfo el);
                        underlying := []; vendorType := external |}
                  eq_refl) as (? & ? & ?).
      repeat split; try tauto; by left.
  - assert (Hnr : ~ exists el, el ∈ eulerOracles oracleData
                  /\ is_matching_oracle adapterAddress el = true).
    { intros (el & Hin & Hm). apply list_elem_of_In in Hin.
      pose proof (find_none _ _ Hel el Hin) as Hno. congruence. }
    simpl. repeat split; try done; try tauto; by left.
Qed.

(** ** The router record and the router pass *)

Lemma fold_config_events_adapters events : forall acc,
  NoDup acc.1 ->
  NoDup (foldl add_config_event acc events).1
  /\ forall y, y ∈ (foldl add_config_event acc events).1
               <-> y ∈ acc.1 \/ oracle_of_events events y.
Proof.
  induction events as [|e events IH]; intros acc Hacc; simpl.
  - split; [done |]. intros y. split; [by left |].
    intros [? | (b & args & Hin & _)]; [done | by apply elem_of_nil in Hin].
  - assert (Hstep : NoDup (add_config_event acc e).1).
    { destruct e; simpl; [by apply Set_add_NoDup | done]. }
    destruct (IH (add_config_event acc e) Hstep) as [Hnd Hel].
    split; [done |]. intros y. rewrite Hel. unfold oracle_of_events.
    destruct e as [b args|b]; simpl.
    + rewrite Set_add_elem. split.
      * intros [[-> | ?] | (b' & args' & Hin & Ho)]; [| by left |].
        -- right. exists b, args. split; [by left | done].
        -- right. exists b', args'. split; [by right | done].
      * intros [? | (b' & args' & Hin & Ho)]; [by left; right |].
        apply elem_of_cons in Hin as [[= <- <-] | Hin]; [by left; left |].
        right. by exists b', args'.
    + split.
      * intros [? | (b' & args' & Hin & Ho)]; [by left |].
        right. exists b', args'. split; [by right | done].
      * intros [? | (b' & args' & Hin & Ho)]; [by left |].
        apply elem_of_cons in Hin as [? | Hin]; [done |].
        right. by exists b', args'.
Qed.

Lemma vendorInfo_of_lookup od l a :
  vendorInfo_of od l !! a
  = if decide (a ∈ l) then Some (getVendorForOracle a od) else None.
Proof.
  unfold vendorInfo_of.
  assert (Hgen : forall m : gmap string VendorInfo,
            foldl (fun m adapter =>
                     <[adapter := getVendorForOracle adapter od]> m) m l !! a
            = if decide (a ∈ l) then Some (getVendorForOracle a od)
              else m !! a).
  { induction l as [|x l IH]; intros m; simpl.
    - destruct (decide (a ∈ [])) as [Hin|]; [by apply elem_of_nil in Hin | done].
    - rewrite IH. destruct (decide (a ∈ l)) as [Hin|Hout].
      + rewrite decide_True by (by right). done.
      + destruct (decide (a = x)) as [->|Hne].
        * rewrite decide_True by (by left). by rewrite lookup_insert_eq.
        * rewrite decide_False by (rewrite elem_of_cons; tauto).
          by rewrite lookup_insert_ne. }
  rewrite Hgen. destruct (decide (a ∈ l)); [done | apply lookup_empty].
Qed.

Lemma fold_config_events_pairs events : forall acc b args,
  EventLog b args ∈ events ->
  exists l,
    (foldl add_config_event acc events).2
      !! (asset0 args +:+ "-" +:+ asset1 args) = Some l
    /\ oracle args ∈ l.
Proof.
  induction events as [|e events IH]; intros acc b args Hin;
    [by apply elem_of_nil in Hin |].
  apply elem_of_cons in Hin as [<- | Hin]; [| by apply (IH _ b)].
  simpl.
  destruct (fold_config_events_extends events
              (add_config_event acc (EventLog b args))) as [_ Hext].
  simpl in Hext.
  destruct (Hext (asset0 args +:+ "-" +:+ asset1 args)
              (default [] (acc.2 !! (asset0 args +:+ "-" +:+ asset1 args))
               ++ [oracle args])) as (l' & Hl' & Hpre).
  { by rewrite lookup_insert_eq. }
  exists l'. split; [done |].
  destruct Hpre as [k ->]. apply elem_of_app. left.
  apply elem_of_app. right. by apply list_elem_of_singleton.
Qed.

(** X9. The record the router pass writes is consistent in itself: its
    adapter list has no duplicates and holds exactly the adapters of the
    record it started from together with the oracles of the decoded events
    fetched; the vendor information has an entry, the current attribution,
    for exactly these adapters; and the oracle of every fetched event is
    listed under the asset pair of that event. *)
Theorem written_record_is_consistent od db existing configEvents :
  let new := merged_router_info od db existing configEvents in
  NoDup (adapters new)
  /\ (forall a,
        a ∈ adapters new
        <-> (exists old, existing = Some old /\ a ∈ adapters old)
            \/ oracle_of_events configEvents a)
  /\ (forall a,
        vendorInfo new !! a
        = if decide (a ∈ adapters new)
          then Some (getVendorForOracle a od) else None)
  /\ (forall b args,
        EventLog b args ∈ configEvents ->
        exists l,
          assetPairs new !! (asset0 args +:+ "-" +:+ asset1 args) = Some l
          /\ oracle args ∈ l).
Proof.
  cbv zeta. unfold merged_router_info. cbn [adapters vendorInfo assetPairs].
  set (adapters0 := match existing with
                    | Some info => Set_from_array (adapters info)
                    | None => []
                    end).
  set (pairs0 := match existing with
                 | Some info => assetPairs info
                 | None => ∅
                 end).
  assert (H0 : NoDup adapters0
               /\ forall y, y ∈ adapters0
                            <-> exists old, existing = Some old
                                            /\ y ∈ adapters old).
  { unfold adapters0. destruct existing as [old|].
    - destruct (Set_from_array_fold (adapters old) [] (NoDup_nil_2)) as [Hnd Hel].
      split; [done |]. intros y. unfold Set_from_array. rewrite Hel.
      rewrite elem_of_nil. split.
      + intros [[] | ?]. by exists old.
      + intros (old' & [= <-] & ?). by right.
    - split; [constructor |]. intros y. rewrite elem_of_nil.
      split; [done | by intros (? & ? & _)]. }
  destruct H0 as [Hnd0 Hel0].
  destruct (fold_config_events_adapters configEvents (adapters0, pairs0) Hnd0)
    as [Hnd Hel].
  split; [done |]. split; [| split].
  - intros a. rewrite Hel. simpl. by rewrite Hel0.
  - intros a. apply vendorInfo_of_lookup.
  - intros b args Hin. by apply (fold_config_events_pairs _ _ b).
Qed.

(** X10. A router without a checkpoint is analysed from its deployment
    block, whatever the recheck interval: with the ConfigSet filter present
    and enough fuel, every event query of the iteration goes to the router
    and asks for a window inside [deploymentBlock .. head], every block of
    that range lies in a queried window, the first thing sent is the query
    for the window that starts at deploymentBlock, and nothing else reaches
    the network; the record of the router is built from the fetched events
    alone (a record already stored under the address is replaced, not
    merged), and the checkpoint of the router becomes the head. *)
Theorem unseen_router_is_analysed_from_deployment P wfe R od head d w :
  processedRouters (progress w) !! address d = None ->
  ConfigSet_filter P (address d) = true ->
  exists fuel0 configEvents w1 w' ext,
    (forall fuel, (fuel0 <= fuel)%nat ->
       queryEventsInBatches fuel (router_contract P (address d))
         (deploymentBlock d) head default_batchSize w = (Ok configEvents, w1)
       /\ process_router P wfe R fuel od head d w = (Ok tt, w'))
    /\ trace w' = trace w ++ ext
    /\ Forall (router_fetch_effect (address d) (deploymentBlock d) head) ext
    /\ windows_cover (deploymentBlock d) head (query_windows ext)
    /\ (deploymentBlock d <= head ->
        exists rest,
          ext
          = QueryFilter (address d) (deploymentBlock d)
              (Z.min (deploymentBlock d + default_batchSize - 1) head)
              default_batchSize
            :: rest)
    /\ processedRouters (progress w') !! address d = Some head
    /\ routers (progress w') !! address d
       = Some (merged_router_info od (deploymentBlock d) None configEvents).
Proof.
  intros Hnone Hfilter.
  assert (Hs : schedule R (processedRouters (progress w) !! address d)
                 (deploymentBlock d) head = Query (deploymentBlock d) false).
  { by rewrite Hnone. }
  destruct (process_router_fetch P wfe R od head d w (deploymentBlock d) false
              Hs Hfilter)
    as (f0 & evs & w1 & fetched & Htrace & _ & Hall & Hcover & Hfirst & Hrun).
  set (p' := progress_after_analysis od (address d) (deploymentBlock d) head
               false evs (progress w)) in *.
  set (final := match wfe (length (trace w1)) with
                | Some msg => analysis_error_line msg
                | None => Sleep 200
                end) in *.
  exists f0, evs, w1,
    (log_effect final (log_effect (SaveProgress p') (set_progress p' w1))),
    (fetched ++ [SaveProgress p'; final]).
  split; [exact Hrun |].
  split; [simpl; by rewrite Htrace, <- !app_assoc |].
  split.
  { apply router_fetch_effect_tail; [done |].
    unfold final, analysis_error_line.
    by destruct (wfe (length (trace w1))). }
  split; [by apply windows_cover_more |].
  split.
  { intros Hle. destruct (Hfirst Hle) as [rest ->]. by eexists. }
  unfold p', progress_after_analysis. simpl. by rewrite !lookup_insert_eq.
Qed.

Lemma unseen_router_is_analysed_from_deployment_witness :
  exists fuel0 w' ext,
    (forall fuel, (fuel0 <= fuel)%nat ->
       process_router quiet_provider (fun _ => None) recheck_interval_default
         fuel no_oracle_data 60000 router1 world_cached_no_checkpoint
       = (Ok tt, w'))
    /\ trace w' = trace world_cached_no_checkpoint ++ ext
    /\ Forall (router_fetch_effect "0xR1" 500 60000) ext
    /\ windows_cover 500 60000 (query_windows ext)
    /\ (exists rest, ext = QueryFilter "0xR1" 500 10499 10000 :: rest)
    /\ processedRouters (progress w') !! "0xR1" = Some 60000.
Proof.
  destruct (unseen_router_is_analysed_from_deployment quiet_provider
              (fun _ => None) recheck_interval_default no_oracle_data 60000
              router1 world_cached_no_checkpoint)
    as (f0 & evs & w1 & w' & ext & Hrun & Htrace & Hall & Hcover & Hfirst
        & Hck & _).
  - reflexivity.
  - reflexivity.
  - exists f0, w', ext. split; [intros fuel Hfuel; by apply Hrun |].
    split; [exact Htrace |]. split; [exact Hall |].
    split; [exact Hcover |]. split; [apply Hfirst; simpl; lia | exact Hck].
Defined.

Lemma left_alone_after_iteration P wfe R fuel od head d w w' :
  0 < R ->
  process_router P wfe R fuel od head d w = (Ok tt, w') ->
  left_alone P R head (progress w') d.
Proof.
  intros HR. unfold process_router, bind, get_progress.
  destruct (schedule R (processedRouters (progress w) !! address d)
              (deploymentBlock d) head) as [|q isRecheck] eqn:Hs.
  - intros [= <-]. left. unfold schedule in Hs.
    destruct (processedRouters (progress w) !! address d) as [v|]; [| done].
    destruct (Z.ltb_spec (head - v) R); [| done]. by exists v.
  - unfold try_catch.
    destruct (analyze_router P wfe fuel od (address d) (deploymentBlock d)
                head q isRecheck w) as [r0 w0] eqn:Ha.
    apply analyze_router_cases in Ha
      as [(Hf & _) | (_ & r1 & w1 & Hq & Hcase)]; [intros _; by right |].
    destruct r1 as [configEvents| | |]; try done.
    + simpl in Hcase.
      destruct (wfe (length (trace w1))) as [msg|]; destruct Hcase as [-> ->];
        unfold console_error; intros [= <-]; left; exists head; simpl;
        (split; [by rewrite lookup_insert_eq | lia]).
    + by destruct Hcase as [-> ->].
Qed.

Lemma left_alone_kept P R head p p' d :
  0 < R -> checkpoints_advance R head p p' ->
  left_alone P R head p d -> left_alone P R head p' d.
Proof.
  intros HR [Hadv _] [(v & Hv & Hlt) | Hf]; [| by right].
  destruct (Hadv _ _ Hv) as (v' & Hv' & [-> | [-> _]]); left.
  - by exists v.
  - exists head. split; [done | lia].
Qed.

Lemma router_loop_leaves_all_alone P wfe R fuel od head ds :
  0 < R ->
  forall w w1,
    for_each (process_router P wfe R fuel od head) ds w = (Ok tt, w1) ->
    Forall (left_alone P R head (progress w1)) ds.
Proof.
  intros HR. induction ds as [|d ds IH]; intros w w1; [constructor |].
  cbn [for_each]. unfold bind.
  destruct (process_router P wfe R fuel od head d w) as [[[]| | |] wd] eqn:Hd;
    try done.
  intros Hrest. constructor; [| by eapply IH].
  apply left_alone_after_iteration in Hd; [| done].
  eapply left_alone_kept; [done | | exact Hd].
  revert Hrest.
  apply (for_each_preserves
           (fun w1 w2 => checkpoints_advance R head (progress w1) (progress w2))).
  - intros. apply checkpoints_advance_refl.
  - intros. by eapply checkpoints_advance_trans.
  - intros x w2 r1 w3. apply process_router_checkpoints.
Qed.

Lemma router_loop_over_routers_left_alone P wfe R fuel od head ds :
  forall w,
    Forall (left_alone P R head (progress w)) ds ->
    exists ext,
      for_each (process_router P wfe R fuel od head) ds w
      = (Ok tt, add_trace w ext)
      /\ Forall is_console_error ext.
Proof.
  induction ds as [|d ds IH]; intros w Hall.
  - exists []. split; [| constructor]. simpl. unfold ret, add_trace.
    rewrite app_nil_r. by destruct w.
  - apply Forall_cons in Hall as [Hd Hall]. cbn [for_each]. unfold bind.
    assert (Hstep : exists ext1,
              process_router P wfe R fuel od head d w = (Ok tt, add_trace w ext1)
              /\ Forall is_console_error ext1).
    { unfold process_router, bind, get_progress.
      destruct (schedule R (processedRouters (progress w) !! address d)
                  (deploymentBlock d) head) as [|q isRecheck] eqn:Hs.
      - exists []. split; [| constructor]. unfold ret, add_trace.
        rewrite app_nil_r. by destruct w.
      - destruct Hd as [(v & Hv & Hlt) | Hf].
        + rewrite Hv in Hs. unfold schedule in Hs.
          by replace (head - v <? R) with true in Hs
            by (symmetry; apply Z.ltb_lt; lia).
        + eexists [_]. unfold try_catch, analyze_router, bind at 1.
          cbn [has_filter router_contract]. rewrite Hf. unfold throw.
          unfold console_error. split; [reflexivity |].
          by repeat constructor. }
    destruct Hstep as (ext1 & -> & Hce1).
    destruct (IH (add_trace w ext1) Hall) as (ext2 & -> & Hce2).
    exists (ext1 ++ ext2). split.
    + unfold add_trace. simpl. by rewrite app_assoc.
    + by apply Forall_app.
Qed.

Lemma console_errors_no_query ext :
  Forall is_console_error ext -> batch_sizes ext = [].
Proof.
  induction 1 as [|e ext He _ IH]; [done |].
  unfold batch_sizes. destruct e; simpl; try done.
Qed.

(** X11. A pass over the routers is idempotent at one head: after a pass at
    a head has returned, a second pass over the same deployments at the same
    head, under a positive recheck interval, sends no event query and leaves
    the progress object exactly as the first pass left it; all it does is
    report again the routers whose analysis fails and save the progress
    once more. *)
Theorem second_pass_at_same_head_changes_nothing P wfe R fuel1 fuel2 od ds
    head w w1 :
  0 < R ->
  processRouterDeployments P wfe R fuel1 od ds head w = (Ok tt, w1) ->
  let run2 := processRouterDeployments P wfe R fuel2 od ds head w1 in
  progress run2.2 = progress w1
  /\ exists ext, trace run2.2 = trace w1 ++ ext /\ batch_sizes ext = [].
Proof.
  intros HR Hrun1. cbv zeta.
  unfold processRouterDeployments in Hrun1. unfold bind at 1 in Hrun1.
  destruct (for_each (process_router P wfe R fuel1 od head) ds w)
    as [[[]| | |] w0] eqn:Hloop1; try done.
  apply router_loop_leaves_all_alone in Hloop1; [| done].
  unfold bind, modify_progress, saveProgress in Hrun1. simpl in Hrun1.
  destruct (wfe (length (trace w0))); [done |]. injection Hrun1 as <-.
  set (w1 := log_effect _ _).
  assert (Hall : Forall (left_alone P R head (progress w1)) ds).
  { eapply Forall_impl; [exact Hloop1 |]. intros d. unfold left_alone. done. }
  destruct (router_loop_over_routers_left_alone P wfe R fuel2 od head ds w1 Hall)
    as (ext & Hloop2 & Hce).
  destruct (processRouterDeployments P wfe R fuel2 od ds head w1)
    as [r2 w2] eqn:Hrun2.
  unfold processRouterDeployments in Hrun2. unfold bind at 1 in Hrun2.
  rewrite Hloop2 in Hrun2.
  unfold bind, modify_progress, saveProgress in Hrun2. simpl in Hrun2.
  assert (w2 = log_effect
                 (SaveProgress (set_lastRouterFactoryBlock head (progress w0)))
                 (add_trace w1 ext)) as ->.
  { destruct (wfe _); by injection Hrun2 as _ <-. }
  simpl. split; [done |]. eexists. split; [by rewrite <- app_assoc |].
  by rewrite batch_sizes_app, (console_errors_no_query ext Hce).
Qed.

Lemma second_pass_at_same_head_changes_nothing_witness :
  let w1 := (processRouterDeployments quiet_provider (fun _ => None)
               recheck_interval_default 100 no_oracle_data [router1] 60000
               world_with_router1).2 in
  let run2 := processRouterDeployments quiet_provider (fun _ => None)
                recheck_interval_default 100 no_oracle_data [router1] 60000
                w1 in
  progress run2.2 = progress w1
  /\ exists ext, trace run2.2 = trace w1 ++ ext /\ batch_sizes ext = [].
Proof.
  apply (second_pass_at_same_head_changes_nothing quiet_provider
           (fun _ => None) recheck_interval_default 100 100 no_oracle_data
           [router1] 60000 world_with_router1).
  - unfold recheck_interval_default. lia.
  - reflexivity.
Defined.

(** ** The deployment cache *)

Lemma merge_deployments_elem all new d :
  d ∈ merge_deployments all new
  <-> d ∈ all
      \/ (d ∈ new /\ toLowerCase (address d) ∉ lower_addresses all).
Proof.
  unfold merge_deployments, lower_addresses.
  rewrite elem_of_app, !list_elem_of_In, filter_In, <- !list_elem_of_In.
  rewrite negb_true_iff, bool_decide_eq_false. tauto.
Qed.

Lemma merge_deployments_prefix all new :
  all `prefix_of` merge_deployments all new.
Proof. unfold merge_deployments. by eexists. Qed.

(** X12. Merging newly found deployments into the cache never drops or
    reorders a cached entry (the cache is a prefix of the result), adds only
    deployments whose address, ignoring case, is not cached yet, and loses no
    address: every incoming address is in the result. When neither the
    cache nor the incoming list names an address twice, the result names no
    address twice. *)
Theorem merge_deployments_extends_cache all new :
  all `prefix_of` merge_deployments all new
  /\ (forall d, d ∈ merge_deployments all new ->
        d ∈ all
        \/ (d ∈ new /\ toLowerCase (address d) ∉ lower_addresses all))
  /\ (forall d, d ∈ new ->
        toLowerCase (address d)
          ∈ lower_addresses (merge_deployments all new))
  /\ (NoDup (lower_addresses all) -> NoDup (lower_addresses new) ->
      NoDup (lower_addresses (merge_deployments all new))).
Proof.
  split; [apply merge_deployments_prefix |].
  split; [intros d; by rewrite merge_deployments_elem |].
  split.
  - intros d Hd.
    destruct (decide (toLowerCase (address d) ∈ lower_addresses all))
      as [Hin|Hout].
    + unfold lower_addresses in *.
      apply list_elem_of_fmap in Hin as (d' & Heq & Hd').
      apply list_elem_of_fmap. exists d'. split; [done |].
      apply merge_deployments_elem. by left.
    + apply list_elem_of_fmap. exists d. split; [done |].
      apply merge_deployments_elem. by right.
  - intros Hall Hnew. unfold merge_deployments, lower_addresses in *.
    rewrite fmap_app. apply NoDup_app. split; [done |]. split.
    + intros x Hx Hx'. apply list_elem_of_fmap in Hx' as (d & -> & Hd).
      apply list_elem_of_In, filter_In in Hd as [_ Hd].
      apply negb_true_iff, bool_decide_eq_false in Hd. done.
    + clear Hall. induction new as [|d new IH]; [constructor |].
      apply NoDup_cons in Hnew as [Hd Hnew]. simpl.
      destruct (negb _); [| by apply IH]. simpl. apply NoDup_cons.
      split; [| by apply IH].
      intros Hin. apply Hd. apply list_elem_of_fmap in Hin as (d' & Heq & Hd').
      apply list_elem_of_fmap. exists d'. split; [done |].
      apply list_elem_of_In, filter_In in Hd' as [Hd' _].
      by apply list_elem_of_In.
Qed.

Lemma merge_deployments_extends_cache_witness :
  NoDup (lower_addresses
           (merge_deployments mixed_case_deployments incoming_deployments)).
Proof.
  apply (merge_deployments_extends_cache mixed_case_deployments
           incoming_deployments).
  - compute_done.
  - compute_done.
Defined.

(** ** The router step as a whole *)

Lemma router_only_refl w : router_only w w.
Proof. by repeat split. Qed.

Lemma router_only_trans w1 w2 w3 :
  router_only w1 w2 -> router_only w2 w3 -> router_only w1 w3.
Proof.
  intros [(H1 & H2 & H3 & H4) H5] [(H1' & H2' & H3' & H4') H5'].
  repeat split; congruence.
Qed.

Lemma only_emits_router_only Q w w' : only_emits Q w w' -> router_only w w'.
Proof.
  intros (Hp & Hr & Hv & _). repeat split; try done; by rewrite Hp.
Qed.

Lemma process_router_router_only P wfe R fuel od head d w r w' :
  process_router P wfe R fuel od head d w = (r, w') -> router_only w w'.
Proof.
  unfold process_router, bind, get_progress.
  destruct (schedule R (processedRouters (progress w) !! address d)
              (deploymentBlock d) head) as [|q isRecheck].
  { intros [= <- <-]. apply router_only_refl. }
  unfold try_catch.
  destruct (analyze_router P wfe fuel od (address d) (deploymentBlock d)
              head q isRecheck w) as [r0 w0] eqn:Ha.
  apply analyze_router_cases in Ha
    as [(_ & -> & ->) | (_ & r1 & w1 & Hq & Hcase)].
  { unfold console_error. intros [= <- <-]. by repeat split. }
  pose proof (queryEventsInBatches_trace fuel (router_contract P (address d))
                q head default_batchSize w) as Htr.
  rewrite Hq in Htr. destruct Htr as [_ Hem].
  apply only_emits_router_only in Hem. destruct Hem as [(E1 & E2 & E3 & E4) E5].
  destruct r1 as [configEvents| | |]; try done.
  - simpl in Hcase.
    destruct (wfe (length (trace w1))) as [msg|]; destruct Hcase as [-> ->];
      unfold console_error; intros [= <- <-]; repeat split; simpl;
      unfold progress_after_analysis; simpl; congruence.
  - destruct Hcase as [-> ->]. intros [= <- <-]. by repeat split.
Qed.

Lemma processRouterDeployments_outcome P wfe R fuel od ds head w r w' :
  processRouterDeployments P wfe R fuel od ds head w = (r, w') ->
  router_only w w'
  /\ (r = Ok tt ->
      lastRouterFactoryBlock (progress w') = Some head
      /\ exists w0,
           for_each (process_router P wfe R fuel od head) ds w = (Ok tt, w0)
           /\ processedRouters (progress w') = processedRouters (progress w0)).
Proof.
  unfold processRouterDeployments. unfold bind at 1.
  destruct (for_each (process_router P wfe R fuel od head) ds w)
    as [r0 w0] eqn:Hloop.
  assert (Hro : router_only w w0).
  { revert Hloop. apply (for_each_preserves router_only).
    - apply router_only_refl.
    - apply router_only_trans.
    - intros x w1 r1 w2. apply process_router_router_only. }
  destruct r0 as [[]| | |]; try (intros [= <- <-]; by split).
  unfold bind, modify_progress, saveProgress. simpl.
  destruct Hro as [(E1 & E2 & E3 & E4) E5].
  destruct (wfe (length (trace w0))); intros [= <- <-];
    (split; [by repeat split; simpl |]); [done |].
  intros _. split; [done |]. by exists w0.
Qed.





Lemma bind_getBlockNumber_ext {A} P (k1 k2 : Z -> M A) w :
  (forall head,
     k1 head (log_effect GetBlockNumber w)
     = k2 head (log_effect GetBlockNumber w)) ->
  bind (getBlockNumber P) k1 w = bind (getBlockNumber P) k2 w.
Proof.
  intros Hk. unfold bind, getBlockNumber.
  by destruct (getBlockNumber_response P (length (trace w))).
Qed.

(** X14. With cached router deployments and no router-factory checkpoint
    the router step does not look for new deployments at all: it is the
    request for the head followed by the pass over the cached routers. When
    it returns normally the deployment file is what it was, and the
    checkpoint is the head all the same, so the next run resumes behind the
    head and the blocks before it are never scanned for deployments. *)
Theorem cached_routers_skip_discovery P wfe R start fuel od w :
  routerDeploymentsFile w <> [] ->
  truthy_number (lastRouterFactoryBlock (progress w)) = false ->
  fetchRouters P wfe R start fuel od w
  = (let* head := getBlockNumber P in
     processRouterDeployments P wfe R fuel od (routerDeploymentsFile w) head) w
  /\ forall w',
       fetchRouters P wfe R start fuel od w = (Ok tt, w') ->
       routerDeploymentsFile w' = routerDeploymentsFile w
       /\ exists head,
            getBlockNumber_response P (length (trace w)) = inr head
            /\ lastRouterFactoryBlock (progress w') = Some head.
Proof.
  intros Hcache Hck.
  assert (Heq : fetchRouters P wfe R start fuel od w
                = (let* head := getBlockNumber P in
                   processRouterDeployments P wfe R fuel od
                     (routerDeploymentsFile w) head) w).
  { unfold fetchRouters. apply bind_getBlockNumber_ext. intros head.
    set (wh := log_effect GetBlockNumber w).
    assert (Hq : evaluateRouterFactoryQuery start wh
                 = (Ok {| fromBlock := 0; shouldQueryFactory := false |}, wh)).
    { unfold evaluateRouterFactoryQuery, bind, loadRouterDeployments,
        get_progress. simpl. rewrite Hck.
      by destruct (routerDeploymentsFile w). }
    unfold bind at 1. rewrite Hq. unfold bind at 1, loadRouterDeployments.
    unfold bind at 1. cbn [shouldQueryFactory]. unfold ret at 1. done. }
  split; [exact Heq |].
  intros w'. rewrite Heq. unfold bind, getBlockNumber.
  destruct (getBlockNumber_response P (length (trace w))) as [msg|head];
    [done |].
  intros Hrun. apply processRouterDeployments_outcome in Hrun
    as [[_ Hfile] Hok].
  destruct (Hok eq_refl) as (Hlast & _).
  split; [done |]. by exists head.
Qed.

Lemma cached_routers_skip_discovery_witness :
  fetchRouters quiet_provider (fun _ => None) recheck_interval_default
    (Some 19400000) 100 no_oracle_data world_cached_no_checkpoint
  = (let* head := getBlockNumber quiet_provider in
     processRouterDeployments quiet_provider (fun _ => None)
       recheck_interval_default 100 no_oracle_data
       (routerDeploymentsFile world_cached_no_checkpoint) head)
      world_cached_no_checkpoint.
Proof.
  apply (cached_routers_skip_discovery quiet_provider (fun _ => None)
           recheck_interval_default (Some 19400000) 100 no_oracle_data
           world_cached_no_checkpoint).
  - done.
  - reflexivity.
Defined.

(** ** The vendors of a vault *)

Lemma split_dash_dash_free s : dash_free s = true -> split_dash s = [s].
Proof.
  induction s as [|c s IH]; simpl; [done |].
  intros [Hc Hs]%andb_true_iff. apply negb_true_iff in Hc.
  by rewrite Hc, (IH Hs).
Qed.

Lemma split_dash_key a b :
  dash_free a = true -> split_dash (a +:+ "-" +:+ b) = a :: split_dash b.
Proof.
  induction a as [|c a IH]; simpl; [done |].
  intros [Hc Ha]%andb_true_iff. apply negb_true_iff in Hc.
  rewrite Hc. simpl in IH. by rewrite (IH Ha).
Qed.

(** X15. Round trip between the two steps: for a ConfigSet event whose asset
    addresses contain no dash, the key under which the router step files the
    oracle is split by the vault step into exactly the two assets, so the
    pair is found for an asset precisely when the asset equals one of the two
    up to letter case. *)
Theorem configured_pair_is_read_back acc b args assetAddress :
  dash_free (asset0 args) = true ->
  dash_free (asset1 args) = true ->
  let key := asset0 args +:+ "-" +:+ asset1 args in
  (add_config_event acc (EventLog b args)).2 !! key
  = Some (default [] (acc.2 !! key) ++ [oracle args])
  /\ split_dash key = [asset0 args; asset1 args]
  /\ pair_mentions key assetAddress
     = (String.eqb (toLowerCase (asset0 args)) (toLowerCase assetAddress)
        || String.eqb (toLowerCase (asset1 args)) (toLowerCase assetAddress)).
Proof.
  intros H0 H1 key.
  assert (Hsplit : split_dash key = [asset0 args; asset1 args]).
  { unfold key. rewrite (split_dash_key _ _ H0).
    by rewrite (split_dash_dash_free _ H1). }
  split; [| split; [done |]].
  - simpl. by rewrite lookup_insert_eq.
  - unfold pair_mentions. by rewrite Hsplit.
Qed.

Lemma configured_pair_is_read_back_witness :
  split_dash "0xWETH-0xUSD" = ["0xWETH"; "0xUSD"]
  /\ pair_mentions "0xWETH-0xUSD" "0xweth" = true.
Proof.
  pose proof (configured_pair_is_read_back ([], ∅) 7
                {| asset0 := "0xWETH"; asset1 := "0xUSD"; oracle := "0xA1" |}
                "0xweth" eq_refl eq_refl) as (_ & Hsplit & Hfound).
  split; [exact Hsplit | exact Hfound].
Defined.

Lemma fold_adapter_vendors ri adapterList : forall acc,
  NoDup acc ->
  NoDup (foldl (add_adapter_vendors ri) acc adapterList)
  /\ forall v, v ∈ foldl (add_adapter_vendors ri) acc adapterList
               <-> v ∈ acc
                   \/ exists adapterAddress info,
                        adapterAddress ∈ adapterList
                        /\ vendorInfo ri !! adapterAddress = Some info
                        /\ v ∈ vendor_names info.
Proof.
  induction adapterList as [|a l IH]; intros acc Hacc; simpl.
  - split; [done |]. intros v. split; [by left |].
    intros [? | (? & ? & Hin & _)]; [done | by apply elem_of_nil in Hin].
  - assert (Hstep : NoDup (add_adapter_vendors ri acc a)
                    /\ forall v, v ∈ add_adapter_vendors ri acc a
                                 <-> v ∈ acc
                                     \/ exists info,
                                          vendorInfo ri !! a = Some info
                                          /\ v ∈ vendor_names info).
    { unfold add_adapter_vendors.
      destruct (vendorInfo ri !! a) as [info|].
      - destruct (Set_from_array_fold (vendor_names info) acc Hacc)
          as [Hnd Hel].
        split; [done |]. intros v. rewrite Hel. split.
        + intros [? | ?]; [by left | right; by exists info].
        + intros [? | (? & [= <-] & ?)]; [by left | by right].
      - split; [done |]. intros v. split; [by left |].
        by intros [? | (? & ? & _)]. }
    destruct Hstep as [Hnd Hel].
    destruct (IH _ Hnd) as [Hnd' Hel']. split; [done |].
    intros v. rewrite Hel', Hel. split.
    + intros [[? | (info & ? & ?)] | (a' & info & ? & ? & ?)].
      * by left.
      * right. exists a, info. split; [by left | done].
      * right. exists a', info. split; [by right | done].
    + intros [? | (a' & info & Hin & ? & ?)]; [by left; left |].
      apply elem_of_cons in Hin as [-> | Hin].
      * left. right. by exists info.
      * right. by exists a', info.
Qed.

Lemma fold_pair_vendors ri assetAddress entries : forall acc,
  NoDup acc ->
  NoDup (foldl (add_pair_vendors ri assetAddress) acc entries)
  /\ forall v, v ∈ foldl (add_pair_vendors ri assetAddress) acc entries
               <-> v ∈ acc
                   \/ exists pairKey adapterList adapterAddress info,
                        (pairKey, adapterList) ∈ entries
                        /\ pair_mentions pairKey assetAddress = true
                        /\ adapterAddress ∈ adapterList
                        /\ vendorInfo ri !! adapterAddress = Some info
                        /\ v ∈ vendor_names info.
Proof.
  induction entries as [|[k l] entries IH]; intros acc Hacc; simpl.
  - split; [done |]. intros v. split; [by left |].
    intros [? | (? & ? & ? & ? & Hin & _)]; [done | by apply elem_of_nil in Hin].
  - assert (Hstep : NoDup (add_pair_vendors ri assetAddress acc (k, l))
                    /\ forall v, v ∈ add_pair_vendors ri assetAddress acc (k, l)
                                 <-> v ∈ acc
                                     \/ (pair_mentions k assetAddress = true
                                         /\ exists adapterAddress info,
                                              adapterAddress ∈ l
                                              /\ vendorInfo ri !! adapterAddress
                                                 = Some info
                                              /\ v ∈ vendor_names info)).
    { unfold add_pair_vendors. simpl.
      destruct (pair_mentions k assetAddress).
      - destruct (fold_adapter_vendors ri l acc Hacc) as [Hnd Hel].
        split; [done |]. intros v. rewrite Hel. tauto.
      - split; [done |]. intros v. split; [by left |].
        by intros [? | [? _]]. }
    destruct Hstep as [Hnd Hel].
    destruct (IH _ Hnd) as [Hnd' Hel']. split; [done |].
    intros v. rewrite Hel', Hel. split.
    + intros [[? | (? & a & info & ? & ? & ?)]
             | (k' & l' & a & info & ? & ? & ? & ? & ?)].
      * by left.
      * right. exists k, l, a, info. split; [by left | done].
      * right. exists k', l', a, info. split; [by right | done].
    + intros [? | (k' & l' & a & info & Hin & ? & ? & ? & ?)]; [by left; left |].
      apply elem_of_cons in Hin as [[= -> ->] | Hin].
      * left. right. split; [done |]. by exists a, info.
      * right. by exists k', l', a, info.
Qed.

Lemma vendors_via_router_spec entries ri assetAddress :
  entries ≡ₚ map_to_list (assetPairs ri) ->
  NoDup (vendors_via_router entries ri assetAddress).1
  /\ forall v, v ∈ (vendors_via_router entries ri assetAddress).1
               <-> contributes ri assetAddress v.
Proof.
  intros Hperm. unfold vendors_via_router. simpl.
  destruct (fold_pair_vendors ri assetAddress entries [] (NoDup_nil_2))
    as [Hnd Hel].
  split; [done |]. intros v. rewrite Hel. unfold contributes. split.
  - intros [Hin | (k & l & a & info & Hin & ?)]; [by apply elem_of_nil in Hin |].
    exists k, l, a, info. split; [| done].
    apply elem_of_map_to_list. by rewrite <- Hperm.
  - intros (k & l & a & info & Hk & ?). right.
    exists k, l, a, info. split; [| done].
    rewrite Hperm. by apply elem_of_map_to_list.
Qed.

Lemma vendorType_of_perm l1 l2 :
  l1 ≡ₚ l2 -> vendorType_of l1 = vendorType_of l2.
Proof.
  intros Hperm. pose proof (Permutation_length Hperm) as Hlen.
  destruct l1 as [|a [|b l1]].
  - apply Permutation_nil_l in Hperm. by subst.
  - apply Permutation_singleton_l in Hperm. by subst.
  - destruct l2 as [|c [|d l2]]; simpl in Hlen; try lia. done.
Qed.

(** X16. For a vault whose oracle is a recorded router, the vendor list has
    no duplicates and holds exactly the names the router record attributes
    to the vault's asset; the order in which the asset pairs are enumerated
    can only permute the list and does not change the vendor type. *)
Theorem router_vendors_characterised OE OE' p od routerAddress assetAddress ri :
  routers p !! routerAddress = Some ri ->
  OE (assetPairs ri) ≡ₚ map_to_list (assetPairs ri) ->
  OE' (assetPairs ri) ≡ₚ map_to_list (assetPairs ri) ->
  let result := vault_vendors OE p od routerAddress assetAddress in
  let result' := vault_vendors OE' p od routerAddress assetAddress in
  NoDup result.1
  /\ (forall v, v ∈ result.1 <-> contributes ri assetAddress v)
  /\ result.1 ≡ₚ result'.1
  /\ result.2 = result'.2.
Proof.
  intros Hr Hperm Hperm' result result'.
  unfold result, result', vault_vendors. rewrite Hr.
  destruct (vendors_via_router_spec _ ri assetAddress Hperm) as [Hnd Hel].
  destruct (vendors_via_router_spec _ ri assetAddress Hperm') as [Hnd' Hel'].
  assert (Hp : (vendors_via_router (OE (assetPairs ri)) ri assetAddress).1
               ≡ₚ (vendors_via_router (OE' (assetPairs ri)) ri assetAddress).1).
  { apply NoDup_Permutation; [done | done |].
    intros v. by rewrite Hel, Hel'. }
  repeat split; try done.
  - by apply Hel.
  - by apply Hel.
  - by apply vendorType_of_perm.
Qed.

Lemma router_vendors_characterised_witness :
  let result :=
    vault_vendors map_to_list progress_with_two_pair_router no_oracle_data
      "0xR1" "0xdai" in
  let result' :=
    vault_vendors (fun m => reverse (map_to_list m))
      progress_with_two_pair_router no_oracle_data "0xR1" "0xdai" in
  NoDup result.1
  /\ (forall v, v ∈ result.1 <-> contributes two_pair_router "0xdai" v)
  /\ result.1 ≡ₚ result'.1
  /\ result.2 = result'.2.
Proof.
  apply (router_vendors_characterised map_to_list
           (fun m => reverse (map_to_list m))
           progress_with_two_pair_router no_oracle_data "0xR1" "0xdai"
           two_pair_router).
  - reflexivity.
  - reflexivity.
  - apply reverse_Permutation.
Defined.

(** X17. The vendor type of a vault. With a recorded router it is the one
    attributed vendor name when there is exactly one, and "Multiple" otherwise:
    also when the router attributes no vendor at all to the asset, which is
    the only way to get an empty vendor list. Without a recorded router the
    list is never empty and the type is the registry's vendor name of the
    oracle address. *)
Theorem vault_vendor_type_label OE p od routerAddress assetAddress :
  (forall m, OE m ≡ₚ map_to_list m) ->
  let result := vault_vendors OE p od routerAddress assetAddress in
  match routers p !! routerAddress with
  | Some ri =>
      (forall v, contributes ri assetAddress v ->
                 (forall v', contributes ri assetAddress v' -> v' = v) ->
                 result = ([v], v))
      /\ ((forall v, ~ contributes ri assetAddress v) <-> result.1 = [])
      /\ (result.1 = [] -> result.2 = "Multiple")
      /\ (forall v1 v2, contributes ri assetAddress v1 ->
                        contributes ri assetAddress v2 ->
                        v1 <> v2 -> result.2 = "Multiple")
  | None =>
      result.1 <> []
      /\ result.2 = vendor (getVendorForOracle routerAddress od)
  end.
Proof.
  intros Hperm result. unfold result, vault_vendors.
  destruct (routers p !! routerAddress) as [ri|].
  - destruct (vendors_via_router_spec _ ri assetAddress (Hperm (assetPairs ri)))
      as [Hnd Hel].
    unfold vendors_via_router in *. simpl in *.
    set (L := foldl (add_pair_vendors ri assetAddress) []
                (OE (assetPairs ri))) in *.
    clearbody L. repeat split.
    + intros v Hv Huniq. apply Hel in Hv.
      destruct L as [|a [|b L]].
      * by apply elem_of_nil in Hv.
      * apply list_elem_of_singleton in Hv as ->. done.
      * assert (a = v) as -> by (apply Huniq, Hel; by left).
        assert (b = v) as -> by (apply Huniq, Hel; right; by left).
        apply NoDup_cons in Hnd as [Hnd _]. exfalso. apply Hnd. by left.
    + intros Hnone. destruct L as [|a L]; [done |].
      exfalso. apply (Hnone a), Hel. by left.
    + intros HL v Hv. apply Hel in Hv. rewrite HL in Hv.
      by apply elem_of_nil in Hv.
    + by intros ->.
    + intros v1 v2 H1 H2 Hne. apply Hel in H1, H2.
      destruct L as [|a [|b L]].
      * by apply elem_of_nil in H1.
      * apply list_elem_of_singleton in H1, H2. congruence.
      * done.
  - unfold vendors_direct.
    destruct (String.eqb (vendor (getVendorForOracle routerAddress od)) "Cross")
      eqn:Hcross; simpl.
    + destruct (0 <? length (underlying (getVendorForOracle routerAddress od)))%nat
        eqn:Hlen; simpl.
      * split.
        -- intros Hnil. rewrite Hnil in Hlen. done.
        -- symmetry. by apply String.eqb_eq.
      * done.
    + done.
Qed.

Lemma vault_vendor_type_label_witness :
  vault_vendors map_to_list progress_with_two_pair_router no_oracle_data
    "0xR1" "0xweth" = (["Chainlink"], "Chainlink")
  /\ (vault_vendors map_to_list progress_with_two_pair_router no_oracle_data
        "0xR1" "0xwbtc").2 = "Multiple".
Proof.
  pose proof (vault_vendor_type_label map_to_list progress_with_two_pair_router
                no_oracle_data "0xR1" "0xwbtc" (fun m => reflexivity _))
    as Hlabel.
  simpl in Hlabel.
  change (routers progress_with_two_pair_router !! "0xR1")
    with (Some two_pair_router) in Hlabel.
  destruct Hlabel as (_ & _ & Hempty & _).
  split; [reflexivity | by apply Hempty].
Defined.

(** ** The loop over the vaults *)

(** The loop body in closed form: whatever happens, the iteration returns. *)
Lemma process_vault_run ch wfe R OE od head d vw :
  process_vault ch wfe R OE od head d vw
  = (Ok tt,
     match
       cached_addresses
         (should_requery_rpc R
            (processedVaults (progress (world vw)) !! address d) head)
         (vaults (progress (world vw)) !! address d)
     with
     | Some cached => vault_written wfe OE od d head cached.1 cached.2 vw
     | None =>
         let vw1 :=
           log_vault_effects [CallOracle (address d); CallAsset (address d)]
             vw in
         match oracle_asset_response ch (address d) (effects_so_far vw) with
         | inl msg => vault_failed msg vw1
         | inr fetched =>
             if String.eqb fetched.1 EmptyString
                || String.eqb fetched.2 EmptyString
             then vault_failed "Failed to get oracle or asset address" vw1
             else vault_written wfe OE od d head fetched.1 fetched.2 vw1
         end
     end).
Proof.
  destruct vw as [w vt].
  unfold process_vault, vbind, vtry_catch, analyze_vault, vbind, lift,
    get_progress. simpl.
  destruct (cached_addresses _ _) as [[o a]|]; simpl.
  - unfold vault_written, saveProgress, modify_progress, sleep, console_error,
      vret. simpl.
    destruct (wfe (length (trace w))); reflexivity.
  - unfold oracle_and_asset.
    destruct (oracle_asset_response ch (address d) _) as [msg | [o a]]; simpl.
    + reflexivity.
    + destruct (String.eqb o EmptyString || String.eqb a EmptyString); simpl.
      * reflexivity.
      * unfold vault_written, saveProgress, modify_progress, sleep,
          console_error, vret. simpl.
        destruct (wfe (length (trace w))); reflexivity.
Qed.

Lemma vault_written_facts wfe OE od d head o a vw :
  let vw' := vault_written wfe OE od d head o a vw in
  progress (world vw')
  = progress_after_vault OE od d head o a (progress (world vw))
  /\ vault_trace vw' = vault_trace vw
  /\ routerDeploymentsFile (world vw') = routerDeploymentsFile (world vw)
  /\ vaultDeploymentsFile (world vw') = vaultDeploymentsFile (world vw)
  /\ exists ext,
       trace (world vw') = trace (world vw) ++ ext
       /\ Forall (fun e => is_network_call e = false) ext.
Proof.
  simpl. repeat split.
  eexists [_; _]. split.
  - by rewrite <- app_assoc.
  - repeat constructor. unfold vault_error_line.
    by destruct (wfe (length (trace (world vw)))).
Qed.

(** X18. A vault that was analysed fewer than RECHECK_INTERVAL_BLOCKS ago and
    whose record holds both addresses is not skipped: without any call to the
    chain its record is rewritten with the cached oracle and asset and with
    vendors recomputed from the router data now in the progress object, and
    its checkpoint moves to the head, so the same holds again at the next
    pass made within the interval. *)
Theorem vault_inside_interval_reuses_cached_addresses
    ch wfe R OE od head d vw last info :
  processedVaults (progress (world vw)) !! address d = Some last ->
  head - last < R ->
  vaults (progress (world vw)) !! address d = Some info ->
  vi_oracle info <> EmptyString ->
  vi_asset info <> EmptyString ->
  exists vw',
    process_vault ch wfe R OE od head d vw = (Ok tt, vw')
    /\ vault_trace vw' = vault_trace vw
    /\ (exists ext,
          trace (world vw') = trace (world vw) ++ ext
          /\ Forall (fun e => is_network_call e = false) ext)
    /\ processedVaults (progress (world vw')) !! address d = Some head
    /\ vaults (progress (world vw')) !! address d
       = Some (vault_record OE (progress (world vw)) od d
                 (vi_oracle info) (vi_asset info))
    /\ forall head',
         head' - head < R ->
         cached_addresses
           (should_requery_rpc R
              (processedVaults (progress (world vw')) !! address d) head')
           (vaults (progress (world vw')) !! address d)
         = Some (vi_oracle info, vi_asset info).
Proof.
  intros Hlast Hlt Hinfo Ho Ha.
  rewrite process_vault_run, Hlast, Hinfo.
  assert (Hcached : forall h, h - last < R ->
            cached_addresses (should_requery_rpc R (Some last) h) (Some info)
            = Some (vi_oracle info, vi_asset info)).
  { intros h Hh. unfold cached_addresses, should_requery_rpc.
    apply Z.ltb_lt in Hh. rewrite Hh.
    apply String.eqb_neq in Ho, Ha. by rewrite Ho, Ha. }
  rewrite (Hcached head Hlt). eexists. split; [reflexivity |].
  destruct (vault_written_facts wfe OE od d head (vi_oracle info)
              (vi_asset info) vw) as (Hp & Hvt & _ & _ & Htr).
  simpl fst; simpl snd.
  split; [exact Hvt |]. split; [exact Htr |].
  rewrite Hp. unfold progress_after_vault. simpl.
  rewrite !lookup_insert_eq. repeat split.
  intros head' Hlt'.
  unfold cached_addresses, should_requery_rpc. simpl.
  apply Z.ltb_lt in Hlt'. rewrite Hlt'.
  apply String.eqb_neq in Ho, Ha. by rewrite Ho, Ha.
Qed.

Lemma vault_inside_interval_reuses_cached_addresses_witness :
  exists vw',
    process_vault dai_chain (fun _ => None) 50000 map_to_list no_oracle_data
      1200 vault1 (vault_world progress_with_vault1) = (Ok tt, vw')
    /\ vault_trace vw' = []
    /\ processedVaults (progress (world vw')) !! "0xV1" = Some 1200
    /\ (vi_oracle <$> vaults (progress (world vw')) !! "0xV1") = Some "0xR1"
    /\ (vi_asset <$> vaults (progress (world vw')) !! "0xV1") = Some "0xWETH".
Proof.
  destruct (vault_inside_interval_reuses_cached_addresses dai_chain
              (fun _ => None) 50000 map_to_list no_oracle_data 1200 vault1
              (vault_world progress_with_vault1) 1000
              {| vi_oracle := "0xR1"; vi_asset := "0xWETH";
                 vi_vendors := ["Chainlink"]; vi_vendorType := "Chainlink";
                 vi_deploymentBlock := 700 |})
    as (vw' & Hrun & Hvt & _ & Hck & Hrec & _);
    [reflexivity | lia | reflexivity | done | done |].
  exists vw'. split; [exact Hrun |]. split; [exact Hvt |].
  split; [exact Hck |]. change (address vault1) with "0xV1" in Hrec.
  rewrite Hrec. split; reflexivity.
Defined.

(** X19. A vault that is new, or was last analysed RECHECK_INTERVAL_BLOCKS or
    more ago, or has no complete record, has its oracle and asset read from
    the chain: exactly the two calls are sent. If the read is rejected or an
    address comes back empty, the iteration still returns, only an error line
    is printed, and the progress object is untouched, so a new or overdue
    vault is due again at every later head. Otherwise the record is written
    from the two answers and the checkpoint is set to the head. *)
Theorem vault_chain_read ch wfe R OE od head d vw :
  processedVaults (progress (world vw)) !! address d = None
  \/ (exists last,
        processedVaults (progress (world vw)) !! address d = Some last
        /\ R <= head - last)
  \/ vaults (progress (world vw)) !! address d = None
  \/ (exists info,
        vaults (progress (world vw)) !! address d = Some info
        /\ (vi_oracle info = EmptyString \/ vi_asset info = EmptyString)) ->
  exists vw',
    process_vault ch wfe R OE od head d vw = (Ok tt, vw')
    /\ vault_trace vw'
       = vault_trace vw
         ++ [(length (trace (world vw)), CallOracle (address d));
             (length (trace (world vw)), CallAsset (address d))]
    /\ let failed msg :=
         progress (world vw') = progress (world vw)
         /\ trace (world vw') = trace (world vw) ++ [vault_error_line msg]
         /\ forall head',
              head <= head' ->
              should_requery_rpc R
                (processedVaults (progress (world vw)) !! address d) head
              = true ->
              should_requery_rpc R
                (processedVaults (progress (world vw')) !! address d) head'
              = true in
       match oracle_asset_response ch (address d) (effects_so_far vw) with
       | inl msg => failed msg
       | inr (o, a) =>
           if String.eqb o EmptyString || String.eqb a EmptyString
           then failed "Failed to get oracle or asset address"
           else
             progress (world vw')
             = progress_after_vault OE od d head o a (progress (world vw))
             /\ processedVaults (progress (world vw')) !! address d = Some head
             /\ vaults (progress (world vw')) !! address d
                = Some (vault_record OE (progress (world vw)) od d o a)
       end.
Proof.
  intros Hdue. rewrite process_vault_run.
  assert (Hnone :
    cached_addresses
      (should_requery_rpc R
         (processedVaults (progress (world vw)) !! address d) head)
      (vaults (progress (world vw)) !! address d) = None).
  { unfold cached_addresses, should_requery_rpc.
    destruct Hdue as [-> | [(last & -> & Hge) | [-> | (info & -> & Hempty)]]].
    - by destruct (vaults _ !! _).
    - apply Z.ltb_ge in Hge. rewrite Hge. by destruct (vaults _ !! _).
    - done.
    - destruct Hempty as [-> | ->]; simpl; [by rewrite andb_false_r |].
      by rewrite !andb_false_r. }
  rewrite Hnone. eexists. split; [reflexivity |].
  assert (Hlater : forall p', p' = progress (world vw) ->
    forall head', head <= head' ->
      should_requery_rpc R (processedVaults (progress (world vw)) !! address d)
        head = true ->
      should_requery_rpc R (processedVaults p' !! address d) head' = true).
  { intros p' -> head' Hle. unfold should_requery_rpc.
    destruct (processedVaults _ !! _) as [last|]; [| done].
    destruct (Z.ltb_spec (head - last) R); [done | intros _].
    destruct (Z.ltb_spec (head' - last) R); [lia | done]. }
  cbv zeta.
  destruct (oracle_asset_response ch (address d) (effects_so_far vw))
    as [msg | [o a]].
  - split; [done |]. repeat split. by apply Hlater.
  - simpl fst; simpl snd.
    destruct (String.eqb o EmptyString || String.eqb a EmptyString).
    + split; [done |]. repeat split. by apply Hlater.
    + split; [done |]. simpl. rewrite !lookup_insert_eq. done.
Qed.

Lemma vault_chain_read_witness :
  exists vw',
    process_vault dai_chain (fun _ => None) 50000 map_to_list no_oracle_data
      1200 vault1 (vault_world progress_with_two_pair_router) = (Ok tt, vw')
    /\ vault_trace vw' = [(0%nat, CallOracle "0xV1"); (0%nat, CallAsset "0xV1")]
    /\ vaults (progress (world vw')) !! "0xV1"
       = Some {| vi_oracle := "0xR1"; vi_asset := "0xDAI";
                 vi_vendors := ["Pyth"; "RedStone"];
                 vi_vendorType := "Multiple";
                 vi_deploymentBlock := 700 |}.
Proof.
  destruct (vault_chain_read dai_chain (fun _ => None) 50000 map_to_list
              no_oracle_data 1200 vault1
              (vault_world progress_with_two_pair_router))
    as (vw' & Hrun & Hvt & _ & _ & Hrec); [by left |].
  exists vw'. split; [exact Hrun |]. split; [exact Hvt |]. exact Hrec.
Defined.

Lemma process_vault_step ch wfe R OE od head d vw :
  exists vw',
    process_vault ch wfe R OE od head d vw = (Ok tt, vw')
    /\ same_router_side (world vw) (world vw')
    /\ vaultDeploymentsFile (world vw') = vaultDeploymentsFile (world vw)
    /\ lastVaultFactoryBlock (progress (world vw'))
       = lastVaultFactoryBlock (progress (world vw))
    /\ (exists ext,
          trace (world vw') = trace (world vw) ++ ext
          /\ Forall (fun e => is_network_call e = false) ext)
    /\ (exists vext,
          vault_trace vw' = vault_trace vw ++ vext
          /\ (length vext <= 2)%nat
          /\ Forall (is_vault_call_of [d]) vext)
    /\ (forall a b,
          processedVaults (progress (world vw)) !! a = Some b ->
          exists b',
            processedVaults (progress (world vw')) !! a = Some b'
            /\ (b' = b \/ b' = head)).
Proof.
  rewrite process_vault_run. eexists. split; [reflexivity |].
  assert (Hw : forall o a vw0,
    same_router_side (world vw) (world vw0) ->
    vaultDeploymentsFile (world vw0) = vaultDeploymentsFile (world vw) ->
    progress (world vw0) = progress (world vw) ->
    trace (world vw0) = trace (world vw) ->
    forall vw', vw' = vault_written wfe OE od d head o a vw0 ->
    same_router_side (world vw) (world vw')
    /\ vaultDeploymentsFile (world vw') = vaultDeploymentsFile (world vw)
    /\ lastVaultFactoryBlock (progress (world vw'))
       = lastVaultFactoryBlock (progress (world vw))
    /\ (exists ext,
          trace (world vw') = trace (world vw) ++ ext
          /\ Forall (fun e => is_network_call e = false) ext)
    /\ (forall x b,
          processedVaults (progress (world vw)) !! x = Some b ->
          exists b',
            processedVaults (progress (world vw')) !! x = Some b'
            /\ (b' = b \/ b' = head))).
  { intros o a vw0 (Hr & Hpr & Hl & Hf) Hvf Hp Htr vw' ->.
    unfold same_router_side. simpl. rewrite Hp, Htr.
    repeat split; try done.
    - eexists [_; _]. split; [by rewrite <- app_assoc |].
      repeat constructor. unfold vault_error_line.
      by destruct (wfe (length (trace (world vw)))).
    - intros x b Hx. destruct (decide (x = address d)) as [-> | Hne].
      + rewrite lookup_insert_eq. eauto.
      + rewrite lookup_insert_ne by done. eauto. }
  assert (Hf : forall msg vw0,
    same_router_side (world vw) (world vw0) ->
    vaultDeploymentsFile (world vw0) = vaultDeploymentsFile (world vw) ->
    progress (world vw0) = progress (world vw) ->
    trace (world vw0) = trace (world vw) ->
    forall vw', vw' = vault_failed msg vw0 ->
    same_router_side (world vw) (world vw')
    /\ vaultDeploymentsFile (world vw') = vaultDeploymentsFile (world vw)
    /\ lastVaultFactoryBlock (progress (world vw'))
       = lastVaultFactoryBlock (progress (world vw))
    /\ (exists ext,
          trace (world vw') = trace (world vw) ++ ext
          /\ Forall (fun e => is_network_call e = false) ext)
    /\ (forall x b,
          processedVaults (progress (world vw)) !! x = Some b ->
          exists b',
            processedVaults (progress (world vw')) !! x = Some b'
            /\ (b' = b \/ b' = head))).
  { intros msg vw0 (Hr & Hpr & Hl & Hfile) Hvf Hp Htr vw' ->.
    unfold same_router_side. simpl. rewrite Hp, Htr.
    repeat split; try done.
    - exists [vault_error_line msg]. split; [done | by repeat constructor].
    - intros x b Hx. eauto. }
  assert (Hcalls :
    Forall (is_vault_call_of [d])
      (map (fun e => (length (trace (world vw)), e))
         [CallOracle (address d); CallAsset (address d)])).
  { repeat constructor; exists d; (split; [by left |]); simpl; tauto. }
  destruct (cached_addresses _ _) as [[o a]|].
  - destruct (Hw o a vw) with (vw' := vault_written wfe OE od d head o a vw)
      as (H1 & H2 & H3 & H4 & H5); try done.
    repeat split; try done.
    exists []. rewrite app_nil_r. repeat split; [simpl; lia | constructor].
  - cbv zeta.
    set (vw1 := log_vault_effects [CallOracle (address d); CallAsset (address d)]
                  vw).
    assert (Hvext : forall vw',
      vault_trace vw' = vault_trace vw1 ->
      exists vext,
        vault_trace vw' = vault_trace vw ++ vext
        /\ (length vext <= 2)%nat
        /\ Forall (is_vault_call_of [d]) vext).
    { intros vw' ->. eexists. split; [reflexivity |]. split; [simpl; lia |].
      exact Hcalls. }
    destruct (oracle_asset_response ch (address d) (effects_so_far vw))
      as [msg | [o a]].
    + destruct (Hf msg vw1) with (vw' := vault_failed msg vw1)
        as (H1 & H2 & H3 & H4 & H5); try done.
      repeat split; try done. by apply Hvext.
    + simpl fst; simpl snd.
      destruct (String.eqb o EmptyString || String.eqb a EmptyString).
      * destruct (Hf "Failed to get oracle or asset address" vw1)
          with (vw' := vault_failed "Failed to get oracle or asset address" vw1)
          as (H1 & H2 & H3 & H4 & H5); try done.
        repeat split; try done. by apply Hvext.
      * destruct (Hw o a vw1) with (vw' := vault_written wfe OE od d head o a vw1)
          as (H1 & H2 & H3 & H4 & H5); try done.
        repeat split; try done. by apply Hvext.
Qed.

Lemma vault_loop_run ch wfe R OE od head ds : forall vw,
  exists vw',
    vfor_each (process_vault ch wfe R OE od head) ds vw = (Ok tt, vw')
    /\ same_router_side (world vw) (world vw')
    /\ vaultDeploymentsFile (world vw') = vaultDeploymentsFile (world vw)
    /\ lastVaultFactoryBlock (progress (world vw'))
       = lastVaultFactoryBlock (progress (world vw))
    /\ (exists ext,
          trace (world vw') = trace (world vw) ++ ext
          /\ Forall (fun e => is_network_call e = false) ext)
    /\ (exists vext,
          vault_trace vw' = vault_trace vw ++ vext
          /\ (length vext <= 2 * length ds)%nat
          /\ Forall (is_vault_call_of ds) vext)
    /\ (forall a b,
          processedVaults (progress (world vw)) !! a = Some b ->
          exists b',
            processedVaults (progress (world vw')) !! a = Some b'
            /\ (b' = b \/ b' = head)).
Proof.
  induction ds as [|d ds IH]; intros vw.
  - exists vw. split; [reflexivity |]. repeat split.
    + exists []. split; [by rewrite app_nil_r | constructor].
    + exists []. rewrite app_nil_r. repeat split; [simpl; lia | constructor].
    + intros a b Hab. eauto.
  - destruct (process_vault_step ch wfe R OE od head d vw)
      as (vw1 & Hrun1 & (Hr1 & Hpr1 & Hl1 & Hf1) & Hvf1 & Hlv1
          & (e1 & Ht1 & He1) & (v1 & Hv1 & Hn1 & Hc1) & Hck1).
    destruct (IH vw1)
      as (vw2 & Hrun2 & (Hr2 & Hpr2 & Hl2 & Hf2) & Hvf2 & Hlv2
          & (e2 & Ht2 & He2) & (v2 & Hv2 & Hn2 & Hc2) & Hck2).
    exists vw2. split.
    { simpl. unfold vbind. by rewrite Hrun1. }
    repeat split; try congruence.
    + exists (e1 ++ e2). split; [by rewrite Ht2, Ht1, app_assoc |].
      by apply Forall_app.
    + exists (v1 ++ v2). split; [by rewrite Hv2, Hv1, app_assoc |].
      split; [rewrite length_app; simpl; lia |].
      apply Forall_app. split.
      * eapply Forall_impl; [exact Hc1 |].
        intros e (d' & Hd' & He). exists d'. split; [| done].
        apply list_elem_of_singleton in Hd' as ->. by left.
      * eapply Forall_impl; [exact Hc2 |].
        intros e (d' & Hd' & He). exists d'. split; [by right | done].
    + intros a b Hab. destruct (Hck1 a b Hab) as (b1 & Hb1 & Hor1).
      destruct (Hck2 a b1 Hb1) as (b2 & Hb2 & Hor2).
      exists b2. split; [done |]. destruct Hor1, Hor2; subst; tauto.
Qed.

Lemma processVaultDeployments_outcome ch wfe R OE od ds head vw :
  exists r vw',
    processVaultDeployments ch wfe R OE od ds head vw = (r, vw')
    /\ (r = Ok tt \/ exists msg, r = Throw msg)
    /\ same_router_side (world vw) (world vw')
    /\ vaultDeploymentsFile (world vw') = vaultDeploymentsFile (world vw)
    /\ lastVaultFactoryBlock (progress (world vw')) = Some head
    /\ (exists ext,
          trace (world vw') = trace (world vw) ++ ext
          /\ Forall (fun e => is_network_call e = false) ext)
    /\ (exists vext,
          vault_trace vw' = vault_trace vw ++ vext
          /\ (length vext <= 2 * length ds)%nat
          /\ Forall (is_vault_call_of ds) vext)
    /\ (forall a b,
          processedVaults (progress (world vw)) !! a = Some b ->
          exists b',
            processedVaults (progress (world vw')) !! a = Some b'
            /\ (b' = b \/ b' = head)).
Proof.
  destruct (vault_loop_run ch wfe R OE od head ds vw)
    as (vw1 & Hrun & (Hr & Hpr & Hl & Hf) & Hvf & Hlv
        & (e1 & Ht & He) & Hcalls & Hck).
  unfold processVaultDeployments, vbind. rewrite Hrun.
  destruct vw1 as [w1 vt1]. cbn [world vault_trace] in *.
  unfold lift, modify_progress, saveProgress. cbn [world vault_trace].
  assert (Htrace : exists ext,
    trace w1 ++ [SaveProgress (set_lastVaultFactoryBlock head (progress w1))]
    = trace (world vw) ++ ext
    /\ Forall (fun e => is_network_call e = false) ext).
  { eexists (e1 ++ [_]). split; [by rewrite Ht, app_assoc |].
    apply Forall_app. split; [done | by repeat constructor]. }
  destruct (wfe (length (trace (set_progress
              (set_lastVaultFactoryBlock head (progress w1)) w1))));
    eexists _, _; (split; [reflexivity |]);
    (split; [eauto |]); unfold same_router_side; simpl; repeat split; done.
Qed.

(** X20. A pass over the vaults always comes to an end, without any fuel: no
    failure inside the loop escapes it, and the only error the pass can end
    with is the one of the final write of the progress file. The pass sends
    no event query and does not ask for the head, sends at most the two calls
    per listed vault and only to listed vaults, leaves the router side of the
    progress object and both deployment files untouched, sets
    lastVaultFactoryBlock to the head, and leaves every vault checkpoint as it
    was or sets it to the head. *)
Theorem vault_pass_is_total_and_confined ch wfe R OE od ds head vw :
  exists r vw',
    processVaultDeployments ch wfe R OE od ds head vw = (r, vw')
    /\ (r = Ok tt \/ exists msg, r = Throw msg)
    /\ same_router_side (world vw) (world vw')
    /\ vaultDeploymentsFile (world vw') = vaultDeploymentsFile (world vw)
    /\ lastVaultFactoryBlock (progress (world vw')) = Some head
    /\ (exists ext,
          trace (world vw') = trace (world vw) ++ ext
          /\ Forall (fun e => is_network_call e = false) ext)
    /\ (exists vext,
          vault_trace vw' = vault_trace vw ++ vext
          /\ (length vext <= 2 * length ds)%nat
          /\ Forall (is_vault_call_of ds) vext)
    /\ (forall a b,
          processedVaults (progress (world vw)) !! a = Some b ->
          exists b',
            processedVaults (progress (world vw')) !! a = Some b'
            /\ (b' = b \/ b' = head)).
Proof. apply processVaultDeployments_outcome. Qed.

(** ** The vault step as a whole *)

Lemma evaluateVaultFactoryQuery_returns start head w q w' :
  evaluateVaultFactoryQuery start head w = (Ok q, w') ->
  w' = w /\ shouldQueryFactory q = true.
Proof.
  unfold evaluateVaultFactoryQuery, bind, loadVaultDeployments, get_progress.
  destruct (truthy_number (lastVaultFactoryBlock (progress w))).
  { by intros [= <- <-]. }
  destruct (0 <? length (vaultDeploymentsFile w))%nat.
  { by intros [= <- <-]. }
  unfold requireStartBlock.
  destruct start as [b|]; [destruct (b =? 0) |];
    try (unfold start_block_missing, bind, console_error, process_exit; done).
  by intros [= <- <-].
Qed.

Lemma queryVaultFactory_outcome fuel c fromBlock head w r w' :
  queryVaultFactory fuel c fromBlock head w = (r, w') ->
  only_emits (fetch_effect c default_batchSize) w w'
  /\ forall new, r = Ok new -> Forall (fun d => address d <> EmptyString) new.
Proof.
  unfold queryVaultFactory. unfold bind at 1.
  destruct (has_filter c).
  2:{ intros [= <- <-]. split; [apply only_emits_refl | done]. }
  unfold ret at 1. unfold bind.
  pose proof (queryEventsInBatches_trace fuel c fromBlock head
                default_batchSize w) as Htr.
  destruct (queryEventsInBatches fuel c fromBlock head default_batchSize w)
    as [r1 w1].
  destruct Htr as [_ Hem].
  destruct r1 as [events| | |]; intros [= <- <-]; (split; [done |]); try done.
  intros new [= <-]. apply Forall_forall. intros d Hd.
  apply list_elem_of_omap in Hd as (e & _ & He).
  destruct e as [b args|]; [| done]. simpl in He.
  destruct (String.eqb (proxy args) EmptyString) eqn:Hp; [done |].
  injection He as <-. simpl. by apply String.eqb_neq.
Qed.

(** X21. When the vault step returns normally, the node has answered the
    request for the head, the range resolution has asked for a factory query
    (the vault step never skips discovery), and that query has returned a list
    of new deployments, each with a non-empty address. The vault deployment
    file is the merge of its old content with that list when the list is
    non-empty, and is untouched otherwise; it is written at most once, before
    any vault is called; calls go only to listed vaults; the router side of
    the progress object and the router file are untouched; and
    lastVaultFactoryBlock is the head. *)
Theorem fetchVaults_on_return P ch wfe wvfe R start OE fuel od vw vw' :
  fetchVaults P ch wfe wvfe R start OE fuel od vw = (Ok tt, vw') ->
  exists head q new w1,
    getBlockNumber_response P (length (trace (world vw))) = inr head
    /\ evaluateVaultFactoryQuery start head (log_effect GetBlockNumber (world vw))
       = (Ok q, log_effect GetBlockNumber (world vw))
    /\ shouldQueryFactory q = true
    /\ queryVaultFactory fuel (vault_factory_contract ch) (fromBlock q) head
         (log_effect GetBlockNumber (world vw)) = (Ok new, w1)
    /\ Forall (fun d => address d <> EmptyString) new
    /\ let all := merge_deployments (vaultDeploymentsFile (world vw)) new in
       vaultDeploymentsFile (world vw')
       = (if (0 <? length new)%nat then all else vaultDeploymentsFile (world vw))
       /\ (exists calls,
             vault_trace vw'
             = vault_trace vw
               ++ (if (0 <? length new)%nat
                   then [(length (trace w1), SaveVaultDeployments all)]
                   else [])
               ++ calls
             /\ Forall (is_vault_call_of all) calls)
       /\ same_router_side (world vw) (world vw')
       /\ lastVaultFactoryBlock (progress (world vw')) = Some head.
Proof.
  destruct vw as [w vt]. cbn [world vault_trace].
  unfold fetchVaults. unfold vbind at 1. unfold lift at 1. cbn [world vault_trace].
  unfold getBlockNumber.
  destruct (getBlockNumber_response P (length (trace w))) as [msg|head];
    [done |].
  set (w0 := log_effect GetBlockNumber w).
  unfold vbind at 1. unfold lift at 1. cbn [world vault_trace].
  destruct (evaluateVaultFactoryQuery start head w0) as [rq wq] eqn:Hq.
  destruct rq as [q| | |]; try done.
  destruct (evaluateVaultFactoryQuery_returns _ _ _ _ _ Hq) as [-> Hsq].
  unfold vbind at 1. unfold lift at 1, loadVaultDeployments.
  cbn [world vault_trace]. rewrite Hsq.
  unfold vbind at 1. unfold vbind at 1. unfold lift at 1.
  cbn [world vault_trace].
  destruct (queryVaultFactory fuel (vault_factory_contract ch) (fromBlock q)
              head w0) as [rn w1] eqn:Hn.
  destruct rn as [new| | |]; try done.
  destruct (queryVaultFactory_outcome _ _ _ _ _ _ _ Hn)
    as [(Hp1 & Hrf1 & Hvf1 & ext1 & Ht1 & _) Hne].
  specialize (Hne new eq_refl).
  unfold w0 in Hp1, Hrf1, Hvf1. simpl in Hp1, Hrf1, Hvf1.
  change (vaultDeploymentsFile w0) with (vaultDeploymentsFile w).
  set (all := merge_deployments (vaultDeploymentsFile w) new).
  intros Hrun.
  exists head, q, new, w1. split; [done |]. split; [done |].
  split; [done |]. split; [done |]. split; [done |].
  assert (Hside0 : same_router_side w w1).
  { unfold same_router_side. rewrite Hp1, Hrf1. done. }
  unfold vbind at 1 in Hrun.
  destruct (0 <? length new)%nat eqn:Hlen.
  - unfold saveVaultDeployments, vret in Hrun. cbn in Hrun.
    destruct (wvfe (effects_so_far {| world := w1; vault_trace := vt |}));
      [done |].
    cbn in Hrun.
    match type of Hrun with
    | processVaultDeployments _ _ _ _ _ _ _ ?vw1 = _ =>
        destruct (processVaultDeployments_outcome ch wfe R OE od all head vw1)
          as (r & vw2 & Hrun' & _ & (Hr & Hpr & Hl & Hf) & Hvf & Hlv & _
              & (calls & Hcalls & _ & Hof) & _)
    end.
    rewrite Hrun in Hrun'. injection Hrun' as <- <-.
    cbn [world vault_trace progress routerDeploymentsFile vaultDeploymentsFile]
      in *.
    destruct Hside0 as (Hr0 & Hpr0 & Hl0 & Hf0).
    split; [done |]. split.
    { exists calls. split; [| done]. by rewrite Hcalls, <- app_assoc. }
    split; [| done]. repeat split; congruence.
  - unfold vret in Hrun.
    match type of Hrun with
    | processVaultDeployments _ _ _ _ _ _ _ ?vw1 = _ =>
        destruct (processVaultDeployments_outcome ch wfe R OE od all head vw1)
          as (r & vw2 & Hrun' & _ & (Hr & Hpr & Hl & Hf) & Hvf & Hlv & _
              & (calls & Hcalls & _ & Hof) & _)
    end.
    rewrite Hrun in Hrun'. injection Hrun' as <- <-.
    cbn [world vault_trace] in *.
    destruct Hside0 as (Hr0 & Hpr0 & Hl0 & Hf0).
    split; [congruence |]. split.
    { exists calls. split; [| done]. by rewrite Hcalls. }
    split; [| done]. repeat split; congruence.
Qed.

Lemma fetchVaults_on_return_witness :
  exists vw',
    fetchVaults quiet_provider one_vault_chain (fun _ => None) (fun _ => None)
      50000 (Some 59000) map_to_list 5 no_oracle_data
      (vault_world fresh_progress) = (Ok tt, vw')
    /\ lastVaultFactoryBlock (progress (world vw')) = Some 60000
    /\ vaultDeploymentsFile (world vw')
       = [{| address := "0xV1"; deploymentBlock := 59500 |}].
Proof.
  set (run := fetchVaults quiet_provider one_vault_chain (fun _ => None)
                (fun _ => None) 50000 (Some 59000) map_to_list 5
                no_oracle_data (vault_world fresh_progress)).
  assert (Hrun : run = (Ok tt, run.2)) by (vm_compute; reflexivity).
  exists run.2. split; [exact Hrun |].
  destruct (fetchVaults_on_return _ _ _ _ _ _ _ _ _ _ _ Hrun)
    as (head & q & new & w1 & Hhead & _ & _ & _ & _ & _ & _ & _ & Hlast).
  injection Hhead as <-. split; [exact Hlast |].
  vm_compute. reflexivity.
Defined.

(** ** From the events of a router to the vendors of a vault *)

Lemma pair_mentions_key a0 a1 assetAddress :
  dash_free a0 = true ->
  dash_free a1 = true ->
  pair_mentions (a0 +:+ "-" +:+ a1) assetAddress
  = (String.eqb (toLowerCase a0) (toLowerCase assetAddress)
     || String.eqb (toLowerCase a1) (toLowerCase assetAddress)).
Proof.
  intros H0 H1. unfold pair_mentions.
  by rewrite (split_dash_key _ _ H0), (split_dash_dash_free _ H1).
Qed.

Lemma fold_config_events_pairs_inv events : forall acc k l a,
  (foldl add_config_event acc events).2 !! k = Some l ->
  a ∈ l ->
  (exists l0, acc.2 !! k = Some l0 /\ a ∈ l0)
  \/ exists b args,
       EventLog b args ∈ events
       /\ asset0 args +:+ "-" +:+ asset1 args = k
       /\ oracle args = a.
Proof.
  induction events as [|e events IH]; intros acc k l a Hk Ha; simpl in Hk.
  - left. by exists l.
  - destruct (IH _ _ _ _ Hk Ha) as [(l0 & Hl0 & Ha0) | (b & args & Hin & Hkey)].
    + destruct e as [b args|b]; simpl in Hl0.
      * destruct (decide (asset0 args +:+ "-" +:+ asset1 args = k))
          as [<- | Hne].
        -- rewrite lookup_insert_eq in Hl0. injection Hl0 as <-.
           apply elem_of_app in Ha0 as [Ha0 | Ha0].
           ++ left.
              destruct (acc.2 !! (asset0 args +:+ "-" +:+ asset1 args))
                as [l00|]; [by exists l00 | by apply elem_of_nil in Ha0].
           ++ apply list_elem_of_singleton in Ha0 as ->.
              right. exists b, args. split; [by left | done].
        -- rewrite lookup_insert_ne in Hl0 by done. left. by exists l0.
      * left. by exists l0.
    + right. exists b, args. split; [by right | done].
Qed.

(** X22. End to end over the two steps: when the oracle of a vault is a
    router whose record was built from its ConfigSet events on a first
    analysis, the vendors of the vault are exactly the vendor names, as
    attributed when the router was analysed, of the adapters configured by
    the events that name the vault's asset on either side, up to letter case.
    The oracle registry in use when the vault is processed plays no part. *)
Theorem vault_vendors_follow_router_events
    OE p od od' db events routerAddress assetAddress v :
  routers p !! routerAddress = Some (merged_router_info od db None events) ->
  (forall m, OE m ≡ₚ map_to_list m) ->
  (forall b args,
     EventLog b args ∈ events ->
     dash_free (asset0 args) = true /\ dash_free (asset1 args) = true) ->
  v ∈ (vault_vendors OE p od' routerAddress assetAddress).1
  <-> exists args,
        configured_for events assetAddress args
        /\ v ∈ vendor_names (getVendorForOracle (oracle args) od).
Proof.
  intros Hr Hperm Hdash. unfold vault_vendors. rewrite Hr.
  set (ri := merged_router_info od db None events).
  destruct (vendors_via_router_spec _ ri assetAddress (Hperm (assetPairs ri)))
    as [_ Hel].
  rewrite Hel. clear Hel.
  assert (Hadapters : forall a, a ∈ adapters ri <-> oracle_of_events events a).
  { intros a. unfold ri, merged_router_info. cbn [adapters].
    destruct (fold_config_events_adapters events ([], ∅) (NoDup_nil_2))
      as [_ Hel].
    rewrite Hel. simpl. rewrite elem_of_nil. tauto. }
  assert (Hinfo : forall a,
            vendorInfo ri !! a
            = if decide (a ∈ adapters ri)
              then Some (getVendorForOracle a od) else None).
  { intros a. unfold ri, merged_router_info. cbn [vendorInfo adapters].
    apply vendorInfo_of_lookup. }
  assert (Hmatch : forall args,
            dash_free (asset0 args) = true ->
            dash_free (asset1 args) = true ->
            pair_mentions (asset0 args +:+ "-" +:+ asset1 args) assetAddress
            = true
            <-> toLowerCase (asset0 args) = toLowerCase assetAddress
                \/ toLowerCase (asset1 args) = toLowerCase assetAddress).
  { intros args H0 H1. rewrite (pair_mentions_key _ _ _ H0 H1).
    rewrite orb_true_iff, !String.eqb_eq. done. }
  unfold contributes, configured_for. split.
  - intros (k & l & a & info & Hk & Hm & Ha & Hi & Hv).
    unfold ri, merged_router_info in Hk. cbn [assetPairs] in Hk.
    destruct (fold_config_events_pairs_inv _ _ _ _ _ Hk Ha)
      as [(l0 & Hl0 & _) | (b & args & Hin & Hkey & Ho)].
    { simpl in Hl0. by rewrite lookup_empty in Hl0. }
    destruct (Hdash b args Hin) as [H0 H1].
    exists args. split.
    + split; [by exists b |]. apply (Hmatch args H0 H1). by rewrite Hkey.
    + rewrite Hinfo in Hi.
      destruct (decide (a ∈ adapters ri)); [| done].
      injection Hi as <-. by rewrite Ho.
  - intros (args & [[b Hin] Hm] & Hv).
    destruct (Hdash b args Hin) as [H0 H1].
    destruct (fold_config_events_pairs events ([], ∅) b args Hin)
      as (l & Hl & Hol).
    exists (asset0 args +:+ "-" +:+ asset1 args), l, (oracle args),
      (getVendorForOracle (oracle args) od).
    split; [exact Hl |]. split; [by apply (Hmatch args H0 H1) |].
    split; [done |]. split; [| done].
    rewrite Hinfo. rewrite decide_True; [done |].
    apply Hadapters. by exists b, args.
Qed.

Lemma vault_vendors_follow_router_events_witness :
  "Chainlink" ∈
    (vault_vendors map_to_list
       (store_router "0xR1"
          (merged_router_info cross_registry 500 None weth_configured)
          fresh_progress)
       no_oracle_data "0xR1" "0xweth").1.
Proof.
  apply (vault_vendors_follow_router_events map_to_list _ cross_registry
           no_oracle_data 500 weth_configured "0xR1" "0xweth" "Chainlink").
  - reflexivity.
  - intros m. reflexivity.
  - intros b args Hin. apply list_elem_of_singleton in Hin.
    injection Hin as -> ->. split; reflexivity.
  - exists {| asset0 := "0xWETH"; asset1 := "0xUSD"; oracle := cross_adapter |}.
    split.
    + split; [exists 7; by left | left; reflexivity].
    + vm_compute. by left.
Defined.
